(** * Large-file-processor: chunked upload coordination and merge/ingest pipeline

    A shallow embedding of
      - [app/content/controller.py]  ([init_upload], [create_chunk]),
      - [celery_app/utils.py]        ([get_metadata], [merge_chunks],
                                      [prepare_mongo_records],
                                      [add_movie_batch_to_mongo],
                                      [update_redis_metadata]),
      - [celery_app/tasks.py]        ([process_chunks]),
    together with the properties of the upload protocol and of the pipeline.

    Modelling conventions.
      - Redis holds hashes of strings ([decode_responses=True]); every key has
        a modification counter, which is what [WATCH]/[EXEC] compares.  The
        Redis server is taken to be reachable: every command is answered.
      - The upload directory maps a [file_id] to the entries of
        [UPLOAD_DIR/<file_id>/] in the order [os.listdir] reports them; the
        merge directory maps a [file_id] to the bytes of
        [MERGE_DIR/<file_id>.csv].  Identifiers are plain names (no path
        separators).
      - File-system and MongoDB calls may fail: the world carries a script
        [io_faults] with one boolean per such call, [true] meaning that the
        call raises.  An exhausted script means no further failure.
      - Concurrent requests are interleaved at the granularity of the
        commands they send to Redis and to the broker.
      - The decorators of the handlers ([jwt_required], [timer]) are left
        out: requests are those of an authenticated caller. *)

From Stdlib Require Import ZArith String Ascii List Bool Lia.
From Stdlib Require Import DecimalString DecimalZ DecimalPos.
From Stdlib Require Import Sorting.Sorted Sorting.Permutation.
From stdpp Require Import gmap strings list fin_maps.

Open Scope string_scope.
Open Scope Z_scope.

(** ** Python built-ins used by the sources

    Strings are strings of bytes: the digits and the white space of Python
    that lie outside ASCII are not represented. *)

Module Py.

Definition is_ascii_digit (a : ascii) : bool :=
  match a with
  | "0" | "1" | "2" | "3" | "4" | "5" | "6" | "7" | "8" | "9" => true
  | _ => false
  end%char.

Fixpoint all_digits (s : string) : bool :=
  match s with
  | EmptyString => true
  | String a s' => is_ascii_digit a && all_digits s'
  end.

(** [str.isdigit()]: non-empty and made of digits only. *)
Definition isdigit (s : string) : bool :=
  match s with
  | EmptyString => false
  | _ => all_digits s
  end.

(** [int(s)] on a string of decimal digits. *)
Definition digits_value (s : string) : Z :=
  match NilEmpty.uint_of_string s with
  | Some u => Z.of_uint u
  | None => 0
  end.

(** [str(n)] for an integer. *)
Definition str (z : Z) : string := NilEmpty.string_of_int (Z.to_int z).

(** Values of the dictionary built at [controller.py:89]. *)
Inductive value : Type :=
| VInt (z : Z)
| VStr (s : string).

(** [int(v) if v.isdigit() else v] *)
Definition coerce (v : string) : value :=
  if isdigit v then VInt (digits_value v) else VStr v.

(** [str(v)] at [controller.py:104]. *)
Definition str_value (v : value) : string :=
  match v with
  | VInt z => str z
  | VStr s => s
  end.

(** [a == b] on such values: an [int] never equals a [str]. *)
Definition value_eqb (a b : value) : bool :=
  match a, b with
  | VInt x, VInt y => x =? y
  | VStr x, VStr y => String.eqb x y
  | _, _ => false
  end.

(** Truthiness of an optional string ([not file_id]). *)
Definition falsy (o : option string) : bool :=
  match o with
  | None | Some EmptyString => true
  | Some _ => false
  end.

(** *** Whitespace, [strip], [split] and the general [int(s)] *)

Definition is_space (a : ascii) : bool :=
  let n := nat_of_ascii a in
  ((9 <=? n) && (n <=? 13) || (28 <=? n) && (n <=? 32))%nat.

Fixpoint lstrip (s : string) : string :=
  match s with
  | String a s' => if is_space a then lstrip s' else s
  | EmptyString => EmptyString
  end.

Fixpoint rstrip (s : string) : string :=
  match s with
  | EmptyString => EmptyString
  | String a s' =>
      match rstrip s' with
      | EmptyString => if is_space a then EmptyString else String a EmptyString
      | t => String a t
      end
  end.

Definition strip (s : string) : string := rstrip (lstrip s).

(** [s.split(sep)[-1]]: what follows the last separator. *)
Fixpoint split_last (sep : ascii) (s : string) : string :=
  match s with
  | EmptyString => EmptyString
  | String a s' =>
      if existsb (Ascii.eqb sep) (list_ascii_of_string s') then split_last sep s'
      else if Ascii.eqb a sep then s'
      else s
  end.

(** [int(s)] in base ten: surrounding whitespace, an optional sign, then
    digits.  [None] stands for [ValueError]. *)
Definition int (s : string) : option Z :=
  match strip s with
  | String "+" d => if isdigit d then Some (digits_value d) else None
  | String "-" d => if isdigit d then Some (- digits_value d) else None
  | d => if isdigit d then Some (digits_value d) else None
  end.

End Py.

(** ** The world the handlers and the tasks act upon *)

(** A cell of a pandas [DataFrame] and of a MongoDB document. *)
Inductive cell : Type :=
| NaN
| PyNone
| Text (s : string)
| Number (z : Z)
| Timestamp (t : Z)
| NaT.

Record world : Type := mkWorld {
  redis_db : gmap string (gmap string string);
  redis_ver : gmap string nat;
  upload_dir : gmap string (list (string * list Byte.byte));
  merge_dir : gmap string (list Byte.byte);
  celery_queue : list string;
  movies_collection : list (list (string * cell));
  io_faults : list bool
}.

Definition set_redis (db : gmap string (gmap string string))
    (ver : gmap string nat) (σ : world) : world :=
  mkWorld db ver (upload_dir σ) (merge_dir σ) (celery_queue σ)
          (movies_collection σ) (io_faults σ).

Definition set_upload_dir (u : gmap string (list (string * list Byte.byte)))
    (σ : world) : world :=
  mkWorld (redis_db σ) (redis_ver σ) u (merge_dir σ) (celery_queue σ)
          (movies_collection σ) (io_faults σ).

Definition set_merge_dir (m : gmap string (list Byte.byte)) (σ : world) : world :=
  mkWorld (redis_db σ) (redis_ver σ) (upload_dir σ) m (celery_queue σ)
          (movies_collection σ) (io_faults σ).

Definition set_celery_queue (q : list string) (σ : world) : world :=
  mkWorld (redis_db σ) (redis_ver σ) (upload_dir σ) (merge_dir σ) q
          (movies_collection σ) (io_faults σ).

Definition set_movies_collection (c : list (list (string * cell)))
    (σ : world) : world :=
  mkWorld (redis_db σ) (redis_ver σ) (upload_dir σ) (merge_dir σ)
          (celery_queue σ) c (io_faults σ).

Definition set_io_faults (f : list bool) (σ : world) : world :=
  mkWorld (redis_db σ) (redis_ver σ) (upload_dir σ) (merge_dir σ)
          (celery_queue σ) (movies_collection σ) f.

(** *** Redis commands *)

Module Redis.

(** [HGETALL key]: the empty dictionary for a missing key. *)
Definition hgetall (key : string) (σ : world) : gmap string string :=
  default ∅ (redis_db σ !! key).

(** [EXISTS key] *)
Definition exists_ (key : string) (σ : world) : bool :=
  bool_decide (is_Some (redis_db σ !! key)).

(** The modification counter of a key. *)
Definition version (key : string) (σ : world) : nat :=
  default 0%nat (redis_ver σ !! key).

(** [HSET key field value [field value ...]]: the given fields are set, the
    others are kept, and the key counts as modified. *)
Definition hset (key : string) (mapping : gmap string string) (σ : world)
  : world :=
  set_redis (<[key := mapping ∪ hgetall key σ]> (redis_db σ))
            (<[key := S (version key σ)]> (redis_ver σ)) σ.

End Redis.

(** *** Fallible input/output *)

(** One file-system or MongoDB call: consumes an entry of the fault script
    and reports whether the call raises. *)
Definition io_call (σ : world) : bool * world :=
  match io_faults σ with
  | [] => (false, σ)
  | b :: rest => (b, set_io_faults rest σ)
  end.

(** ** Upload Session Manager and Metadata Updater *)

(** An HTTP response: status code and, for a session record, its JSON body. *)
Record response : Type := mkResponse {
  status_code : nat;
  json : option (gmap string string)
}.

(** [init_upload] ([controller.py:169]); [uuid4] is the identifier drawn by
    [uuid4()]. *)
Definition init_upload (total_chunks : Z) (uuid4 : string) (σ : world)
  : response * world :=
  if total_chunks <? 1 then (mkResponse 400 None, σ)
  else
    let file_id := uuid4 in
    let file_data : gmap string string :=
      {[ "file_id" := file_id;
         "total_chunks" := Py.str total_chunks;
         "chunks_uploaded" := Py.str 0;
         "status" := "Not Started" ]} in
    let σ1 := Redis.hset file_id file_data σ in
    let file_metadata := Redis.hgetall file_id σ1 in
    if bool_decide (file_metadata = ∅) then (mkResponse 400 None, σ1)
    else (mkResponse 201 (Some file_metadata), σ1).

(** [get_status] ([controller.py:135]) *)
Definition get_status (file_id : string) (σ : world) : response :=
  let file_metadata := Redis.hgetall file_id σ in
  if bool_decide (file_metadata = ∅) then mkResponse 404 None
  else mkResponse 200 (Some file_metadata).

(** [get_metadata] ([utils.py:25]): [None] when the lookup raised. *)
Definition get_metadata (file_id : string) (σ : world)
  : option (gmap string string) :=
  let file_metadata := Redis.hgetall file_id σ in
  if bool_decide (file_metadata = ∅) then None else Some file_metadata.

(** [update_redis_metadata] ([utils.py:213]): every exception is caught and
    printed, so the function only acts on the world. *)
Definition update_redis_metadata (file_id status : string) (σ : world) : world :=
  if String.eqb file_id "" then σ
  else
    let metadata := Redis.hgetall file_id σ in
    if bool_decide (metadata = ∅) then σ
    else Redis.hset file_id (<["status" := status]> metadata) σ.

(** ** Chunk Receiver and Completion Detector: [create_chunk] *)

(** The uploaded file part.  Such an object is true when its [filename] is
    not empty. *)
Record FileStorage : Type := mkFile {
  filename : string;
  stream : list Byte.byte
}.

(** The multipart form of [POST /create-chunk]. *)
Record chunk_form : Type := mkForm {
  form_file_id : option string;
  form_chunk_id : option string;
  files_file : option FileStorage
}.

(** [os.makedirs(file_dir, exist_ok=True)] *)
Definition makedirs (file_id : string) (σ : world) : world :=
  match upload_dir σ !! file_id with
  | Some _ => σ
  | None => set_upload_dir (<[file_id := []]> (upload_dir σ)) σ
  end.

(** Writing a file of a directory: an existing entry is overwritten, a new
    one is added to the listing. *)
Definition dir_write (name : string) (data : list Byte.byte)
    (entries : list (string * list Byte.byte)) : list (string * list Byte.byte) :=
  if existsb (fun e => String.eqb (fst e) name) entries
  then map (fun e => if String.eqb (fst e) name then (name, data) else e) entries
  else entries ++ [(name, data)].

(** [file_chunk.save(chunk_path)] *)
Definition save (file_id chunk_id : string) (data : list Byte.byte) (σ : world)
  : world :=
  set_upload_dir
    (<[file_id := dir_write chunk_id data (default [] (upload_dir σ !! file_id))]>
       (upload_dir σ)) σ.

(** The stored payload of chunk [(file_id, chunk_id)], if any. *)
Definition blob (σ : world) (file_id chunk_id : string) : option (list Byte.byte) :=
  match upload_dir σ !! file_id with
  | Some entries =>
      snd <$> List.find (fun e => String.eqb (fst e) chunk_id) entries
  | None => None
  end.

(** Where a request stands.  Between two of these points the request sends
    one command to Redis or to the broker. *)
Inductive point : Type :=
| AtEntry
| AtWatch (file_id : string)
| AtHgetall (file_id : string) (watched : nat)
| AtDelay (file_id : string) (watched : nat) (file_metadata : gmap string Py.value)
| AtExecute (file_id : string) (watched : nat) (file_metadata : gmap string Py.value)
| Returned (code : nat).

(** Lines 49-77: validation, session lookup, storage of the chunk. *)
Definition receive (req : chunk_form) (σ : world) : point * world :=
  match form_file_id req, form_chunk_id req, files_file req with
  | Some file_id, Some chunk_id, Some file_chunk =>
      if String.eqb file_id "" || String.eqb chunk_id ""
         || String.eqb (filename file_chunk) ""
      then (Returned 400, σ)
      else if negb (Redis.exists_ file_id σ) then (Returned 404, σ)
      else
        let '(raised, σ1) := io_call σ in
        if raised then (Returned 500, σ1)
        else
          let σ2 := makedirs file_id σ1 in
          let '(raised, σ3) := io_call σ2 in
          if raised then (Returned 500, σ3)
          else (AtWatch file_id, save file_id chunk_id (stream file_chunk) σ3)
  | _, _, _ => (Returned 400, σ)
  end.

(** Lines 88-100, up to the call of [process_chunks.delay]: the decisions
    taken on the dictionary just read. *)
Definition decide_completion (file_id : string) (watched : nat) (σ : world)
  : point :=
  let file_metadata := Py.coerce <$> Redis.hgetall file_id σ in
  match file_metadata !! "chunks_uploaded" with
  | Some (Py.VInt c) =>
      let file_metadata := <["chunks_uploaded" := Py.VInt (c + 1)]> file_metadata in
      match file_metadata !! "total_chunks" with
      | Some total =>
          if Py.value_eqb (Py.VInt (c + 1)) total
          then AtDelay file_id watched
                 (<["status" := Py.VStr "Processing"]> file_metadata)
          else AtExecute file_id watched file_metadata
      | None => Returned 500
      end
  | _ => Returned 500
  end.

(** One request in flight; [attempts] counts the iterations of the
    [while True] loop it has entered. *)
Record request : Type := mkRequest {
  form : chunk_form;
  at_point : point;
  attempts : nat
}.

Definition fresh (req : chunk_form) : request := mkRequest req AtEntry 0.

(** One command of one request. *)
Definition request_step (r : request) (σ : world) : request * world :=
  match at_point r with
  | AtEntry =>
      let '(p, σ') := receive (form r) σ in
      (mkRequest (form r) p (attempts r), σ')
  | AtWatch file_id =>
      (mkRequest (form r) (AtHgetall file_id (Redis.version file_id σ))
                 (S (attempts r)), σ)
  | AtHgetall file_id watched =>
      (mkRequest (form r) (decide_completion file_id watched σ) (attempts r), σ)
  | AtDelay file_id watched file_metadata =>
      (mkRequest (form r) (AtExecute file_id watched file_metadata) (attempts r),
       set_celery_queue (celery_queue σ ++ [file_id]) σ)
  | AtExecute file_id watched file_metadata =>
      if Nat.eqb (Redis.version file_id σ) watched
      then (mkRequest (form r) (Returned 201) (attempts r),
            Redis.hset file_id (Py.str_value <$> file_metadata) σ)
      else (mkRequest (form r) (AtWatch file_id) (attempts r), σ)
  | Returned _ => (r, σ)
  end.

(** Requests served concurrently over one world. *)
Record system : Type := mkSystem {
  env : world;
  pool : list request
}.

(** The request of index [i] sends its next command. *)
Definition system_step (s : system) (i : nat) : system :=
  match pool s !! i with
  | Some r =>
      let '(r', σ') := request_step r (env s) in
      mkSystem σ' (<[i := r']> (pool s))
  | None => s
  end.

Definition run (schedule : list nat) (s : system) : system :=
  fold_left system_step schedule s.

(** A request served with no other client in between. *)
Fixpoint serve (fuel : nat) (r : request) (σ : world) : request * world :=
  match fuel with
  | O => (r, σ)
  | S fuel' =>
      match at_point r with
      | Returned _ => (r, σ)
      | _ => let '(r', σ') := request_step r σ in serve fuel' r' σ'
      end
  end.

Definition create_chunk (req : chunk_form) (σ : world) : point * world :=
  let '(r, σ') := serve 5 (fresh req) σ in (at_point r, σ').

(** ** Merge Worker: [merge_chunks] *)

(** Python's [sorted(l, key=...)] is a stable sort; insertion from the right
    is the reference stable sort. *)
Fixpoint insert_by {A : Type} (key : A -> Z) (x : A) (l : list A) : list A :=
  match l with
  | [] => [x]
  | y :: l' => if key x <=? key y then x :: l else y :: insert_by key x l'
  end.

Definition sorted {A : Type} (key : A -> Z) (l : list A) : list A :=
  foldr (insert_by key) [] l.

(** The sort key of [utils.py:97]: [int(os.path.basename(x).split('_')[-1])]. *)
Definition chunk_key (name : string) : option Z :=
  Py.int (Py.split_last "_" name).

Definition key_or_zero (name : string) : Z := default 0 (chunk_key name).

(** [os.path.join(MERGE_DIR, f"{file_id}.csv")], relative to [MERGE_DIR]. *)
Definition output_file (file_id : string) : string :=
  String.append file_id ".csv".

(** [outfile.write(data)] *)
Definition write_output (path : string) (data : list Byte.byte) (σ : world)
  : world :=
  set_merge_dir
    (<[path := (default [] (merge_dir σ !! path) ++ data)%list]> (merge_dir σ)) σ.

(** Lines 102-104: each chunk is opened, read and appended to the output. *)
Fixpoint write_chunks (file_id : string) (chunk_files : list string) (σ : world)
  : bool * world :=
  match chunk_files with
  | [] => (true, σ)
  | chunk_file :: rest =>
      let '(raised, σ1) := io_call σ in
      if raised then (false, σ1)
      else
        match blob σ1 file_id chunk_file with
        | None => (false, σ1)
        | Some data =>
            write_chunks file_id rest (write_output (output_file file_id) data σ1)
        end
  end.

(** [os.remove(chunk_file)] *)
Definition remove (file_id name : string) (σ : world) : world :=
  set_upload_dir
    (<[file_id := filter (fun e => fst e ≠ name)
                         (default [] (upload_dir σ !! file_id))]> (upload_dir σ)) σ.

(** Lines 107-108 *)
Fixpoint remove_chunks (file_id : string) (chunk_files : list string) (σ : world)
  : bool * world :=
  match chunk_files with
  | [] => (true, σ)
  | chunk_file :: rest =>
      let '(raised, σ1) := io_call σ in
      if raised then (false, σ1)
      else
        match blob σ1 file_id chunk_file with
        | None => (false, σ1)
        | Some _ => remove_chunks file_id rest (remove file_id chunk_file σ1)
        end
  end.

(** [os.rmdir(chunks_directory)]: only an empty directory can be removed. *)
Definition rmdir (file_id : string) (σ : world) : bool * world :=
  let '(raised, σ1) := io_call σ in
  if raised then (false, σ1)
  else
    match upload_dir σ1 !! file_id with
    | Some [] => (true, set_upload_dir (delete file_id (upload_dir σ1)) σ1)
    | _ => (false, σ1)
    end.

(** [merge_chunks] ([utils.py:61]).  Every exception is caught and printed,
    after which the function returns [None]. *)
Definition merge_chunks (file_id : string) (σ : world) : option string * world :=
  match upload_dir σ !! file_id with
  | None => (None, σ)
  | Some _ =>
      let '(raised, σ1) := io_call σ in
      if raised then (None, σ1)
      else
        let chunk_files := fst <$> default [] (upload_dir σ1 !! file_id) in
        match chunk_files with
        | [] => (None, σ1)
        | _ =>
            if forallb (fun f => bool_decide (is_Some (chunk_key f))) chunk_files
            then
              let chunk_files := sorted key_or_zero chunk_files in
              let '(raised, σ2) := io_call σ1 in
              if raised then (None, σ2)
              else
                let σ3 :=
                  set_merge_dir (<[output_file file_id := []]> (merge_dir σ2)) σ2 in
                let '(written, σ4) := write_chunks file_id chunk_files σ3 in
                if written then
                  let '(removed, σ5) := remove_chunks file_id chunk_files σ4 in
                  if removed then
                    let '(gone, σ6) := rmdir file_id σ5 in
                    if gone then (Some (output_file file_id), σ6) else (None, σ6)
                  else (None, σ5)
                else (None, σ4)
            else (None, σ1)
        end
  end.

(** ** Batch Processor *)

Record DataFrame : Type := mkFrame {
  columns : list string;
  rows : list (list cell)
}.

(** [batch.empty] *)
Definition empty (batch : DataFrame) : bool :=
  match columns batch, rows batch with
  | [], _ | _, [] => true
  | _, _ => false
  end.

(** [pd.notnull] on one cell *)
Definition notnull (c : cell) : bool :=
  match c with
  | NaN | PyNone | NaT => false
  | _ => true
  end.

(** [batch.where(pd.notnull(batch), None)] *)
Definition where_notnull (batch : DataFrame) : DataFrame :=
  mkFrame (columns batch)
          (map (map (fun c => if notnull c then c else PyNone)) (rows batch)).

(** [batch[name] = f(batch[name])] *)
Definition assign_column (name : string) (f : cell -> cell) (batch : DataFrame)
  : DataFrame :=
  mkFrame (columns batch)
          (map (fun row =>
                  map (fun '(col, c) => if String.eqb col name then f c else c)
                      (combine (columns batch) row))
               (rows batch)).

(** [batch.to_dict(orient="records")] *)
Definition to_dict_records (batch : DataFrame) : list (list (string * cell)) :=
  map (combine (columns batch)) (rows batch).

Section Pipeline.

(** pandas' date parser on a non-null value: [None] when the value is not
    a date. *)
Variable parse_datetime : cell -> option Z.

(** [CHUNK_SIZE] and [pd.read_csv(path, chunksize=CHUNK_SIZE, header=0)]:
    the batches the reader yields, and whether it raises after them. *)
Variable CHUNK_SIZE : nat.
Variable read_csv : list Byte.byte -> nat -> list DataFrame * bool.

(** [pd.to_datetime(..., errors='coerce')] on one cell *)
Definition to_datetime (c : cell) : cell :=
  match c with
  | NaN | PyNone | NaT => NaT
  | Timestamp t => Timestamp t
  | _ =>
      match parse_datetime c with
      | Some t => Timestamp t
      | None => NaT
      end
  end.

(** [prepare_mongo_records] ([utils.py:127]); [None] after a caught
    exception. *)
Definition prepare_mongo_records (batch : DataFrame)
  : option (list (list (string * cell))) :=
  if empty batch then None
  else
    let batch := where_notnull batch in
    let batch :=
      if existsb (String.eqb "date_added") (columns batch)
      then assign_column "date_added" to_datetime batch
      else batch in
    Some (to_dict_records batch).

(** [add_movie_batch_to_mongo] ([utils.py:176]) *)
Definition add_movie_batch_to_mongo (batch : DataFrame) (σ : world) : world :=
  match prepare_mongo_records batch with
  | Some (r :: records) =>
      let '(raised, σ1) := io_call σ in
      if raised then σ1
      else set_movies_collection (movies_collection σ1 ++ r :: records)%list σ1
  | _ => σ
  end.

(** [process_chunks] ([tasks.py:30]) *)
Definition process_chunks (file_id : string) (σ : world) : option nat * world :=
  match get_metadata file_id σ with
  | None => (None, σ)
  | Some _ =>
      let '(csv_file_path, σ1) := merge_chunks file_id σ in
      match csv_file_path with
      | None => (None, σ1)
      | Some path =>
          match merge_dir σ1 !! path with
          | None => (None, σ1)
          | Some content =>
              let '(batches, raises) := read_csv content CHUNK_SIZE in
              let σ2 :=
                fold_left (fun σ' batch => add_movie_batch_to_mongo batch σ')
                          batches σ1 in
              if raises then (None, σ2)
              else (Some 200%nat, update_redis_metadata file_id "Completed" σ2)
          end
      end
  end.

End Pipeline.

(** ** Vocabulary of the statements *)

(** A world with no session, no chunk, no job and no failure ahead. *)
Definition empty_world : world := mkWorld ∅ ∅ ∅ ∅ [] [] [].

(** The record [init_upload] builds at [controller.py:191]. *)
Definition new_session (total_chunks : Z) (uuid4 : string) : gmap string string :=
  {[ "file_id" := uuid4;
     "total_chunks" := Py.str total_chunks;
     "chunks_uploaded" := "0";
     "status" := "Not Started" ]}.


(** What the first step of a request can yield. *)
Inductive received (req : chunk_form) (σ : world) : point -> world -> Prop :=
| received_invalid :
    (Py.falsy (form_file_id req) = true \/ Py.falsy (form_chunk_id req) = true \/
     Py.falsy (filename <$> files_file req) = true) ->
    received req σ (Returned 400) σ
| received_unknown file_id chunk_id file_chunk :
    req = mkForm (Some file_id) (Some chunk_id) (Some file_chunk) ->
    redis_db σ !! file_id = None ->
    received req σ (Returned 404) σ
| received_makedirs_failed file_id chunk_id file_chunk σ1 :
    req = mkForm (Some file_id) (Some chunk_id) (Some file_chunk) ->
    is_Some (redis_db σ !! file_id) ->
    io_call σ = (true, σ1) ->
    received req σ (Returned 500) σ1
| received_save_failed file_id chunk_id file_chunk σ1 σ3 :
    req = mkForm (Some file_id) (Some chunk_id) (Some file_chunk) ->
    is_Some (redis_db σ !! file_id) ->
    io_call σ = (false, σ1) ->
    io_call (makedirs file_id σ1) = (true, σ3) ->
    received req σ (Returned 500) σ3
| received_stored file_id chunk_id file_chunk σ1 σ3 :
    req = mkForm (Some file_id) (Some chunk_id) (Some file_chunk) ->
    is_Some (redis_db σ !! file_id) ->
    io_call σ = (false, σ1) ->
    io_call (makedirs file_id σ1) = (false, σ3) ->
    received req σ (AtWatch file_id) (save file_id chunk_id (stream file_chunk) σ3).


(** The counter of a session, read the way [create_chunk] reads it. *)
Definition chunks_uploaded_of (σ : world) (file_id : string) : option Z :=
  match Redis.hgetall file_id σ !! "chunks_uploaded" with
  | Some v => if Py.isdigit v then Some (Py.digits_value v) else None
  | None => None
  end.

(** [total_chunks] of a session, read the same way. *)
Definition total_chunks_of (σ : world) (file_id : string) : option Z :=
  match Redis.hgetall file_id σ !! "total_chunks" with
  | Some v => if Py.isdigit v then Some (Py.digits_value v) else None
  | None => None
  end.

(** A transaction in flight is consistent with the store: it watched the key
    no later than now, and while the key is unmodified since, the dictionary
    it is about to write holds the stored counter plus one. *)
Definition consistent (σ : world) (r : request) : Prop :=
  match at_point r with
  | AtHgetall file_id watched => (watched <= Redis.version file_id σ)%nat
  | AtDelay file_id watched file_metadata
  | AtExecute file_id watched file_metadata =>
      (watched <= Redis.version file_id σ)%nat /\
      (Redis.version file_id σ = watched ->
       exists c, chunks_uploaded_of σ file_id = Some c /\
                 file_metadata !! "chunks_uploaded" = Some (Py.VInt (c + 1)))
  | _ => True
  end.

Definition invariant (s : system) : Prop :=
  Forall (consistent (env s)) (pool s).

(** A well-formed form for chunk [chunk_id] of session [file_id]. *)
Definition chunk_of (file_id chunk_id : string) (payload : string) : chunk_form :=
  mkForm (Some file_id) (Some chunk_id)
         (Some (mkFile "blob" (list_byte_of_string payload))).

(** The world after [init_upload] created session ["id"] in an empty store. *)
Definition session_world (total_chunks : Z) : world :=
  snd (init_upload total_chunks "id" empty_world).

(** *** A burst of duplicate uploads

    Request 0 uploads chunk ["0"] of a session of [n + 2] chunks while [n]
    other requests upload chunk ["1"] over and over.  In the schedule below
    each of them commits between the read and the commit of request 0. *)
Definition contended (n : nat) : system :=
  mkSystem (session_world (Z.of_nat n + 2))
           (fresh (chunk_of "id" "0" "a")
            :: replicate n (fresh (chunk_of "id" "1" "x"))).

Definition contended_round (k : nat) : list nat := [0; 0; k; k; k; k; 0]%nat.

Definition contended_schedule (n : nat) : list nat :=
  (0%nat :: flat_map contended_round (seq 1 n)) ++ [0; 0; 0]%nat.

(** The number of loop iterations request [i] has entered. *)
Definition attempts_of (s : system) (i : nat) : nat :=
  default 0%nat (attempts <$> pool s !! i).

(** The answer request [i] has returned, if it has. *)
Definition answer_of (s : system) (i : nat) : option nat :=
  match at_point <$> pool s !! i with
  | Some (Returned code) => Some code
  | _ => None
  end.

(** The states between two rounds of the burst: [k] rounds done. *)
Record between_rounds (n k : nat) (s : system) : Prop := mkBetween {
  br_counter :
    Redis.hgetall "id" (env s) !! "chunks_uploaded" = Some (Py.str (Z.of_nat k));
  br_total :
    Redis.hgetall "id" (env s) !! "total_chunks"
    = Some (Py.str (Z.of_nat n + 2));
  br_faults : io_faults (env s) = [];
  br_first :
    pool s !! 0%nat = Some (mkRequest (chunk_of "id" "0" "a") (AtWatch "id") k);
  br_others :
    forall j, (k < j <= n)%nat ->
              pool s !! j = Some (fresh (chunk_of "id" "1" "x"))
}.

(** *** Two uploads racing on a session of one chunk

    Both requests read the counter at 0 before either commits. *)
Definition race : system :=
  mkSystem (session_world 1)
           [fresh (chunk_of "id" "0" "a"); fresh (chunk_of "id" "0" "a")].

Definition race_schedule : list nat :=
  [0; 1; 0; 0; 1; 1; 0; 1; 0; 1; 1; 1; 1]%nat.

(** *** One upload overtaken by the pipeline it has just triggered

    The only request of a session of one chunk submits the job; the worker
    runs the whole pipeline before the request sends [EXEC]. *)
Definition overtaken (pipeline : string -> world -> option nat * world)
  : request * world :=
  let r0 := fresh (chunk_of "id" "0" "a") in
  let '(r1, σ1) := request_step r0 (session_world 1) in
  let '(r2, σ2) := request_step r1 σ1 in
  let '(r3, σ3) := request_step r2 σ2 in
  let '(r4, σ4) := request_step r3 σ3 in
  let σ5 := snd (pipeline "id" σ4) in
  serve 5 r4 σ5.

(** Ascending order of the keys. *)
Definition ascending {A : Type} (key : A -> Z) (a b : A) : Prop :=
  key a <= key b.

(** The payloads of the named chunks of a session, end to end. *)
Definition payloads (σ : world) (file_id : string) (names : list string)
  : list Byte.byte :=
  concat (map (fun name => default [] (blob σ file_id name)) names).

(** The chunk names of a session in ascending order of their numeric index. *)
Definition ordered_chunks (σ : world) (file_id : string) : list string :=
  sorted key_or_zero (fst <$> default [] (upload_dir σ !! file_id)).

(** The complete artifact of a session: its payloads in that order. *)
Definition full_artifact (σ : world) (file_id : string) : list Byte.byte :=
  payloads σ file_id (ordered_chunks σ file_id).

(** Two worlds that differ at most in their files and in the fault script. *)
Definition same_services (σ σ' : world) : Prop :=
  redis_db σ' = redis_db σ /\ redis_ver σ' = redis_ver σ /\
  celery_queue σ' = celery_queue σ /\
  movies_collection σ' = movies_collection σ.

(** Three chunks whose lexical order is not their numeric order, listed in
    the order of their arrival. *)
Definition three_chunks : list (string * list Byte.byte) :=
  [("10", list_byte_of_string "C"); ("9", list_byte_of_string "B");
   ("2", list_byte_of_string "A")].

Definition uploaded (entries : list (string * list Byte.byte)) : world :=
  set_upload_dir {[ "id" := entries ]} (session_world 3).

(** The ways a run of [merge_chunks] can end: before anything was written;
    in the middle of the concatenation; after the concatenation, with the
    deletion or the removal of the directory interrupted; or at its end. *)
Inductive merged (file_id : string) (σ : world) : option string -> world -> Prop :=
| merged_nothing σ' :
    same_services σ σ' ->
    upload_dir σ' = upload_dir σ ->
    merge_dir σ' = merge_dir σ ->
    merged file_id σ None σ'
| merged_partly σ' done rest :
    same_services σ σ' ->
    ordered_chunks σ file_id = (done ++ rest)%list ->
    upload_dir σ' = upload_dir σ ->
    merge_dir σ'
      = <[output_file file_id := payloads σ file_id done]> (merge_dir σ) ->
    merged file_id σ None σ'
| merged_not_cleaned σ' entries done rest :
    same_services σ σ' ->
    upload_dir σ !! file_id = Some entries ->
    ordered_chunks σ file_id = (done ++ rest)%list ->
    upload_dir σ'
      = <[file_id := filter (fun e => e.1 ∉ done) entries]> (upload_dir σ) ->
    merge_dir σ'
      = <[output_file file_id := full_artifact σ file_id]> (merge_dir σ) ->
    merged file_id σ None σ'
| merged_cleaned σ' :
    same_services σ σ' ->
    is_Some (upload_dir σ !! file_id) ->
    upload_dir σ' = delete file_id (upload_dir σ) ->
    merge_dir σ'
      = <[output_file file_id := full_artifact σ file_id]> (merge_dir σ) ->
    merged file_id σ (Some (output_file file_id)) σ'.



(** A reader that yields one batch of one row, and a date parser that knows
    one date. *)
Definition one_batch (content : list Byte.byte) (chunksize : nat)
  : list DataFrame * bool :=
  ([mkFrame ["title"; "date_added"] [[Text "Heat"; Text "1995-12-15"]]], false).

Definition parse_one_date (c : cell) : option Z :=
  match c with
  | Text "1995-12-15" => Some 819010800
  | _ => None
  end.

(** The session ["id"] of one chunk, after that chunk was uploaded: the
    status is [Processing] and the job is in the queue. *)
Definition processing_world : world :=
  snd (create_chunk (chunk_of "id" "0" "title,date_added") (session_world 1)).


(** * The rest of the code: further vocabulary *)

(** What a field of a session reads once [create_chunk] has written the
    record back ([controller.py:89] then [controller.py:104]): a string of
    digits goes through [int] and [str], any other string is kept. *)
Definition rewritten (v : string) : string := Py.str_value (Py.coerce v).

(** A form with its three fields, for session [file_id]. *)
Definition well_formed_for (file_id : string) (req : chunk_form) : Prop :=
  exists chunk_id file_chunk,
    req = mkForm (Some file_id) (Some chunk_id) (Some file_chunk) /\
    file_id <> "" /\ chunk_id <> "" /\ filename file_chunk <> "".

(** Requests served one after the other, each one alone. *)
Definition upload_all (reqs : list chunk_form) (σ : world) : world :=
  fold_left (fun w req => (create_chunk req w).2) reqs σ.

(** The form a client sends for one chunk: its name and its payload. *)
Definition upload_form (file_id file_name : string)
    (chunk : string * list Byte.byte) : chunk_form :=
  mkForm (Some file_id) (Some chunk.1) (Some (mkFile file_name chunk.2)).

(** The documents a batch contributes to the catalog. *)
Definition records_of (parse_datetime : cell -> option Z) (batch : DataFrame)
  : list (list (string * cell)) :=
  default [] (prepare_mongo_records parse_datetime batch).

(** The loop of [tasks.py:69]: the batches are inserted one after the
    other. *)
Definition insert_all (parse_datetime : cell -> option Z)
    (batches : list DataFrame) (σ : world) : world :=
  fold_left (fun w batch => add_movie_batch_to_mongo parse_datetime batch w)
            batches σ.

(** A request for session [file_id] that was answered 201. *)
Definition accepted_by (file_id : string) (r : request) : bool :=
  match at_point r, form_file_id (form r) with
  | Returned 201, Some f => String.eqb f file_id
  | _, _ => false
  end.

(** The number of requests of the pool answered 201 for session [file_id]. *)
Definition accepted (s : system) (file_id : string) : nat :=
  length (List.filter (accepted_by file_id) (pool s)).

(** The transaction of a request is on the session its form names. *)
Definition on_its_session (r : request) : Prop :=
  match at_point r with
  | AtWatch f | AtHgetall f _ | AtDelay f _ _ | AtExecute f _ _ =>
      form_file_id (form r) = Some f
  | _ => True
  end.

(** What a transaction in flight on session [file_id] holds while the key
    is unmodified since it was watched: the total of the session and, once
    past the call of [process_chunks.delay], a job in the queue if the
    counter it is about to write is that total. *)
Definition announced (file_id : string) (t : Z) (σ : world) (r : request) : Prop :=
  match at_point r with
  | AtDelay f w md =>
      f = file_id -> Redis.version f σ = w ->
      md !! "total_chunks" = Some (Py.VInt t)
  | AtExecute f w md =>
      f = file_id -> Redis.version f σ = w ->
      md !! "total_chunks" = Some (Py.VInt t) /\
      (md !! "chunks_uploaded" = Some (Py.VInt t) -> file_id ∈ celery_queue σ)
  | _ => True
  end.

(** A session of [t] chunks whose counter has reached [t] has a job in the
    queue, and every transaction in flight will keep it so. *)
Definition triggered (file_id : string) (t : Z) (s : system) : Prop :=
  total_chunks_of (env s) file_id = Some t /\
  (exists c, chunks_uploaded_of (env s) file_id = Some c /\
             (t <= c -> file_id ∈ celery_queue (env s))) /\
  Forall (announced file_id t (env s)) (pool s).

(** ** Client: [create_chunks_script.py] *)

Module Script.

Section SplitCsv.

(** What [csv.writer] writes for one row, line terminator included. *)
Variable writerow : list string -> string.

(** The inner [create_chunk] of [split_csv]: [writer.writerows(chunk_rows)]
    into a fresh buffer, then [output.getvalue()]. *)
Definition create_chunk (chunk_rows : list (list string)) : string :=
  foldr String.append "" (writerow <$> chunk_rows).

(** The loop [for row in reader] of [split_csv], from the state [chunks],
    [chunk_rows]. *)
Fixpoint split_rows (chunk_size : Z) (reader : list (list string))
    (chunks : list string) (chunk_rows : list (list string))
  : list string * list (list string) :=
  match reader with
  | [] => (chunks, chunk_rows)
  | row :: reader' =>
      let chunk_rows := (chunk_rows ++ [row])%list in
      if chunk_size <=? Z.of_nat (length chunk_rows)
      then split_rows chunk_size reader' (chunks ++ [create_chunk chunk_rows])%list []
      else split_rows chunk_size reader' chunks chunk_rows
  end.

(** [split_csv(file_path, chunk_size)] on the rows [csv.reader] yields for
    the file; [None] stands for the [StopIteration] that [next(reader)]
    raises on a file with no row. *)
Definition split_csv (file : list (list string)) (chunk_size : Z)
  : option (list string) :=
  match file with
  | [] => None
  | headers :: reader =>
      let '(chunks, chunk_rows) := split_rows chunk_size reader [] [headers] in
      Some (if (1 <? length chunk_rows)%nat
            then (chunks ++ [create_chunk chunk_rows])%list
            else chunks)
  end.

(** The rows of a file that reach some chunk, for a chunk size of two or
    more: all of them, unless the last row would start a chunk of its own. *)
Definition kept (file : list (list string)) (chunk_size : Z) : list (list string) :=
  if Z.of_nat (length file) mod chunk_size =? 1 then removelast file else file.

End SplitCsv.

(** [enumerate(chunks, start)] *)
Fixpoint enumerate_from {A : Type} (start : nat) (l : list A) : list (nat * A) :=
  match l with
  | [] => []
  | x :: l' => (start, x) :: enumerate_from (S start) l'
  end.

(** [enumerate(chunks)] *)
Definition enumerate {A : Type} (l : list A) : list (nat * A) :=
  enumerate_from 0 l.

(** The form [send_chunk] posts for chunk [chunk_idx]. *)
Definition send_chunk (file_id : string) (task : nat * string) : chunk_form :=
  let chunk_idx := Py.str (Z.of_nat task.1) in
  mkForm (Some file_id) (Some chunk_idx)
    (Some (mkFile (String.append "chunk_" (String.append chunk_idx ".csv"))
                  (list_byte_of_string task.2))).

(** [process_and_upload(file_path, file_id, chunk_size)] against the API:
    the file is split, a session is opened for [len(chunks)] chunks unless
    [file_id] is given, and one [send_chunk] per chunk is gathered.  [uuid4]
    is the identifier the server draws; [arrival] is the order in which the
    server takes the gathered requests, each served before the next. *)
Definition process_and_upload (writerow : list string -> string)
    (file : list (list string)) (file_id : string) (chunk_size : Z)
    (uuid4 : string)
    (arrival : list (nat * string) -> list (nat * string)) (σ : world) : world :=
  match split_csv writerow file chunk_size with
  | None => σ
  | Some chunks =>
      let '(session, σ1) :=
        if String.eqb file_id ""
        then
          let '(init, σ1) := init_upload (Z.of_nat (length chunks)) uuid4 σ in
          if Nat.eqb (status_code init) 201
          then (json init ≫= fun init_data => init_data !! "file_id", σ1)
          else (None, σ1)
        else (Some file_id, σ) in
      match session with
      | None => σ1
      | Some file_id =>
          upload_all (send_chunk file_id <$> arrival (enumerate chunks)) σ1
      end
  end.

(** The directory entry the API keeps for the chunk of a task: named by its
    [chunk_id], holding the bytes of its text. *)
Definition entry_of (task : nat * string) : string * list Byte.byte :=
  (Py.str (Z.of_nat task.1), list_byte_of_string task.2).

End Script.
(** ** Facts about the Python built-ins *)

Module PyFacts.
Import Py.

Lemma all_digits_string_of_uint (d : Decimal.uint) :
  all_digits (NilEmpty.string_of_uint d) = true.
Proof. induction d; simpl; auto. Qed.

Lemma isdigit_string_of_uint (d : Decimal.uint) :
  d <> Decimal.Nil -> isdigit (NilEmpty.string_of_uint d) = true.
Proof.
  intros Hd. pose proof (all_digits_string_of_uint d) as Hall.
  destruct d; try congruence; exact Hall.
Qed.

Lemma isdigit_str (z : Z) : 0 <= z -> isdigit (str z) = true.
Proof.
  intros Hz. destruct z as [|p|p]; [reflexivity| |lia].
  apply isdigit_string_of_uint, Unsigned.to_uint_nonnil.
Qed.

Lemma digits_value_str (z : Z) : 0 <= z -> digits_value (str z) = z.
Proof.
  intros Hz. destruct z as [|p|p]; [reflexivity| |lia].
  unfold digits_value, str. simpl. rewrite NilEmpty.usu.
  unfold Z.of_uint. now rewrite Unsigned.of_to.
Qed.

Lemma digits_value_nonneg (s : string) : 0 <= digits_value s.
Proof.
  unfold digits_value. destruct (NilEmpty.uint_of_string s); [|lia].
  unfold Z.of_uint. lia.
Qed.

Lemma coerce_str (z : Z) : 0 <= z -> coerce (str z) = VInt z.
Proof.
  intros Hz. unfold coerce. now rewrite isdigit_str, digits_value_str.
Qed.

(** What [coerce] returns as an integer comes from a string of digits. *)
Lemma coerce_int (v : string) (z : Z) :
  coerce v = VInt z -> isdigit v = true /\ z = digits_value v.
Proof.
  unfold coerce. destruct (isdigit v); intros H; inversion H; auto.
Qed.

Lemma value_eqb_int (x : Z) (v : value) :
  value_eqb (VInt x) v = true <-> v = VInt x.
Proof.
  destruct v as [y|s]; simpl; split; intros H; try discriminate.
  - apply Z.eqb_eq in H. now subst.
  - inversion H. apply Z.eqb_refl.
Qed.

End PyFacts.

(** ** Facts about the Redis commands *)

Module RedisFacts.
Import Redis.

Lemma hgetall_hset (key : string) (mapping : gmap string string) (σ : world) :
  hgetall key (hset key mapping σ) = mapping ∪ hgetall key σ.
Proof. unfold hgetall at 1, hset. simpl. now rewrite lookup_insert_eq. Qed.

Lemma hgetall_hset_ne (key key' : string) (mapping : gmap string string)
    (σ : world) :
  key <> key' -> hgetall key' (hset key mapping σ) = hgetall key' σ.
Proof.
  intros Hne. unfold hgetall, hset. simpl. now rewrite lookup_insert_ne.
Qed.

Lemma version_hset (key : string) (mapping : gmap string string) (σ : world) :
  version key (hset key mapping σ) = S (version key σ).
Proof. unfold version at 1, hset. simpl. now rewrite lookup_insert_eq. Qed.

Lemma version_hset_ne (key key' : string) (mapping : gmap string string)
    (σ : world) :
  key <> key' -> version key' (hset key mapping σ) = version key' σ.
Proof.
  intros Hne. unfold version, hset. simpl. now rewrite lookup_insert_ne.
Qed.


Lemma exists_false (key : string) (σ : world) :
  exists_ key σ = false <-> redis_db σ !! key = None.
Proof.
  unfold exists_. rewrite bool_decide_eq_false, <- eq_None_not_Some. tauto.
Qed.

End RedisFacts.

(** ** Upload Session Manager *)

Section SessionManager.
Import Py Redis.

Variables (total_chunks : Z) (uuid4 : string) (σ : world).

Lemma init_upload_rejects :
  total_chunks < 1 ->
  init_upload total_chunks uuid4 σ = (mkResponse 400 None, σ).
Proof.
  intros Hlt. unfold init_upload.
  destruct (Z.ltb_spec total_chunks 1) as [_|Hge]; [reflexivity|lia].
Qed.

Lemma init_upload_creates :
  1 <= total_chunks ->
  init_upload total_chunks uuid4 σ =
    (mkResponse 201 (Some (new_session total_chunks uuid4 ∪ hgetall uuid4 σ)),
     hset uuid4 (new_session total_chunks uuid4) σ).
Proof.
  intros Hge. unfold init_upload.
  destruct (Z.ltb_spec total_chunks 1) as [Hlt|_]; [lia|].
  change (str 0) with "0". fold (new_session total_chunks uuid4).
  rewrite RedisFacts.hgetall_hset.
  rewrite bool_decide_eq_false_2; [reflexivity|].
  intros Hempty.
  assert (Hst : (new_session total_chunks uuid4 ∪ hgetall uuid4 σ) !! "status"
                = Some "Not Started").
  { apply lookup_union_Some_l. reflexivity. }
  rewrite Hempty, lookup_empty in Hst. discriminate.
Qed.

(** The other sessions, the chunk store, the queue and the catalog are
    left alone by [HSET]. *)
Lemma hset_frame (key : string) (mapping : gmap string string) :
  upload_dir (hset key mapping σ) = upload_dir σ /\
  merge_dir (hset key mapping σ) = merge_dir σ /\
  celery_queue (hset key mapping σ) = celery_queue σ /\
  movies_collection (hset key mapping σ) = movies_collection σ /\
  io_faults (hset key mapping σ) = io_faults σ.
Proof. repeat split. Qed.

End SessionManager.




(** ** Metadata Updater *)

Lemma update_redis_metadata_cases (file_id status : string) (σ : world) :
  update_redis_metadata file_id status σ = σ \/
  (file_id <> "" /\ Redis.hgetall file_id σ <> ∅ /\
   update_redis_metadata file_id status σ =
     Redis.hset file_id (<["status" := status]> (Redis.hgetall file_id σ)) σ).
Proof.
  unfold update_redis_metadata.
  destruct (String.eqb_spec file_id "") as [|Hne]; [now left|].
  destruct (bool_decide (Redis.hgetall file_id σ = ∅)) eqn:Hempty; [now left|].
  right. apply bool_decide_eq_false in Hempty. auto.
Qed.

Lemma update_redis_metadata_field (file_id status field : string) (σ : world) :
  field <> "status" ->
  Redis.hgetall file_id (update_redis_metadata file_id status σ) !! field =
  Redis.hgetall file_id σ !! field.
Proof.
  intros Hfield.
  destruct (update_redis_metadata_cases file_id status σ)
    as [->|(_ & _ & ->)]; [reflexivity|].
  rewrite RedisFacts.hgetall_hset, lookup_union, lookup_insert_ne by congruence.
  now destruct (Redis.hgetall file_id σ !! field).
Qed.

Lemma update_redis_metadata_other (file_id status key : string) (σ : world) :
  key <> file_id ->
  Redis.hgetall key (update_redis_metadata file_id status σ) = Redis.hgetall key σ.
Proof.
  intros Hkey.
  destruct (update_redis_metadata_cases file_id status σ)
    as [->|(_ & _ & ->)]; [reflexivity|].
  apply RedisFacts.hgetall_hset_ne. congruence.
Qed.

(** C10. [update_redis_metadata] changes only the [status] field: the
    [file_id], [total_chunks] and [chunks_uploaded] fields of the session
    record (and every field other than [status]) read the same after the
    call as before it, the other sessions are untouched, and for an existing
    record the [status] field then holds the given string. *)
Theorem update_redis_metadata_changes_only_status
    (file_id status : string) (σ : world) :
  let σ' := update_redis_metadata file_id status σ in
  Redis.hgetall file_id σ' !! "file_id" = Redis.hgetall file_id σ !! "file_id" /\
  Redis.hgetall file_id σ' !! "total_chunks"
    = Redis.hgetall file_id σ !! "total_chunks" /\
  Redis.hgetall file_id σ' !! "chunks_uploaded"
    = Redis.hgetall file_id σ !! "chunks_uploaded" /\
  (forall field, field <> "status" ->
     Redis.hgetall file_id σ' !! field = Redis.hgetall file_id σ !! field) /\
  (forall key, key <> file_id -> Redis.hgetall key σ' = Redis.hgetall key σ) /\
  (file_id <> "" -> Redis.hgetall file_id σ <> ∅ ->
     Redis.hgetall file_id σ' !! "status" = Some status).
Proof.
  cbv zeta. repeat split.
  - now apply update_redis_metadata_field.
  - now apply update_redis_metadata_field.
  - now apply update_redis_metadata_field.
  - intros field. apply update_redis_metadata_field.
  - intros key. apply update_redis_metadata_other.
  - intros Hid Hrec.
    destruct (update_redis_metadata_cases file_id status σ)
      as [Hsame|(_ & _ & ->)].
    + exfalso. revert Hsame. unfold update_redis_metadata.
      destruct (String.eqb_spec file_id ""); [congruence|].
      rewrite bool_decide_eq_false_2 by exact Hrec.
      intros Hsame. apply (f_equal (Redis.version file_id)) in Hsame.
      rewrite RedisFacts.version_hset in Hsame. lia.
    + rewrite RedisFacts.hgetall_hset. apply lookup_union_Some_l.
      apply lookup_insert_eq.
Qed.

(** A session of two chunks, just created, moved to [Completed]. *)
Lemma update_redis_metadata_changes_only_status_witness :
  let σ := snd (init_upload 2 "id" empty_world) in
  let σ' := update_redis_metadata "id" "Completed" σ in
  Redis.hgetall "id" σ' !! "chunks_uploaded" = Some "0" /\
  Redis.hgetall "id" σ' !! "status" = Some "Completed".
Proof.
  cbv zeta.
  destruct (update_redis_metadata_changes_only_status "id" "Completed"
              (snd (init_upload 2 "id" empty_world)))
    as (_ & _ & Hcount & _ & _ & Hstatus).
  split.
  - rewrite Hcount. reflexivity.
  - apply Hstatus; [discriminate|].
    intros Hempty.
    apply (f_equal (fun m : gmap string string => m !! "status")) in Hempty.
    vm_compute in Hempty. discriminate.
Defined.

(** ** Chunk Receiver *)

Section DirWrite.

Variables (name : string) (data : list Byte.byte).




End DirWrite.





(** An I/O call changes nothing but the fault script. *)
Lemma io_call_frame (σ σ' : world) (raised : bool) :
  io_call σ = (raised, σ') ->
  redis_db σ' = redis_db σ /\ redis_ver σ' = redis_ver σ /\
  upload_dir σ' = upload_dir σ /\ merge_dir σ' = merge_dir σ /\
  celery_queue σ' = celery_queue σ /\
  movies_collection σ' = movies_collection σ.
Proof.
  unfold io_call. destruct (io_faults σ); intros H; inversion H; subst;
    repeat split.
Qed.

Lemma receive_received (req : chunk_form) (σ : world) :
  received req σ (receive req σ).1 (receive req σ).2.
Proof.
  unfold receive.
  destruct req as [[file_id|] [chunk_id|] [file_chunk|]]; simpl;
    try (apply received_invalid; simpl; destruct_or?; auto;
         repeat match goal with |- context [Py.falsy (Some ?s)] => destruct s end;
         auto; fail).
  destruct (String.eqb_spec file_id "") as [->|Hf]; simpl;
    [apply received_invalid; simpl; auto|].
  destruct (String.eqb_spec chunk_id "") as [->|Hc]; simpl;
    [apply received_invalid; simpl; auto|].
  destruct (String.eqb_spec (filename file_chunk) "") as [Hn|Hn]; simpl;
    [apply received_invalid; simpl; rewrite Hn; auto|].
  destruct (Redis.exists_ file_id σ) eqn:Hex; simpl.
  - apply bool_decide_eq_true in Hex.
    destruct (io_call σ) as [[] σ1] eqn:Hio1; simpl.
    + eapply received_makedirs_failed; eauto.
    + destruct (io_call (makedirs file_id σ1)) as [[] σ3] eqn:Hio2; simpl.
      * eapply received_save_failed; eauto.
      * eapply received_stored; eauto.
  - apply RedisFacts.exists_false in Hex. eapply received_unknown; eauto.
Qed.

(** ** Completion Detector *)

Lemma chunks_uploaded_of_nonneg (σ : world) (file_id : string) (c : Z) :
  chunks_uploaded_of σ file_id = Some c -> 0 <= c.
Proof.
  unfold chunks_uploaded_of.
  destruct (Redis.hgetall file_id σ !! "chunks_uploaded") as [v|]; [|discriminate].
  destruct (Py.isdigit v); [|discriminate].
  intros H. inversion H. apply PyFacts.digits_value_nonneg.
Qed.

(** The dictionary a transaction is about to write carries the counter it
    read, plus one; the only other outcome of the read is a 500. *)
Lemma decide_completion_inv (file_id : string) (watched : nat) (σ : world) :
  match decide_completion file_id watched σ with
  | AtDelay f w md | AtExecute f w md =>
      f = file_id /\ w = watched /\
      exists c, chunks_uploaded_of σ file_id = Some c /\
                md !! "chunks_uploaded" = Some (Py.VInt (c + 1))
  | Returned 500 => True
  | _ => False
  end.
Proof.
  unfold decide_completion, chunks_uploaded_of.
  rewrite lookup_fmap.
  destruct (Redis.hgetall file_id σ !! "chunks_uploaded") as [v|] eqn:Hv;
    simpl; [|exact I].
  unfold Py.coerce at 1.
  destruct (Py.isdigit v) eqn:Hdigit; [|exact I].
  destruct (_ !! "total_chunks") as [total|]; [|exact I].
  destruct total as [y|t]; simpl;
    [destruct (Py.digits_value v + 1 =? y)|];
    (split; [reflexivity|]); (split; [reflexivity|]);
    eexists; (split; [reflexivity|]).
  - rewrite lookup_insert_ne by discriminate. apply lookup_insert_eq.
  - apply lookup_insert_eq.
  - apply lookup_insert_eq.
Qed.

(** Committing such a dictionary moves the counter to the value it holds. *)
Lemma chunks_uploaded_of_commit (file_id : string) (md : gmap string Py.value)
    (σ : world) (c : Z) :
  0 <= c ->
  md !! "chunks_uploaded" = Some (Py.VInt (c + 1)) ->
  chunks_uploaded_of (Redis.hset file_id (Py.str_value <$> md) σ) file_id
  = Some (c + 1).
Proof.
  intros Hc Hmd. unfold chunks_uploaded_of.
  rewrite RedisFacts.hgetall_hset.
  erewrite lookup_union_Some_l by (rewrite lookup_fmap, Hmd; reflexivity).
  simpl. rewrite PyFacts.isdigit_str, PyFacts.digits_value_str by lia.
  reflexivity.
Qed.

Lemma chunks_uploaded_of_hset_ne (key file_id : string)
    (mapping : gmap string string) (σ : world) :
  key <> file_id ->
  chunks_uploaded_of (Redis.hset key mapping σ) file_id
  = chunks_uploaded_of σ file_id.
Proof.
  intros Hne. unfold chunks_uploaded_of.
  now rewrite RedisFacts.hgetall_hset_ne.
Qed.

(** Storing a chunk does not touch Redis. *)
Lemma receive_redis (req : chunk_form) (σ : world) :
  redis_db (receive req σ).2 = redis_db σ /\
  redis_ver (receive req σ).2 = redis_ver σ.
Proof.
  destruct (receive_received req σ)
    as [ | | ? ? ? ? ? ? Hio | ? ? ? ? ? ? ? Hio1 Hio2 | ? ? ? ? ? ? ? Hio1 Hio2 ];
    auto.
  - apply io_call_frame in Hio. tauto.
  - apply io_call_frame in Hio1, Hio2.
    destruct Hio1 as (Hdb1 & Hver1 & _), Hio2 as (Hdb2 & Hver2 & _).
    rewrite Hdb2, Hver2, <- Hdb1, <- Hver1.
    unfold makedirs. now destruct (upload_dir σ1 !! file_id).
  - apply io_call_frame in Hio1, Hio2.
    destruct Hio1 as (Hdb1 & Hver1 & _), Hio2 as (Hdb2 & Hver2 & _).
    unfold save. simpl. rewrite Hdb2, Hver2, <- Hdb1, <- Hver1.
    unfold makedirs. now destruct (upload_dir σ1 !! file_id).
Qed.

(** A command either leaves Redis as it is, or is the commit of a
    transaction whose key was not modified since it was watched. *)
Lemma request_step_effect (r : request) (σ : world) :
  (redis_db (request_step r σ).2 = redis_db σ /\
   redis_ver (request_step r σ).2 = redis_ver σ) \/
  (exists f md,
     at_point r = AtExecute f (Redis.version f σ) md /\
     request_step r σ =
       (mkRequest (form r) (Returned 201) (attempts r),
        Redis.hset f (Py.str_value <$> md) σ)).
Proof.
  unfold request_step.
  destruct (at_point r) as [|f|f w|f w md|f w md|code] eqn:Hat; simpl; auto.
  - left. destruct (receive (form r) σ) as [p σ'] eqn:Hrec.
    pose proof (receive_redis (form r) σ) as Hred. rewrite Hrec in Hred.
    exact Hred.
  - destruct (Nat.eqb_spec (Redis.version f σ) w) as [<-|Hne]; simpl; eauto.
Qed.

Lemma consistent_ext (σ σ' : world) (r : request) :
  redis_db σ' = redis_db σ -> redis_ver σ' = redis_ver σ ->
  consistent σ r -> consistent σ' r.
Proof.
  intros Hdb Hver. unfold consistent, chunks_uploaded_of, Redis.version,
    Redis.hgetall. now rewrite Hdb, Hver.
Qed.

Lemma chunks_uploaded_of_ext (σ σ' : world) (file_id : string) :
  redis_db σ' = redis_db σ ->
  chunks_uploaded_of σ' file_id = chunks_uploaded_of σ file_id.
Proof.
  intros Hdb. unfold chunks_uploaded_of, Redis.hgetall. now rewrite Hdb.
Qed.

(** A commit on a key invalidates the other transactions on that key and
    does not concern those on other keys. *)
Lemma consistent_commit (σ : world) (f : string) (mapping : gmap string string)
    (r : request) :
  consistent σ r -> consistent (Redis.hset f mapping σ) r.
Proof.
  unfold consistent.
  destruct (at_point r) as [|f'|f' w|f' w md|f' w md|code]; auto;
    (destruct (decide (f = f')) as [<-|Hne];
     [rewrite RedisFacts.version_hset
     |rewrite RedisFacts.version_hset_ne, ?chunks_uploaded_of_hset_ne by exact Hne]);
    try lia; tauto.
Qed.

(** The request that took the step is consistent with the new world. *)
Lemma request_step_consistent (r : request) (σ : world) :
  consistent σ r ->
  consistent (request_step r σ).2 (request_step r σ).1.
Proof.
  intros Hr. unfold request_step.
  destruct (at_point r) as [|f|f w|f w md|f w md|code] eqn:Hat; simpl.
  - pose proof (receive_received (form r) σ) as Hrec.
    destruct (receive (form r) σ) as [p σ']. simpl in *.
    unfold consistent. simpl. now destruct Hrec.
  - unfold consistent. simpl. lia.
  - unfold consistent in *. rewrite Hat in Hr. simpl.
    pose proof (decide_completion_inv f w σ) as Hinv.
    destruct (decide_completion f w σ) as [| | |f' w' md|f' w' md|code];
      try exact I; try contradiction.
    + destruct Hinv as (-> & -> & Hc). auto.
    + destruct Hinv as (-> & -> & Hc). auto.
  - unfold consistent in *. rewrite Hat in Hr. simpl. exact Hr.
  - destruct (Nat.eqb_spec (Redis.version f σ) w); exact I.
  - unfold consistent. now rewrite Hat.
Qed.

Lemma system_step_invariant (s : system) (i : nat) :
  invariant s -> invariant (system_step s i).
Proof.
  unfold invariant, system_step. intros Hinv.
  destruct (pool s !! i) as [r|] eqn:Hi; [|exact Hinv].
  assert (Hr : consistent (env s) r).
  { rewrite Forall_lookup in Hinv. eapply Hinv, Hi. }
  pose proof (request_step_consistent r (env s) Hr) as Hr'.
  pose proof (request_step_effect r (env s)) as Heffect.
  destruct (request_step r (env s)) as [r' σ'] eqn:Hstep. simpl in *.
  apply Forall_insert; [|exact Hr'].
  destruct Heffect as [[Hdb Hver]|(f & md & _ & Heq)].
  - eapply Forall_impl; [exact Hinv|]. intros q. now apply consistent_ext.
  - inversion Heq; subst.
    eapply Forall_impl; [exact Hinv|]. intros q. apply consistent_commit.
Qed.




Lemma fresh_invariant (σ : world) (reqs : list chunk_form) :
  invariant (mkSystem σ (fresh <$> reqs)).
Proof.
  unfold invariant. simpl. apply Forall_fmap, Forall_true. intros req. exact I.
Qed.

Lemma run_app (schedule1 schedule2 : list nat) (s : system) :
  run (schedule1 ++ schedule2) s = run schedule2 (run schedule1 s).
Proof. apply fold_left_app. Qed.

(** A request served alone: the chunk is stored, then the transaction
    commits at its first attempt. *)
Lemma create_chunk_alone (req : chunk_form) (σ : world) :
  match receive req σ with
  | (AtWatch f, σ1) =>
      match decide_completion f (Redis.version f σ1) σ1 with
      | AtDelay _ _ md =>
          create_chunk req σ =
            (Returned 201,
             Redis.hset f (Py.str_value <$> md)
               (set_celery_queue (celery_queue σ1 ++ [f]) σ1))
      | AtExecute _ _ md =>
          create_chunk req σ =
            (Returned 201, Redis.hset f (Py.str_value <$> md) σ1)
      | p => create_chunk req σ = (p, σ1)
      end
  | (p, σ1) => create_chunk req σ = (p, σ1)
  end.
Proof.
  pose proof (receive_received req σ) as Hrec.
  unfold create_chunk, fresh. cbn [serve at_point request_step form attempts].
  destruct (receive req σ) as [p σ1]. simpl in Hrec.
  destruct Hrec; try reflexivity.
  cbn [serve at_point request_step form attempts].
  pose proof (decide_completion_inv file_id
                (Redis.version file_id (save file_id chunk_id (stream file_chunk) σ3))
                (save file_id chunk_id (stream file_chunk) σ3)) as Hinv.
  destruct (decide_completion _ _ _) as [| | |f' w' md|f' w' md|code];
    try contradiction.
  - destruct Hinv as (-> & -> & _).
    cbn [serve at_point request_step form attempts].
    change (Redis.version file_id (set_celery_queue ?q ?w))
      with (Redis.version file_id w).
    now rewrite Nat.eqb_refl.
  - destruct Hinv as (-> & -> & _).
    cbn [serve at_point request_step form attempts].
    now rewrite Nat.eqb_refl.
  - reflexivity.
Qed.

(** Served alone, a request always returns. *)
Lemma create_chunk_returns (req : chunk_form) (σ : world) :
  exists code, (create_chunk req σ).1 = Returned code.
Proof.
  pose proof (create_chunk_alone req σ) as Halone.
  pose proof (receive_received req σ) as Hrec.
  destruct (receive req σ) as [p σ1]. cbn [fst snd] in Hrec.
  destruct Hrec; try (rewrite Halone; eauto; fail).
  pose proof (decide_completion_inv file_id
                (Redis.version file_id (save file_id chunk_id (stream file_chunk) σ3))
                (save file_id chunk_id (stream file_chunk) σ3)) as Hinv.
  destruct (decide_completion _ _ _); try contradiction;
    rewrite Halone; eauto.
Qed.

Lemma blob_ext (σ σ' : world) (f c : string) :
  upload_dir σ' = upload_dir σ -> blob σ' f c = blob σ f c.
Proof. unfold blob. now intros ->. Qed.








(** ** The retry loop under contention *)

Lemma system_step_at (s : system) (i : nat) (r r' : request) (σ' : world) :
  pool s !! i = Some r ->
  request_step r (env s) = (r', σ') ->
  system_step s i = mkSystem σ' (<[i := r']> (pool s)).
Proof. intros Hi Hstep. unfold system_step. now rewrite Hi, Hstep. Qed.

(** A read that finds the counter at [c] and more than [c + 1] chunks
    expected leads to a commit of [c + 1], with no job submitted. *)
Lemma decide_completion_pending (file_id : string) (watched : nat) (σ : world)
    (c total : Z) :
  0 <= c -> 0 <= total -> c + 1 <> total ->
  Redis.hgetall file_id σ !! "chunks_uploaded" = Some (Py.str c) ->
  Redis.hgetall file_id σ !! "total_chunks" = Some (Py.str total) ->
  decide_completion file_id watched σ =
    AtExecute file_id watched
      (<["chunks_uploaded" := Py.VInt (c + 1)]>
         (Py.coerce <$> Redis.hgetall file_id σ)).
Proof.
  intros Hc Ht Hne Hcount Htotal. unfold decide_completion.
  rewrite lookup_fmap, Hcount. simpl. rewrite PyFacts.coerce_str by exact Hc.
  rewrite lookup_insert_ne by discriminate.
  rewrite lookup_fmap, Htotal. simpl. rewrite PyFacts.coerce_str by exact Ht.
  simpl. destruct (Z.eqb_spec (c + 1) total); [contradiction|reflexivity].
Qed.

(** The record after the commit of such a dictionary. *)
Lemma hgetall_commit_pending (file_id : string) (σ : world) (c total : Z) :
  0 <= c -> 0 <= total ->
  Redis.hgetall file_id σ !! "total_chunks" = Some (Py.str total) ->
  let σ' :=
    Redis.hset file_id
      (Py.str_value <$> <["chunks_uploaded" := Py.VInt (c + 1)]>
                          (Py.coerce <$> Redis.hgetall file_id σ)) σ in
  Redis.hgetall file_id σ' !! "chunks_uploaded" = Some (Py.str (c + 1)) /\
  Redis.hgetall file_id σ' !! "total_chunks" = Some (Py.str total).
Proof.
  intros Hc Ht Htotal σ'. subst σ'. rewrite RedisFacts.hgetall_hset. split.
  - apply lookup_union_Some_l.
    now rewrite lookup_fmap, lookup_insert_eq.
  - apply lookup_union_Some_l.
    rewrite lookup_fmap, lookup_insert_ne by discriminate.
    rewrite lookup_fmap, Htotal. simpl.
    now rewrite PyFacts.coerce_str by exact Ht.
Qed.

(** With no failure ahead, a well-formed upload to an existing session is
    stored and reaches the transaction. *)
Lemma receive_stores (file_id chunk_id : string) (file_chunk : FileStorage)
    (σ : world) :
  file_id <> "" -> chunk_id <> "" -> filename file_chunk <> "" ->
  is_Some (redis_db σ !! file_id) ->
  io_faults σ = [] ->
  receive (mkForm (Some file_id) (Some chunk_id) (Some file_chunk)) σ =
    (AtWatch file_id,
     save file_id chunk_id (stream file_chunk) (makedirs file_id σ)).
Proof.
  intros Hf Hc Hn Hsome Hfaults. unfold receive. simpl.
  apply String.eqb_neq in Hf, Hc, Hn. rewrite Hf, Hc, Hn. simpl.
  unfold Redis.exists_. rewrite bool_decide_eq_true_2 by exact Hsome. simpl.
  assert (Hio : forall w, io_faults w = [] -> io_call w = (false, w)).
  { intros w Hw. unfold io_call. now rewrite Hw. }
  rewrite (Hio σ Hfaults).
  rewrite (Hio (makedirs file_id σ)); [reflexivity|].
  unfold makedirs. now destruct (upload_dir σ !! file_id).
Qed.

Lemma hgetall_store_frame (key file_id chunk_id : string) (data : list Byte.byte)
    (σ : world) :
  Redis.hgetall key (save file_id chunk_id data (makedirs file_id σ))
    = Redis.hgetall key σ /\
  Redis.version key (save file_id chunk_id data (makedirs file_id σ))
    = Redis.version key σ /\
  io_faults (save file_id chunk_id data (makedirs file_id σ)) = io_faults σ.
Proof.
  unfold Redis.hgetall, Redis.version, save, makedirs.
  destruct (upload_dir σ !! file_id); repeat split.
Qed.

Lemma hgetall_is_Some (key field v : string) (σ : world) :
  Redis.hgetall key σ !! field = Some v -> is_Some (redis_db σ !! key).
Proof.
  unfold Redis.hgetall. destruct (redis_db σ !! key); [eauto|].
  simpl. now rewrite lookup_empty.
Qed.

(** The first command of a schedule, taken by a request whose state is
    known. *)
Ltac head_step :=
  match goal with
  | |- context [run (?i :: ?rest) ?s] =>
      change (run (i :: rest) s) with (run rest (system_step s i));
      erewrite (system_step_at s i)
  end.

Lemma contended_round_between (n k : nat) (s : system) :
  between_rounds n k s -> (k < n)%nat ->
  between_rounds n (S k) (run (contended_round (S k)) s).
Proof.
  intros [Hcount Htotal Hfaults Hfirst Hothers] Hlt.
  destruct s as [σ requests]. cbn [env pool] in *.
  set (v := Redis.version "id" σ).
  set (md := <["chunks_uploaded" := Py.VInt (Z.of_nat k + 1)]>
               (Py.coerce <$> Redis.hgetall "id" σ)).
  set (σ3 := save "id" "1" (list_byte_of_string "x") (makedirs "id" σ)).
  destruct (hgetall_store_frame "id" "id" "1" (list_byte_of_string "x") σ)
    as (Hget3 & Hver3 & Hfaults3). fold σ3 in Hget3, Hver3, Hfaults3.
  assert (Hlen0 : (0 < length requests)%nat) by (eapply lookup_lt_Some, Hfirst).
  assert (Hk : requests !! S k = Some (fresh (chunk_of "id" "1" "x")))
    by (apply Hothers; lia).
  assert (Hlenk : (S k < length requests)%nat) by (eapply lookup_lt_Some, Hk).
  assert (Hdecide : forall w,
            decide_completion "id" w σ = AtExecute "id" w md).
  { intros w. apply (decide_completion_pending "id" w σ (Z.of_nat k)
                       (Z.of_nat n + 2)); auto; lia. }
  assert (Hdecide3 : forall w,
            decide_completion "id" w σ3 = AtExecute "id" w md).
  { intros w. unfold md. rewrite <- Hget3.
    apply (decide_completion_pending "id" w σ3 (Z.of_nat k)
             (Z.of_nat n + 2)); try lia; now rewrite Hget3. }
  assert (Hreceive : receive (chunk_of "id" "1" "x") σ = (AtWatch "id", σ3)).
  { apply receive_stores; try discriminate; [|exact Hfaults].
    eapply hgetall_is_Some, Hcount. }
  unfold contended_round.
  (* request 0: WATCH, HGETALL *)
  head_step; [|exact Hfirst|reflexivity].
  head_step; [|cbn [pool]; now apply list_lookup_insert_eq|reflexivity].
  cbn [env pool form attempts]. rewrite list_insert_insert_eq, Hdecide.
  (* request k+1: storage, WATCH, HGETALL, EXEC *)
  head_step;
    [|cbn [pool]; rewrite list_lookup_insert_ne by lia; exact Hk
     |cbn [request_step at_point fresh env form attempts];
      rewrite Hreceive; reflexivity].
  head_step;
    [|cbn [pool]; apply list_lookup_insert_eq; now rewrite length_insert
     |reflexivity].
  cbn [env pool form attempts]. rewrite list_insert_insert_eq.
  head_step;
    [|cbn [pool]; apply list_lookup_insert_eq; now rewrite length_insert
     |reflexivity].
  cbn [env pool form attempts]. rewrite list_insert_insert_eq, Hdecide3.
  head_step;
    [|cbn [pool]; apply list_lookup_insert_eq; now rewrite length_insert
     |cbn [request_step at_point env form attempts];
      rewrite Nat.eqb_refl; reflexivity].
  cbn [env pool form attempts]. rewrite list_insert_insert_eq.
  (* request 0: EXEC is rejected *)
  head_step;
    [|cbn [pool]; rewrite list_lookup_insert_ne by lia;
      now apply list_lookup_insert_eq
     |cbn [request_step at_point env form attempts];
      rewrite RedisFacts.version_hset, Hver3;
      rewrite (proj2 (Nat.eqb_neq _ _)) by (subst v; lia); reflexivity].
  cbn [run fold_left env pool form attempts].
  destruct (hgetall_commit_pending "id" σ3 (Z.of_nat k) (Z.of_nat n + 2))
    as [Hcount' Htotal']; [lia|lia|now rewrite Hget3|].
  rewrite Hget3 in Hcount', Htotal'. fold md in Hcount', Htotal'.
  split; cbn [env pool].
  - rewrite Hcount'. do 2 f_equal. lia.
  - exact Htotal'.
  - now rewrite <- Hfaults, <- Hfaults3.
  - apply list_lookup_insert_eq. now rewrite !length_insert.
  - intros j Hj. rewrite !list_lookup_insert_ne by lia. apply Hothers. lia.
Qed.

Lemma contended_rounds_between (n m k : nat) (s : system) :
  between_rounds n k s -> (k + m <= n)%nat ->
  between_rounds n (k + m) (run (flat_map contended_round (seq (S k) m)) s).
Proof.
  revert k s. induction m as [|m IH]; intros k s Hs Hle.
  - now rewrite Nat.add_0_r.
  - cbn [seq flat_map]. rewrite run_app.
    replace (k + S m)%nat with (S k + m)%nat by lia.
    apply IH; [|lia]. apply contended_round_between; [exact Hs|lia].
Qed.

Lemma contended_start (n : nat) :
  between_rounds n 0 (system_step (contended n) 0).
Proof.
  unfold contended, session_world.
  rewrite init_upload_creates by lia. cbn [snd].
  set (σ := Redis.hset "id" (new_session (Z.of_nat n + 2) "id") empty_world).
  assert (Hget : Redis.hgetall "id" σ = new_session (Z.of_nat n + 2) "id").
  { unfold σ. rewrite RedisFacts.hgetall_hset. apply map_union_empty. }
  set (σ3 := save "id" "0" (list_byte_of_string "a") (makedirs "id" σ)).
  destruct (hgetall_store_frame "id" "id" "0" (list_byte_of_string "a") σ)
    as (Hget3 & _ & Hfaults3). fold σ3 in Hget3, Hfaults3.
  assert (Hreceive : receive (chunk_of "id" "0" "a") σ = (AtWatch "id", σ3)).
  { apply receive_stores; try discriminate; [|reflexivity].
    unfold σ, Redis.hset. cbn [redis_db set_redis].
    rewrite lookup_insert_eq. eauto. }
  erewrite system_step_at;
    [|reflexivity
     |cbn [request_step at_point fresh env form attempts];
      rewrite Hreceive; reflexivity].
  split; cbn [env pool].
  - now rewrite Hget3, Hget.
  - now rewrite Hget3, Hget.
  - now rewrite Hfaults3.
  - reflexivity.
  - intros j Hj. destruct j as [|j]; [lia|]. cbn.
    apply lookup_replicate_2. lia.
Qed.

Lemma contended_finish (n : nat) (s : system) :
  between_rounds n n s ->
  pool (run [0; 0; 0]%nat s) !! 0%nat
  = Some (mkRequest (chunk_of "id" "0" "a") (Returned 201) (S n)).
Proof.
  intros [Hcount Htotal Hfaults Hfirst Hothers].
  destruct s as [σ requests]. cbn [env pool] in *.
  assert (Hlen0 : (0 < length requests)%nat) by (eapply lookup_lt_Some, Hfirst).
  head_step; [|exact Hfirst|reflexivity].
  head_step; [|cbn [pool]; now apply list_lookup_insert_eq|reflexivity].
  cbn [env pool form attempts]. rewrite list_insert_insert_eq.
  rewrite (decide_completion_pending "id" _ σ (Z.of_nat n) (Z.of_nat n + 2))
    by (auto; lia).
  head_step;
    [|cbn [pool]; now apply list_lookup_insert_eq
     |cbn [request_step at_point env form attempts];
      rewrite Nat.eqb_refl; reflexivity].
  cbn [run fold_left env pool form attempts].
  apply list_lookup_insert_eq. now rewrite length_insert.
Qed.

Lemma contended_run (n : nat) :
  pool (run (contended_schedule n) (contended n)) !! 0%nat
  = Some (mkRequest (chunk_of "id" "0" "a") (Returned 201) (S n)).
Proof.
  unfold contended_schedule. rewrite run_app.
  apply contended_finish.
  change (run (0%nat :: ?l) ?s) with (run l (system_step s 0)).
  apply (contended_rounds_between n n 0); [apply contended_start|lia].
Qed.

(** C2 (amended). The retry loop of [create_chunk] has no bound and no
    backoff: a commit rejected because the key was modified leads straight
    back to [WATCH], with nothing returned to the caller, and the next
    attempt starts from a fresh read; for every [n] there is a burst of [n]
    duplicate uploads under which a request enters the loop [n + 1] times
    before it answers 201.  No answer stands for exhausted retries. *)
Theorem retry_loop_unbounded :
  (forall (r : request) (σ : world) file_id watched file_metadata,
     at_point r = AtExecute file_id watched file_metadata ->
     Redis.version file_id σ <> watched ->
     request_step r σ = (mkRequest (form r) (AtWatch file_id) (attempts r), σ)) /\
  (forall (r : request) (σ : world) file_id,
     at_point r = AtWatch file_id ->
     request_step r σ =
       (mkRequest (form r) (AtHgetall file_id (Redis.version file_id σ))
                  (S (attempts r)), σ)) /\
  (forall n,
     attempts_of (run (contended_schedule n) (contended n)) 0 = S n /\
     answer_of (run (contended_schedule n) (contended n)) 0 = Some 201%nat).
Proof.
  split; [|split].
  - intros r σ file_id watched file_metadata Hat Hne.
    unfold request_step. rewrite Hat.
    now rewrite (proj2 (Nat.eqb_neq _ _)) by exact Hne.
  - intros r σ file_id Hat. unfold request_step. now rewrite Hat.
  - intros n. unfold attempts_of, answer_of. now rewrite contended_run.
Qed.

(** A transaction whose key was modified after it watched it. *)
Lemma retry_loop_unbounded_witness :
  request_step (mkRequest (chunk_of "id" "0" "a") (AtExecute "id" 0 ∅) 1)
               (session_world 2)
  = (mkRequest (chunk_of "id" "0" "a") (AtWatch "id") 1, session_world 2) /\
  attempts_of (run (contended_schedule 3) (contended 3)) 0 = 4%nat.
Proof.
  destruct retry_loop_unbounded as (Hretry & _ & Hburst). split.
  - apply (Hretry (mkRequest (chunk_of "id" "0" "a") (AtExecute "id" 0 ∅) 1)
                  (session_world 2) "id" 0%nat ∅); [reflexivity|].
    vm_compute. lia.
  - apply (Hburst 3%nat).
Defined.

(** C2, as stated, fails: no number bounds the attempts of a request. *)
Lemma retry_loop_has_no_bound :
  ~ exists bound : nat,
      forall n, (attempts_of (run (contended_schedule n) (contended n)) 0
                 <= bound)%nat.
Proof.
  intros [bound Hbound]. specialize (Hbound bound).
  unfold attempts_of in Hbound. rewrite contended_run in Hbound.
  simpl in Hbound. lia.
Qed.

(** ** Exactly-once submission of the pipeline job *)

(** C1 (the code departs from it). Two uploads race on a session of one
    chunk: each reads the counter at 0, each finds the session complete and
    submits the job before it commits.  The commit of the second is rejected
    when its job is already in the queue; its retry commits
    [chunks_uploaded = 2].  Both uploads are answered 201 and the session has
    two jobs in the queue. *)
Theorem race_submits_two_jobs :
  let rejected := run (firstn 10 race_schedule) race in
  let final := run race_schedule race in
  celery_queue (env rejected) = ["id"; "id"] /\
  at_point <$> pool rejected !! 1%nat = Some (AtWatch "id") /\
  chunks_uploaded_of (env rejected) "id" = Some 1 /\
  celery_queue (env final) = ["id"; "id"] /\
  answer_of final 0 = Some 201%nat /\
  answer_of final 1 = Some 201%nat /\
  attempts_of final 1 = 2%nat /\
  chunks_uploaded_of (env final) "id" = Some 2 /\
  total_chunks_of (env final) "id" = Some 1.
Proof. cbv zeta. repeat split; vm_compute; reflexivity. Qed.

(** The same defect with a single upload: the job it submitted runs to the
    end, and sets the status, before the upload commits; the commit is
    rejected and the retry submits the job a second time. *)
Lemma single_upload_submits_two_jobs :
  let pipeline :=
    process_chunks (fun _ => None) 10 (fun _ _ => ([], false)) in
  let '(r, σ) := overtaken pipeline in
  at_point r = Returned 201 /\
  attempts r = 2%nat /\
  celery_queue σ = ["id"; "id"] /\
  chunks_uploaded_of σ "id" = Some 1.
Proof. vm_compute. repeat split. Qed.

(** ** Merge Worker *)

Section Sorting.

Context {A : Type} (key : A -> Z).

Lemma insert_by_perm (x : A) (l : list A) :
  Permutation (insert_by key x l) (x :: l).
Proof.
  induction l as [|y l IH]; simpl; [reflexivity|].
  destruct (key x <=? key y); [reflexivity|].
  rewrite IH. apply perm_swap.
Qed.

Lemma sorted_perm (l : list A) : Permutation (sorted key l) l.
Proof.
  induction l as [|x l IH]; simpl; [reflexivity|].
  rewrite insert_by_perm. now apply perm_skip.
Qed.

Lemma insert_by_sorted (x : A) (l : list A) :
  StronglySorted (ascending key) l -> StronglySorted (ascending key) (insert_by key x l).
Proof.
  induction 1 as [|y l Hl IH Hy]; simpl.
  - repeat constructor.
  - destruct (Z.leb_spec (key x) (key y)) as [Hle|Hgt].
    + constructor; [now constructor|].
      constructor; [exact Hle|].
      eapply Forall_impl; [exact Hy|]. unfold ascending. intros z Hz. lia.
    + constructor; [exact IH|].
      rewrite insert_by_perm. constructor; [unfold ascending; lia|exact Hy].
Qed.

Lemma sorted_sorted (l : list A) : StronglySorted (ascending key) (sorted key l).
Proof.
  induction l as [|x l IH]; simpl; [constructor|].
  now apply insert_by_sorted.
Qed.

(** Two sorted arrangements of the same elements coincide when no two
    elements have the same key. *)
Lemma sorted_arrangement_unique (l1 l2 : list A) :
  StronglySorted (ascending key) l1 -> StronglySorted (ascending key) l2 ->
  Permutation l1 l2 ->
  (forall a b, In a l1 -> In b l1 -> key a = key b -> a = b) ->
  l1 = l2.
Proof.
  intros Hs1. revert l2.
  induction Hs1 as [|a l1 Hs1 IH Ha]; intros l2 Hs2 Hperm Hinj.
  - now apply Permutation_nil in Hperm.
  - destruct l2 as [|b l2];
      [apply Permutation_sym, Permutation_nil in Hperm; discriminate|].
    inversion Hs2 as [|? ? Hs2' Hb]; subst.
    assert (Hab : a = b).
    { assert (Hina : In a (b :: l2))
        by (eapply Permutation_in; [exact Hperm|now left]).
      assert (Hinb : In b (a :: l1))
        by (eapply Permutation_in;
            [apply Permutation_sym, Hperm|now left]).
      destruct Hina as [->|Hina]; [reflexivity|].
      destruct Hinb as [->|Hinb]; [reflexivity|].
      rewrite Forall_forall in Ha, Hb.
      apply list_elem_of_In in Hina, Hinb.
      specialize (Ha b Hinb). specialize (Hb a Hina). unfold ascending in *.
      apply list_elem_of_In in Hina, Hinb.
      apply Hinj; [now left|now right|lia]. }
    subst b. f_equal. apply IH.
    + exact Hs2'.
    + eapply Permutation_cons_inv, Hperm.
    + intros x y Hx Hy. apply Hinj; now right.
Qed.

Lemma NoDup_key_inj (l : list A) :
  NoDup (key <$> l) ->
  forall a b, In a l -> In b l -> key a = key b -> a = b.
Proof.
  induction l as [|x l IH]; intros Hnd a b Ha Hb Hkey; [contradiction|].
  rewrite fmap_cons in Hnd. apply NoDup_cons in Hnd as [Hx Hnd].
  destruct Ha as [->|Ha], Hb as [->|Hb]; auto.
  - exfalso. apply Hx. rewrite Hkey. apply list_elem_of_In.
    now apply in_map.
  - exfalso. apply Hx. rewrite <- Hkey. apply list_elem_of_In.
    now apply in_map.
Qed.

(** With pairwise distinct keys the result of the sort does not depend on
    the order of its input. *)
Lemma sorted_order_independent (l l' : list A) :
  Permutation l' l -> NoDup (key <$> l) -> sorted key l' = sorted key l.
Proof.
  intros Hperm Hnd.
  apply sorted_arrangement_unique; try apply sorted_sorted.
  - now rewrite !sorted_perm.
  - intros a b Ha Hb. apply (NoDup_key_inj l Hnd);
      (eapply Permutation_in; [|eassumption]);
      now rewrite sorted_perm, Hperm.
Qed.

End Sorting.

Lemma insert_by_fmap {A B : Type} (f : A -> B) (key : B -> Z) (x : A)
    (l : list A) :
  insert_by key (f x) (f <$> l) = f <$> insert_by (key ∘ f) x l.
Proof.
  induction l as [|y l IH]; [reflexivity|].
  rewrite fmap_cons. cbn [insert_by].
  change ((key ∘ f) x) with (key (f x)). change ((key ∘ f) y) with (key (f y)).
  destruct (key (f x) <=? key (f y)); [reflexivity|].
  now rewrite fmap_cons, IH.
Qed.

Lemma sorted_fmap {A B : Type} (f : A -> B) (key : B -> Z) (l : list A) :
  sorted key (f <$> l) = f <$> sorted (key ∘ f) l.
Proof.
  induction l as [|x l IH]; [reflexivity|].
  rewrite fmap_cons. unfold sorted in *. cbn [foldr].
  rewrite IH. apply insert_by_fmap.
Qed.

Lemma same_services_refl (σ : world) : same_services σ σ.
Proof. repeat split. Qed.

Lemma same_services_trans (σ1 σ2 σ3 : world) :
  same_services σ1 σ2 -> same_services σ2 σ3 -> same_services σ1 σ3.
Proof.
  unfold same_services. intros (-> & -> & -> & ->) (-> & -> & -> & ->).
  repeat split.
Qed.

Lemma io_call_same_services (σ σ' : world) (raised : bool) :
  io_call σ = (raised, σ') -> same_services σ σ'.
Proof. intros H. apply io_call_frame in H. unfold same_services. tauto. Qed.

Lemma payloads_ext (σ σ' : world) (file_id : string) (names : list string) :
  upload_dir σ' = upload_dir σ -> payloads σ' file_id names = payloads σ file_id names.
Proof.
  intros Hup. unfold payloads. f_equal. apply map_ext. intros name.
  now rewrite (blob_ext _ _ file_id name Hup).
Qed.

(** The concatenation loop: it never touches the chunks, and what it leaves
    in the output is the payloads of the chunks it went through, in order. *)
Lemma write_chunks_spec (file_id : string) (names : list string) :
  forall (σ σ' : world) (ok : bool) (old : list Byte.byte),
    merge_dir σ !! output_file file_id = Some old ->
    write_chunks file_id names σ = (ok, σ') ->
    same_services σ σ' /\ upload_dir σ' = upload_dir σ /\
    exists done rest,
      names = (done ++ rest)%list /\ (ok = true -> rest = []) /\
      merge_dir σ' =
        <[output_file file_id := (old ++ payloads σ file_id done)%list]>
          (merge_dir σ).
Proof.
  induction names as [|name names IH]; intros σ σ' ok old Hold Hrun;
    cbn [write_chunks] in Hrun.
  - inversion Hrun; subst. split; [apply same_services_refl|].
    split; [reflexivity|]. exists [], []. repeat split.
    unfold payloads. simpl. rewrite app_nil_r. symmetry. now apply insert_id.
  - destruct (io_call σ) as [raised σ1] eqn:Hio.
    pose proof (io_call_same_services _ _ _ Hio) as Hsame1.
    apply io_call_frame in Hio as (_ & _ & Hup1 & Hmerge1 & _).
    assert (Hstop : (ok, σ') = (false, σ1) ->
              same_services σ σ' /\ upload_dir σ' = upload_dir σ /\
              exists done rest,
                name :: names = (done ++ rest)%list /\ (ok = true -> rest = []) /\
                merge_dir σ' =
                  <[output_file file_id := (old ++ payloads σ file_id done)%list]>
                    (merge_dir σ)).
    { intros Heq. inversion Heq; subst. split; [exact Hsame1|].
      split; [exact Hup1|]. exists [], (name :: names).
      split; [reflexivity|]. split; [discriminate|].
      unfold payloads. simpl. rewrite app_nil_r, Hmerge1.
      symmetry. now apply insert_id. }
    destruct raised; [now apply Hstop|].
    destruct (blob σ1 file_id name) as [data|] eqn:Hblob; [|now apply Hstop].
    clear Hstop.
    set (σ2 := write_output (output_file file_id) data σ1) in Hrun.
    assert (Hold2 : merge_dir σ2 !! output_file file_id = Some (old ++ data)%list).
    { unfold σ2, write_output. cbn [merge_dir set_merge_dir].
      rewrite lookup_insert_eq, Hmerge1, Hold. reflexivity. }
    destruct (IH σ2 σ' ok _ Hold2 Hrun)
      as (Hsame & Hup & done & rest & -> & Hok & Hmerge).
    split.
    { eapply same_services_trans; [exact Hsame1|].
      unfold same_services in *. exact Hsame. }
    split; [now rewrite Hup|].
    exists (name :: done), rest. split; [reflexivity|]. split; [exact Hok|].
    rewrite Hmerge. unfold σ2 at 2, write_output. cbn [merge_dir set_merge_dir].
    rewrite insert_insert_eq, Hmerge1. f_equal.
    rewrite (payloads_ext σ σ2) by (rewrite <- Hup1; reflexivity).
    unfold payloads at 2. cbn [map concat].
    rewrite <- (blob_ext σ σ1 file_id name), Hblob by exact Hup1.
    cbn [default]. now rewrite app_assoc.
Qed.

Lemma upload_dir_remove (file_id name : string) (σ : world)
    (entries : list (string * list Byte.byte)) :
  upload_dir σ !! file_id = Some entries ->
  upload_dir (remove file_id name σ)
  = <[file_id := filter (fun e => e.1 ≠ name) entries]> (upload_dir σ).
Proof. intros Hdir. unfold remove. cbn. now rewrite Hdir. Qed.

Lemma filter_keeps_all {A : Type} (P : A -> Prop) `{forall x, Decision (P x)}
    (l : list A) :
  (forall x, P x) -> filter P l = l.
Proof.
  intros HP. induction l as [|x l IH]; [reflexivity|].
  rewrite filter_cons_True by apply HP. now rewrite IH.
Qed.

Lemma filter_keeps_none {A : Type} (P : A -> Prop) `{forall x, Decision (P x)}
    (l : list A) :
  (forall x, x ∈ l -> ~ P x) -> filter P l = [].
Proof.
  intros HP. induction l as [|x l IH]; [reflexivity|].
  rewrite filter_cons_False by (apply HP; left).
  apply IH. intros y Hy. apply HP. now right.
Qed.

(** The deletion loop: it never touches the output, and it has deleted
    exactly the chunks it went through. *)
Lemma remove_chunks_spec (file_id : string) (names : list string) :
  forall (σ σ' : world) (ok : bool) (entries : list (string * list Byte.byte)),
    upload_dir σ !! file_id = Some entries ->
    remove_chunks file_id names σ = (ok, σ') ->
    same_services σ σ' /\ merge_dir σ' = merge_dir σ /\
    exists done rest,
      names = (done ++ rest)%list /\ (ok = true -> rest = []) /\
      upload_dir σ' =
        <[file_id := filter (fun e => e.1 ∉ done) entries]> (upload_dir σ).
Proof.
  induction names as [|name names IH]; intros σ σ' ok entries Hdir Hrun;
    cbn [remove_chunks] in Hrun.
  - inversion Hrun; subst. split; [apply same_services_refl|].
    split; [reflexivity|]. exists [], []. repeat split.
    rewrite insert_id; [reflexivity|]. rewrite Hdir. f_equal.
    symmetry. apply filter_keeps_all. intros e. apply not_elem_of_nil.
  - destruct (io_call σ) as [raised σ1] eqn:Hio.
    pose proof (io_call_same_services _ _ _ Hio) as Hsame1.
    apply io_call_frame in Hio as (_ & _ & Hup1 & Hmerge1 & _).
    assert (Hstop : (ok, σ') = (false, σ1) ->
              same_services σ σ' /\ merge_dir σ' = merge_dir σ /\
              exists done rest,
                name :: names = (done ++ rest)%list /\ (ok = true -> rest = []) /\
                upload_dir σ' =
                  <[file_id := filter (fun e => e.1 ∉ done) entries]>
                    (upload_dir σ)).
    { intros Heq. inversion Heq; subst. split; [exact Hsame1|].
      split; [exact Hmerge1|]. exists [], (name :: names).
      split; [reflexivity|]. split; [discriminate|].
      rewrite Hup1, insert_id; [reflexivity|]. rewrite Hdir. f_equal.
      symmetry. apply filter_keeps_all. intros e. apply not_elem_of_nil. }
    destruct raised; [now apply Hstop|].
    destruct (blob σ1 file_id name) as [data|] eqn:Hblob; [|now apply Hstop].
    clear Hstop.
    assert (Hdir1 : upload_dir σ1 !! file_id = Some entries) by now rewrite Hup1.
    pose proof (upload_dir_remove file_id name σ1 entries Hdir1) as Hup2.
    assert (Hdir2 : upload_dir (remove file_id name σ1) !! file_id
                    = Some (filter (fun e => e.1 ≠ name) entries))
      by (rewrite Hup2; apply lookup_insert_eq).
    destruct (IH _ σ' ok _ Hdir2 Hrun)
      as (Hsame & Hmerge & done & rest & -> & Hok & Hup).
    split.
    { eapply same_services_trans; [exact Hsame1|exact Hsame]. }
    split; [now rewrite Hmerge|].
    exists (name :: done), rest. split; [reflexivity|]. split; [exact Hok|].
    rewrite Hup, Hup2, insert_insert_eq, Hup1. f_equal.
    rewrite list_filter_filter. apply list_filter_iff.
    intros e. rewrite not_elem_of_cons. tauto.
Qed.

Lemma find_filter_ne (name name' : string)
    (entries : list (string * list Byte.byte)) :
  name' <> name ->
  List.find (fun e => String.eqb e.1 name') (filter (fun e => e.1 ≠ name) entries)
  = List.find (fun e => String.eqb e.1 name') entries.
Proof.
  intros Hne. induction entries as [|[n d] entries IH]; [reflexivity|].
  rewrite filter_cons. cbn [fst List.find].
  destruct (decide (n ≠ name)) as [Hn|Hn]; cbn [List.find fst].
  - now rewrite IH.
  - apply dec_stable in Hn. subst n.
    destruct (String.eqb_spec name name'); [congruence|exact IH].
Qed.

Lemma blob_remove_ne (file_id name name' : string) (σ : world) :
  name' <> name ->
  blob (remove file_id name σ) file_id name' = blob σ file_id name'.
Proof.
  intros Hne. unfold blob, remove. cbn. rewrite lookup_insert_eq.
  rewrite find_filter_ne by exact Hne.
  now destruct (upload_dir σ !! file_id).
Qed.

Lemma find_entry (name : string) (data : list Byte.byte)
    (entries : list (string * list Byte.byte)) :
  NoDup entries.*1 -> (name, data) ∈ entries ->
  List.find (fun e => String.eqb e.1 name) entries = Some (name, data).
Proof.
  induction entries as [|[n d] entries IH]; intros Hnd Hin.
  - now apply elem_of_nil in Hin.
  - rewrite fmap_cons in Hnd. apply NoDup_cons in Hnd as [Hn Hnd].
    cbn [List.find fst].
    apply elem_of_cons in Hin as [Heq|Hin].
    + inversion Heq; subst. now rewrite String.eqb_refl.
    + destruct (String.eqb_spec n name) as [->|Hne]; [|now apply IH].
      exfalso. apply Hn. apply list_elem_of_fmap. now exists (name, data).
Qed.

Lemma payloads_entries (σ : world) (file_id : string)
    (entries chunks : list (string * list Byte.byte)) :
  upload_dir σ !! file_id = Some entries ->
  NoDup entries.*1 ->
  (forall e, e ∈ chunks -> e ∈ entries) ->
  payloads σ file_id chunks.*1 = concat chunks.*2.
Proof.
  intros Hdir Hnd Hsub. unfold payloads. f_equal.
  induction chunks as [|[n d] chunks IH]; [reflexivity|].
  cbn [fmap list_fmap map fst snd]. f_equal.
  - unfold blob. rewrite Hdir.
    rewrite (find_entry n d) by (auto; apply Hsub; left). reflexivity.
  - apply IH. intros e He. apply Hsub. now right.
Qed.

Lemma io_call_quiet (σ : world) : io_faults σ = [] -> io_call σ = (false, σ).
Proof. intros Hq. unfold io_call. now rewrite Hq. Qed.

Lemma write_chunks_succeeds (file_id : string) (names : list string) :
  forall σ : world,
    io_faults σ = [] ->
    (forall name, name ∈ names -> is_Some (blob σ file_id name)) ->
    exists σ', write_chunks file_id names σ = (true, σ') /\ io_faults σ' = [].
Proof.
  induction names as [|name names IH]; intros σ Hquiet Hblobs;
    cbn [write_chunks]; [eauto|].
  rewrite (io_call_quiet σ Hquiet).
  destruct (Hblobs name) as [data Hdata]; [left|]. rewrite Hdata.
  apply IH; [exact Hquiet|].
  intros name' Hin. rewrite (blob_ext σ) by reflexivity. apply Hblobs. now right.
Qed.

Lemma remove_chunks_succeeds (file_id : string) (names : list string) :
  forall σ : world,
    io_faults σ = [] -> NoDup names ->
    (forall name, name ∈ names -> is_Some (blob σ file_id name)) ->
    exists σ', remove_chunks file_id names σ = (true, σ') /\ io_faults σ' = [].
Proof.
  induction names as [|name names IH]; intros σ Hquiet Hnd Hblobs;
    cbn [remove_chunks]; [eauto|].
  apply NoDup_cons in Hnd as [Hname Hnd].
  rewrite (io_call_quiet σ Hquiet).
  destruct (Hblobs name) as [data Hdata]; [left|]. rewrite Hdata.
  apply IH; [exact Hquiet|exact Hnd|].
  intros name' Hin. rewrite blob_remove_ne by (intros ->; contradiction).
  apply Hblobs. now right.
Qed.

Lemma forallb_chunk_keys (entries : list (string * list Byte.byte)) :
  Forall (fun e => is_Some (chunk_key e.1)) entries ->
  forallb (fun f => bool_decide (is_Some (chunk_key f))) entries.*1 = true.
Proof.
  induction 1 as [|e entries He _ IH]; [reflexivity|].
  rewrite fmap_cons. cbn [forallb]. rewrite IH, bool_decide_eq_true_2; auto.
Qed.

(** With no failure, a directory of chunks whose names all carry an index is
    merged into the payloads in ascending order of that index, after which
    the chunks and their directory are gone. *)
Lemma merge_chunks_succeeds (file_id : string) (σ : world)
    (entries : list (string * list Byte.byte)) :
  upload_dir σ !! file_id = Some entries ->
  entries <> [] ->
  NoDup entries.*1 ->
  Forall (fun e => is_Some (chunk_key e.1)) entries ->
  io_faults σ = [] ->
  exists σ',
    merge_chunks file_id σ = (Some (output_file file_id), σ') /\
    merge_dir σ' !! output_file file_id
      = Some (concat (sorted (key_or_zero ∘ fst) entries).*2) /\
    upload_dir σ' !! file_id = None /\
    same_services σ σ' /\ io_faults σ' = [].
Proof.
  intros Hdir Hne Hnd Hkeys Hquiet.
  unfold merge_chunks. rewrite Hdir, (io_call_quiet σ Hquiet), Hdir.
  cbn [default from_option id].
  destruct (entries.*1) as [|n names] eqn:Hnames.
  { destruct entries; [contradiction|discriminate]. }
  rewrite <- Hnames in Hnd |- *. clear n names Hnames.
  rewrite (forallb_chunk_keys entries Hkeys), (io_call_quiet σ Hquiet).
  set (chunks := sorted (key_or_zero ∘ fst) entries).
  assert (Hsorted : sorted key_or_zero entries.*1 = chunks.*1)
    by apply sorted_fmap.
  rewrite Hsorted.
  assert (Hperm : Permutation chunks entries) by apply sorted_perm.
  set (σ3 := set_merge_dir (<[output_file file_id := []]> (merge_dir σ)) σ).
  assert (Hblobs : forall w : world, upload_dir w !! file_id = Some entries ->
            forall name, name ∈ chunks.*1 -> is_Some (blob w file_id name)).
  { intros w Hw name Hin. apply list_elem_of_fmap in Hin as ([n d] & -> & Hin).
    unfold blob. rewrite Hw, (find_entry n d); [eauto|exact Hnd|].
    now rewrite <- Hperm. }
  destruct (write_chunks_succeeds file_id chunks.*1 σ3 Hquiet (Hblobs σ3 Hdir))
    as (σ4 & Hwrite & Hquiet4).
  rewrite Hwrite.
  destruct (write_chunks_spec file_id chunks.*1 σ3 σ4 true [])
    as (Hsame4 & Hup4 & done & rest & Hsplit & Hrest & Hmerge4);
    [apply lookup_insert_eq|exact Hwrite|].
  rewrite (Hrest eq_refl), app_nil_r in Hsplit. subst done. clear Hrest.
  assert (Hdir4 : upload_dir σ4 !! file_id = Some entries) by now rewrite Hup4.
  destruct (remove_chunks_succeeds file_id chunks.*1 σ4 Hquiet4)
    as (σ5 & Hremove & Hquiet5).
  { rewrite <- Hsorted, sorted_perm. exact Hnd. }
  { apply Hblobs, Hdir4. }
  rewrite Hremove.
  destruct (remove_chunks_spec file_id chunks.*1 σ4 σ5 true entries Hdir4 Hremove)
    as (Hsame5 & Hmerge5 & done & rest' & Hsplit & Hrest & Hup5).
  rewrite (Hrest eq_refl), app_nil_r in Hsplit. subst done. clear Hrest.
  assert (Hdir5 : upload_dir σ5 !! file_id = Some []).
  { rewrite Hup5, lookup_insert_eq. f_equal. apply filter_keeps_none.
    intros e He Hout. apply Hout. apply list_elem_of_fmap. exists e.
    split; [reflexivity|]. now rewrite Hperm. }
  unfold rmdir. rewrite (io_call_quiet σ5 Hquiet5), Hdir5.
  eexists. split; [reflexivity|].
  cbn [merge_dir upload_dir set_upload_dir io_faults].
  split.
  { rewrite Hmerge5, Hmerge4, lookup_insert_eq. f_equal. cbn [app].
    apply (payloads_entries σ3 file_id entries chunks Hdir Hnd).
    intros e He. now rewrite <- Hperm. }
  split; [apply lookup_delete_eq|].
  split; [|exact Hquiet5].
  eapply same_services_trans; [exact Hsame4|].
  unfold same_services in *. cbn. exact Hsame5.
Qed.



(** Every run of [merge_chunks], whatever fails, ends in one of the four
    ways of [merged]. *)
Lemma merge_chunks_merged (file_id : string) (σ : world) :
  merged file_id σ (merge_chunks file_id σ).1 (merge_chunks file_id σ).2.
Proof.
  unfold merge_chunks.
  destruct (upload_dir σ !! file_id) as [entries|] eqn:Hdir;
    [|apply merged_nothing; auto using same_services_refl].
  destruct (io_call σ) as [raised σ1] eqn:Hio1.
  pose proof (io_call_same_services _ _ _ Hio1) as Hsame1.
  apply io_call_frame in Hio1 as (_ & _ & Hup1 & Hmerge1 & _).
  destruct raised; [now apply merged_nothing|].
  rewrite Hup1, Hdir. cbn [default from_option id].
  destruct (entries.*1) as [|n names] eqn:Hnames; [now apply merged_nothing|].
  rewrite <- Hnames. clear n names Hnames.
  destruct (forallb _ entries.*1); [|now apply merged_nothing].
  assert (Hordered : ordered_chunks σ file_id = sorted key_or_zero entries.*1).
  { unfold ordered_chunks. now rewrite Hdir. }
  rewrite <- Hordered.
  destruct (io_call σ1) as [raised σ2] eqn:Hio2.
  pose proof (io_call_same_services _ _ _ Hio2) as Hsame2.
  apply io_call_frame in Hio2 as (_ & _ & Hup2 & Hmerge2 & _).
  assert (Hsame12 : same_services σ σ2)
    by (eapply same_services_trans; eassumption).
  destruct raised.
  { apply merged_nothing; cbn [fst snd]; [exact Hsame12|congruence|congruence]. }
  set (σ3 := set_merge_dir (<[output_file file_id := []]> (merge_dir σ2)) σ2).
  destruct (write_chunks file_id (ordered_chunks σ file_id) σ3)
    as [written σ4] eqn:Hwrite.
  destruct (write_chunks_spec file_id (ordered_chunks σ file_id) σ3 σ4 written [])
    as (Hsame4 & Hup4 & done & rest & Hsplit & Hrest & Hmerge4);
    [apply lookup_insert_eq|exact Hwrite|].
  assert (Hup3 : upload_dir σ3 = upload_dir σ) by (cbn; congruence).
  assert (Hsame14 : same_services σ σ4).
  { eapply same_services_trans; [exact Hsame12|exact Hsame4]. }
  assert (Hmerge4' : merge_dir σ4 =
            <[output_file file_id := payloads σ file_id done]> (merge_dir σ)).
  { rewrite Hmerge4. cbn [σ3 merge_dir set_merge_dir app].
    rewrite insert_insert_eq, Hmerge2, Hmerge1.
    now rewrite (payloads_ext σ σ3) by exact Hup3. }
  destruct written; cbn [fst snd].
  2:{ eapply merged_partly;
        [exact Hsame14|exact Hsplit|now rewrite Hup4|exact Hmerge4']. }
  rewrite (Hrest eq_refl), app_nil_r in Hsplit. subst done. clear Hrest rest.
  fold (full_artifact σ file_id) in Hmerge4'.
  assert (Hdir4 : upload_dir σ4 !! file_id = Some entries) by congruence.
  destruct (remove_chunks file_id (ordered_chunks σ file_id) σ4)
    as [removed σ5] eqn:Hremove.
  destruct (remove_chunks_spec file_id (ordered_chunks σ file_id) σ4 σ5 removed
              entries Hdir4 Hremove)
    as (Hsame5 & Hmerge5 & done & rest & Hsplit & Hrest & Hup5).
  assert (Hsame15 : same_services σ σ5)
    by (eapply same_services_trans; eassumption).
  assert (Hup5' : upload_dir σ5 =
            <[file_id := filter (fun e => e.1 ∉ done) entries]> (upload_dir σ))
    by congruence.
  assert (Hmerge5' : merge_dir σ5 =
            <[output_file file_id := full_artifact σ file_id]> (merge_dir σ))
    by congruence.
  destruct removed; cbn [fst snd].
  2:{ eapply merged_not_cleaned; cbn [fst snd]; eauto. }
  unfold rmdir.
  destruct (io_call σ5) as [raised σ6] eqn:Hio6.
  pose proof (io_call_same_services _ _ _ Hio6) as Hsame6.
  apply io_call_frame in Hio6 as (_ & _ & Hup6 & Hmerge6 & _).
  assert (Hsame16 : same_services σ σ6)
    by (eapply same_services_trans; eassumption).
  destruct raised; cbn [fst snd].
  { eapply merged_not_cleaned; cbn [fst snd]; eauto; congruence. }
  destruct (upload_dir σ6 !! file_id) as [[|e left]|] eqn:Hdir6; cbn [fst snd];
    try (eapply merged_not_cleaned; cbn [fst snd]; eauto; congruence).
  apply merged_cleaned; cbn [upload_dir merge_dir set_upload_dir].
  - exact Hsame16.
  - eauto.
  - rewrite Hup6, Hup5'. apply delete_insert_eq.
  - congruence.
Qed.

(** C5 (amended). Whatever fails in [merge_chunks]: no chunk blob is deleted
    unless the whole concatenation has succeeded, so a failure before or
    during the concatenation leaves every chunk in place; the directory of
    the session is removed only at the very end of a successful run, whose
    artifact is complete.  The artifact is written in place: the output path
    holds the payloads of the chunks concatenated so far. *)
Theorem merge_chunks_deletes_only_after_reassembly (file_id : string) (σ : world) :
  let result := (merge_chunks file_id σ).1 in
  let σ' := (merge_chunks file_id σ).2 in
  (upload_dir σ' <> upload_dir σ ->
     merge_dir σ' !! output_file file_id = Some (full_artifact σ file_id)) /\
  (merge_dir σ' !! output_file file_id <> Some (full_artifact σ file_id) ->
     result = None /\ upload_dir σ' = upload_dir σ) /\
  (is_Some result ->
     result = Some (output_file file_id) /\
     merge_dir σ' !! output_file file_id = Some (full_artifact σ file_id) /\
     upload_dir σ' = delete file_id (upload_dir σ)) /\
  (is_Some (upload_dir σ !! file_id) -> upload_dir σ' !! file_id = None ->
     is_Some result) /\
  (merge_dir σ' = merge_dir σ \/
   exists done rest,
     ordered_chunks σ file_id = (done ++ rest)%list /\
     merge_dir σ'
       = <[output_file file_id := payloads σ file_id done]> (merge_dir σ)) /\
  same_services σ σ'.
Proof.
  cbv zeta.
  destruct (merge_chunks_merged file_id σ)
    as [σ' Hsame Hup Hmerge
       |σ' done rest Hsame Hsplit Hup Hmerge
       |σ' entries done rest Hsame Hdir Hsplit Hup Hmerge
       |σ' Hsame Hdir Hup Hmerge].
  - split; [intros Hchanged; contradiction|].
    split; [auto|].
    split; [intros [p Hp]; discriminate|].
    split; [intros [e He] Hnone; rewrite Hup in Hnone; congruence|].
    split; [now left|exact Hsame].
  - split; [intros Hchanged; contradiction|].
    split; [auto|].
    split; [intros [p Hp]; discriminate|].
    split; [intros [e He] Hnone; rewrite Hup in Hnone; congruence|].
    split; [right; eauto|exact Hsame].
  - assert (Hfull : merge_dir σ' !! output_file file_id
                    = Some (full_artifact σ file_id))
      by (rewrite Hmerge; apply lookup_insert_eq).
    split; [auto|].
    split; [intros Hpartial; contradiction|].
    split; [intros [p Hp]; discriminate|].
    split.
    { intros _ Hnone. rewrite Hup, lookup_insert_eq in Hnone. discriminate. }
    split; [|exact Hsame].
    right. exists (ordered_chunks σ file_id), []. now rewrite app_nil_r.
  - assert (Hfull : merge_dir σ' !! output_file file_id
                    = Some (full_artifact σ file_id))
      by (rewrite Hmerge; apply lookup_insert_eq).
    split; [auto|].
    split; [intros Hpartial; contradiction|].
    split; [auto|].
    split; [eauto|].
    split; [|exact Hsame].
    right. exists (ordered_chunks σ file_id), []. now rewrite app_nil_r.
Qed.

(** The read of the second chunk fails: nothing is deleted. *)
Lemma merge_chunks_deletes_only_after_reassembly_witness :
  let σ := set_io_faults [false; false; false; true] (uploaded three_chunks) in
  (merge_chunks "id" σ).1 = None /\
  upload_dir (merge_chunks "id" σ).2 = upload_dir σ.
Proof.
  cbv zeta.
  destruct (merge_chunks_deletes_only_after_reassembly "id"
              (set_io_faults [false; false; false; true] (uploaded three_chunks)))
    as (_ & Hfailed & _).
  apply Hfailed. vm_compute. discriminate.
Defined.

(** C5, as stated, fails on both counts.  When the read of the second chunk
    fails, the output path, where no file was, holds the first payload only;
    when the second deletion fails, the first chunk is already deleted. *)
Lemma merge_chunks_leaves_partial_results :
  let reading := set_io_faults [false; false; false; true] (uploaded three_chunks) in
  let deleting :=
    set_io_faults [false; false; false; false; false; false; true]
                  (uploaded three_chunks) in
  ((merge_chunks "id" reading).1 = None /\
   merge_dir reading !! "id.csv" = None /\
   merge_dir (merge_chunks "id" reading).2 !! "id.csv"
     = Some (list_byte_of_string "A") /\
   full_artifact reading "id" = list_byte_of_string "ABC") /\
  ((merge_chunks "id" deleting).1 = None /\
   blob deleting "id" "2" = Some (list_byte_of_string "A") /\
   blob (merge_chunks "id" deleting).2 "id" "2" = None /\
   blob (merge_chunks "id" deleting).2 "id" "9" = Some (list_byte_of_string "B")).
Proof. cbv zeta. repeat split; vm_compute; reflexivity. Qed.

(** ** Batch Processor *)







(** ** The pipeline task *)

Section PipelineFacts.

Variable parse_datetime : cell -> option Z.
Variable CHUNK_SIZE : nat.
Variable read_csv : list Byte.byte -> nat -> list DataFrame * bool.




End PipelineFacts.

Lemma hgetall_same_redis (σ σ' : world) (key : string) :
  redis_db σ' = redis_db σ -> Redis.hgetall key σ' = Redis.hgetall key σ.
Proof. unfold Redis.hgetall. now intros ->. Qed.





(** * The rest of the code: further properties *)

(** ** Session lookup: [get_status] *)

(** X1. [get_status] answers 404 exactly when the store holds no record
    under the identifier, and 200 with the stored record otherwise; right
    after [init_upload] it returns the body [init_upload] answered with, and
    creating a session does not change the answer for any other
    identifier. *)
Theorem get_status_reads_the_store
    (total_chunks : Z) (uuid4 file_id : string) (σ : world) :
  (get_status file_id σ = mkResponse 404 None <-> Redis.hgetall file_id σ = ∅) /\
  (Redis.hgetall file_id σ <> ∅ ->
     get_status file_id σ = mkResponse 200 (Some (Redis.hgetall file_id σ))) /\
  (1 <= total_chunks ->
     status_code (get_status uuid4 (init_upload total_chunks uuid4 σ).2) = 200%nat /\
     json (get_status uuid4 (init_upload total_chunks uuid4 σ).2)
       = json (init_upload total_chunks uuid4 σ).1) /\
  (file_id <> uuid4 ->
     get_status file_id (init_upload total_chunks uuid4 σ).2
     = get_status file_id σ).
Proof.
  split; [|split; [|split]].
  - unfold get_status.
    destruct (bool_decide (Redis.hgetall file_id σ = ∅)) eqn:Hempty.
    + apply bool_decide_eq_true in Hempty. tauto.
    + apply bool_decide_eq_false in Hempty. split; [discriminate|tauto].
  - intros Hrec. unfold get_status. now rewrite bool_decide_eq_false_2.
  - intros Hge. rewrite init_upload_creates by exact Hge. cbn [fst snd json].
    unfold get_status. rewrite RedisFacts.hgetall_hset.
    rewrite bool_decide_eq_false_2; [split; reflexivity|].
    intros Hempty.
    apply (f_equal (fun m : gmap string string => m !! "status")) in Hempty.
    erewrite lookup_union_Some_l in Hempty by reflexivity.
    rewrite lookup_empty in Hempty. discriminate.
  - intros Hne. destruct (Z.lt_ge_cases total_chunks 1) as [Hlt|Hge].
    + now rewrite init_upload_rejects.
    + rewrite init_upload_creates by exact Hge. cbn [snd]. unfold get_status.
      now rewrite RedisFacts.hgetall_hset_ne by congruence.
Qed.

Lemma get_status_reads_the_store_witness :
  get_status "ghost" (session_world 2) = mkResponse 404 None /\
  json (get_status "id" (session_world 2)) = Some (new_session 2 "id").
Proof.
  destruct (get_status_reads_the_store 2 "id" "ghost" empty_world)
    as (_ & _ & Hround & Hother).
  split.
  - unfold session_world. rewrite Hother by discriminate. reflexivity.
  - unfold session_world. destruct Hround as [_ ->]; [lia|]. reflexivity.
Defined.

(** ** [create_chunk] served alone *)

Lemma store_same_services (file_id chunk_id : string) (data : list Byte.byte)
    (σ : world) :
  same_services σ (save file_id chunk_id data (makedirs file_id σ)).
Proof.
  unfold same_services, save, makedirs.
  destruct (upload_dir σ !! file_id); repeat split.
Qed.

Lemma makedirs_same_services (file_id : string) (σ : world) :
  same_services σ (makedirs file_id σ) /\
  io_faults (makedirs file_id σ) = io_faults σ /\
  merge_dir (makedirs file_id σ) = merge_dir σ.
Proof.
  unfold same_services, makedirs.
  destruct (upload_dir σ !! file_id); repeat split.
Qed.

(** Storing a chunk leaves Redis, the queue and the catalog alone. *)
Lemma receive_same_services (req : chunk_form) (σ : world) :
  same_services σ (receive req σ).2.
Proof.
  destruct (receive_received req σ)
    as [ | | ? ? ? ? ? ? Hio | ? ? ? ? ? ? ? Hio1 Hio2 | ? ? ? ? ? ? ? Hio1 Hio2 ];
    try apply same_services_refl.
  - eapply io_call_same_services, Hio.
  - apply io_call_same_services in Hio1, Hio2.
    eapply same_services_trans; [exact Hio1|].
    eapply same_services_trans; [apply makedirs_same_services|exact Hio2].
  - apply io_call_same_services in Hio1, Hio2.
    eapply same_services_trans; [exact Hio1|].
    eapply same_services_trans; [apply makedirs_same_services|].
    eapply same_services_trans; [exact Hio2|].
    unfold same_services, save. repeat split.
Qed.

(** X2. Served alone, [create_chunk] answers 201, 400, 404 or 500.  An
    answer 400 or 404 leaves the whole world as it was; an answer 500 leaves
    Redis and the queue as they were: the counter is never incremented, and
    no job submitted, by a request that is not answered 201. *)
Theorem create_chunk_rejected_writes_no_record (req : chunk_form) (σ : world) :
  let answer := (create_chunk req σ).1 in
  let σ' := (create_chunk req σ).2 in
  (answer = Returned 201 \/ answer = Returned 400 \/
   answer = Returned 404 \/ answer = Returned 500) /\
  (answer = Returned 400 \/ answer = Returned 404 -> σ' = σ) /\
  (answer <> Returned 201 ->
     redis_db σ' = redis_db σ /\ redis_ver σ' = redis_ver σ /\
     celery_queue σ' = celery_queue σ).
Proof.
  cbv zeta.
  pose proof (create_chunk_alone req σ) as Halone.
  pose proof (receive_same_services req σ) as Hsame.
  pose proof (receive_received req σ) as Hrec.
  destruct (receive req σ) as [p σ1]. cbn [fst snd] in Hrec, Hsame.
  destruct Hsame as (Hdb & Hver & Hqueue & _).
  destruct Hrec as [ | | | |file_id chunk_id file_chunk σa σ3 ? ? ? ?].
  1-4: rewrite Halone; cbn [fst snd]; split; [tauto|];
       (split; [intros [Hc|Hc]; (reflexivity || discriminate)|intros _; auto]).
  pose proof (decide_completion_inv file_id
                (Redis.version file_id (save file_id chunk_id (stream file_chunk) σ3))
                (save file_id chunk_id (stream file_chunk) σ3)) as Hinv.
  destruct (decide_completion _ _ _) as [| | |f w md|f w md|code];
    try contradiction; rewrite Halone; cbn [fst snd].
  - split; [tauto|]. split; [intros [Hc|Hc]; discriminate|]. congruence.
  - split; [tauto|]. split; [intros [Hc|Hc]; discriminate|]. congruence.
  - assert (code = 500%nat) as ->.
    { do 500 (destruct code as [|code]; [contradiction|]).
      destruct code; [reflexivity|contradiction]. }
    split; [tauto|]. split; [intros [Hc|Hc]; discriminate|]. auto.
Qed.

(** The storage of the chunk fails: the counter stays at 0. *)
Lemma create_chunk_rejected_writes_no_record_witness :
  let σ := set_io_faults [false; true] (session_world 2) in
  (create_chunk (chunk_of "id" "0" "a") σ).1 = Returned 500 /\
  redis_db (create_chunk (chunk_of "id" "0" "a") σ).2 = redis_db σ.
Proof.
  cbv zeta.
  destruct (create_chunk_rejected_writes_no_record (chunk_of "id" "0" "a")
              (set_io_faults [false; true] (session_world 2)))
    as (_ & _ & Hkept).
  split; [reflexivity|].
  apply Hkept. vm_compute. discriminate.
Defined.

Lemma rewritten_other (v : string) : Py.isdigit v = false -> rewritten v = v.
Proof. intros Hv. unfold rewritten, Py.coerce. now rewrite Hv. Qed.

Lemma rewritten_digits (v : string) :
  Py.isdigit v = true -> rewritten v = Py.str (Py.digits_value v).
Proof. intros Hv. unfold rewritten, Py.coerce. now rewrite Hv. Qed.

(** The decision taken on a record whose counter reads [c]. *)
Lemma decide_completion_spec (file_id : string) (watched : nat) (σ : world)
    (c : Z) :
  chunks_uploaded_of σ file_id = Some c ->
  decide_completion file_id watched σ =
    let md := <["chunks_uploaded" := Py.VInt (c + 1)]>
                (Py.coerce <$> Redis.hgetall file_id σ) in
    match Redis.hgetall file_id σ !! "total_chunks" with
    | Some total =>
        if Py.value_eqb (Py.VInt (c + 1)) (Py.coerce total)
        then AtDelay file_id watched (<["status" := Py.VStr "Processing"]> md)
        else AtExecute file_id watched md
    | None => Returned 500
    end.
Proof.
  unfold chunks_uploaded_of, decide_completion. rewrite lookup_fmap.
  destruct (Redis.hgetall file_id σ !! "chunks_uploaded") as [v|];
    [|discriminate].
  cbn [fmap option_fmap option_map]. unfold Py.coerce at 1.
  destruct (Py.isdigit v); [|discriminate].
  intros Hc. inversion Hc; subst c. cbv zeta.
  rewrite lookup_insert_ne by discriminate. rewrite lookup_fmap.
  now destruct (Redis.hgetall file_id σ !! "total_chunks").
Qed.

(** A well-formed upload, served alone with no failure, to a session whose
    counter reads [c]. *)
Lemma create_chunk_commits (file_id chunk_id : string) (file_chunk : FileStorage)
    (σ : world) (c : Z) (total : string) :
  file_id <> "" -> chunk_id <> "" -> filename file_chunk <> "" ->
  io_faults σ = [] ->
  chunks_uploaded_of σ file_id = Some c ->
  Redis.hgetall file_id σ !! "total_chunks" = Some total ->
  let σs := save file_id chunk_id (stream file_chunk) (makedirs file_id σ) in
  let md := <["chunks_uploaded" := Py.VInt (c + 1)]>
              (Py.coerce <$> Redis.hgetall file_id σ) in
  create_chunk (mkForm (Some file_id) (Some chunk_id) (Some file_chunk)) σ =
    if Py.value_eqb (Py.VInt (c + 1)) (Py.coerce total)
    then (Returned 201,
          Redis.hset file_id
            (Py.str_value <$> <["status" := Py.VStr "Processing"]> md)
            (set_celery_queue (celery_queue σs ++ [file_id]) σs))
    else (Returned 201, Redis.hset file_id (Py.str_value <$> md) σs).
Proof.
  intros Hf Hc Hn Hquiet Hcount Htotal σs md.
  pose proof (create_chunk_alone
                (mkForm (Some file_id) (Some chunk_id) (Some file_chunk)) σ)
    as Halone.
  assert (Hsome : is_Some (redis_db σ !! file_id)).
  { unfold chunks_uploaded_of in Hcount.
    destruct (Redis.hgetall file_id σ !! "chunks_uploaded") as [v|] eqn:Hv;
      [|discriminate]. eapply hgetall_is_Some, Hv. }
  rewrite (receive_stores file_id chunk_id file_chunk σ Hf Hc Hn Hsome Hquiet)
    in Halone.
  fold σs in Halone.
  destruct (hgetall_store_frame file_id file_id chunk_id (stream file_chunk) σ)
    as (Hget & _ & _). fold σs in Hget.
  assert (Hcount' : chunks_uploaded_of σs file_id = Some c)
    by (unfold chunks_uploaded_of; now rewrite Hget).
  rewrite (decide_completion_spec file_id _ σs c Hcount') in Halone.
  cbv zeta in Halone. rewrite Hget, Htotal in Halone. fold md in Halone.
  now destruct (Py.value_eqb (Py.VInt (c + 1)) (Py.coerce total)).
Qed.

Lemma total_chunks_of_inv (σ : world) (file_id : string) (t : Z) :
  total_chunks_of σ file_id = Some t ->
  exists total,
    Redis.hgetall file_id σ !! "total_chunks" = Some total /\
    Py.coerce total = Py.VInt t /\ 0 <= t /\ rewritten total = Py.str t.
Proof.
  unfold total_chunks_of.
  destruct (Redis.hgetall file_id σ !! "total_chunks") as [total|];
    [|discriminate].
  destruct (Py.isdigit total) eqn:Hdigit; [|discriminate].
  intros Ht. inversion Ht; subst t. exists total.
  split; [reflexivity|]. unfold rewritten, Py.coerce. rewrite Hdigit.
  repeat split. apply PyFacts.digits_value_nonneg.
Qed.

(** The fields of the record after the commit of the dictionary read. *)
Lemma committed_fields (file_id field : string) (σ σs : world) (c : Z)
    (trigger : bool) :
  Redis.hgetall file_id σs = Redis.hgetall file_id σ ->
  let md := <["chunks_uploaded" := Py.VInt (c + 1)]>
              (Py.coerce <$> Redis.hgetall file_id σ) in
  let md' := if trigger then <["status" := Py.VStr "Processing"]> md else md in
  Redis.hgetall file_id (Redis.hset file_id (Py.str_value <$> md') σs) !! field =
    if String.eqb field "chunks_uploaded" then Some (Py.str (c + 1))
    else if trigger && String.eqb field "status" then Some "Processing"
    else rewritten <$> Redis.hgetall file_id σ !! field.
Proof.
  intros Hget md md'. rewrite RedisFacts.hgetall_hset, Hget, lookup_union.
  rewrite lookup_fmap.
  assert (Hmd : md !! field =
                if String.eqb field "chunks_uploaded" then Some (Py.VInt (c + 1))
                else Py.coerce <$> Redis.hgetall file_id σ !! field).
  { unfold md. destruct (String.eqb_spec field "chunks_uploaded") as [->|Hne].
    - apply lookup_insert_eq.
    - rewrite lookup_insert_ne by congruence. apply lookup_fmap. }
  assert (Hmd' : md' !! field =
                 if String.eqb field "chunks_uploaded" then Some (Py.VInt (c + 1))
                 else if trigger && String.eqb field "status"
                      then Some (Py.VStr "Processing")
                      else Py.coerce <$> Redis.hgetall file_id σ !! field).
  { unfold md'. destruct trigger; [|exact Hmd]. cbn [andb].
    destruct (String.eqb_spec field "status") as [->|Hne].
    - rewrite lookup_insert_eq. reflexivity.
    - rewrite lookup_insert_ne by congruence. exact Hmd. }
  rewrite Hmd'.
  destruct (String.eqb field "chunks_uploaded");
    [now destruct (Redis.hgetall file_id σ !! field)|].
  destruct (trigger && String.eqb field "status");
    [now destruct (Redis.hgetall file_id σ !! field)|].
  now destruct (Redis.hgetall file_id σ !! field).
Qed.

(** The effects of a committed upload. *)
Lemma create_chunk_commit_effects
    (file_id chunk_id : string) (file_chunk : FileStorage) (σ : world)
    (c t : Z) :
  file_id <> "" -> chunk_id <> "" -> filename file_chunk <> "" ->
  io_faults σ = [] ->
  chunks_uploaded_of σ file_id = Some c ->
  total_chunks_of σ file_id = Some t ->
  exists σ',
    create_chunk (mkForm (Some file_id) (Some chunk_id) (Some file_chunk)) σ
      = (Returned 201, σ') /\
    chunks_uploaded_of σ' file_id = Some (c + 1) /\
    total_chunks_of σ' file_id = Some t /\
    io_faults σ' = [] /\
    celery_queue σ'
      = (celery_queue σ ++ if c + 1 =? t then [file_id] else [])%list /\
    (forall field,
       field <> "chunks_uploaded" ->
       Redis.hgetall file_id σ' !! field =
         if (c + 1 =? t) && String.eqb field "status" then Some "Processing"
         else rewritten <$> Redis.hgetall file_id σ !! field) /\
    (forall key, key <> file_id -> Redis.hgetall key σ' = Redis.hgetall key σ).
Proof.
  intros Hf Hc Hn Hquiet Hcount Htotal.
  destruct (total_chunks_of_inv σ file_id t Htotal)
    as (total & Hlookup & Hcoerce & Ht & Hrewritten).
  pose proof (create_chunk_commits file_id chunk_id file_chunk σ c total
                Hf Hc Hn Hquiet Hcount Hlookup) as Hrun.
  cbv zeta in Hrun. rewrite Hcoerce in Hrun. cbn [Py.value_eqb] in Hrun.
  set (σs := save file_id chunk_id (stream file_chunk) (makedirs file_id σ))
    in *.
  destruct (hgetall_store_frame file_id file_id chunk_id (stream file_chunk) σ)
    as (Hget & _ & Hfaults). fold σs in Hget, Hfaults.
  pose proof (store_same_services file_id chunk_id (stream file_chunk) σ)
    as (_ & _ & Hqueue & _). fold σs in Hqueue.
  pose proof (chunks_uploaded_of_nonneg σ file_id c Hcount) as Hc0.
  assert (Hfields : forall (trigger : bool) (w : world),
            Redis.hgetall file_id w = Redis.hgetall file_id σ ->
            let md' :=
              if trigger
              then <["status" := Py.VStr "Processing"]>
                     (<["chunks_uploaded" := Py.VInt (c + 1)]>
                        (Py.coerce <$> Redis.hgetall file_id σ))
              else <["chunks_uploaded" := Py.VInt (c + 1)]>
                     (Py.coerce <$> Redis.hgetall file_id σ) in
            let σ' := Redis.hset file_id (Py.str_value <$> md') w in
            chunks_uploaded_of σ' file_id = Some (c + 1) /\
            total_chunks_of σ' file_id = Some t /\
            (forall field,
               field <> "chunks_uploaded" ->
               Redis.hgetall file_id σ' !! field =
                 if trigger && String.eqb field "status" then Some "Processing"
                 else rewritten <$> Redis.hgetall file_id σ !! field) /\
            (forall key, key <> file_id ->
                         Redis.hgetall key σ' = Redis.hgetall key w)).
  { intros trigger w Hw md' σ'.
    pose proof (fun field => committed_fields file_id field σ w c trigger Hw)
      as Hcommitted. cbv zeta in Hcommitted. fold md' in Hcommitted.
    fold σ' in Hcommitted.
    split; [|split; [|split]].
    - unfold chunks_uploaded_of. rewrite Hcommitted. cbn.
      now rewrite PyFacts.isdigit_str, PyFacts.digits_value_str by lia.
    - unfold total_chunks_of. rewrite Hcommitted. cbn.
      rewrite andb_false_r, Hlookup. cbn. rewrite Hrewritten.
      now rewrite PyFacts.isdigit_str, PyFacts.digits_value_str by lia.
    - intros field Hfield. rewrite Hcommitted.
      apply String.eqb_neq in Hfield. now rewrite Hfield.
    - intros key Hkey. apply RedisFacts.hgetall_hset_ne. congruence. }
  destruct (c + 1 =? t) eqn:Heq.
  - eexists. split; [exact Hrun|].
    destruct (Hfields true (set_celery_queue (celery_queue σs ++ [file_id]) σs))
      as (H1 & H2 & H3 & H4); [exact Hget|].
    cbv zeta in H1, H2, H3, H4.
    split; [exact H1|]. split; [exact H2|].
    split; [transitivity (io_faults σs); [reflexivity|now rewrite Hfaults]|].
    split.
    { transitivity (celery_queue σs ++ [file_id])%list;
        [reflexivity|now rewrite Hqueue]. }
    split; [exact H3|].
    intros key Hkey. rewrite H4 by exact Hkey.
    apply hgetall_store_frame.
  - eexists. split; [exact Hrun|].
    destruct (Hfields false σs) as (H1 & H2 & H3 & H4); [exact Hget|].
    cbv zeta in H1, H2, H3, H4.
    split; [exact H1|]. split; [exact H2|].
    split; [transitivity (io_faults σs); [reflexivity|now rewrite Hfaults]|].
    split.
    { transitivity (celery_queue σs);
        [reflexivity|now rewrite Hqueue, app_nil_r]. }
    split; [exact H3|].
    intros key Hkey. rewrite H4 by exact Hkey.
    apply hgetall_store_frame.
Qed.

(** X3. A well-formed upload served alone, with no I/O failure, to a session
    whose counter reads [c] and whose [total_chunks] reads [t], is answered
    201 and moves the counter to [c + 1].  When [c + 1 = t] the status
    becomes [Processing] and one job for the session is appended to the
    queue; otherwise the queue is unchanged.  Every other field is written
    back as read, a string of digits through [int] and [str]; the other
    sessions are untouched. *)
Theorem create_chunk_counts_and_triggers
    (file_id chunk_id : string) (file_chunk : FileStorage) (σ : world)
    (c t : Z) :
  file_id <> "" -> chunk_id <> "" -> filename file_chunk <> "" ->
  io_faults σ = [] ->
  chunks_uploaded_of σ file_id = Some c ->
  total_chunks_of σ file_id = Some t ->
  exists σ',
    create_chunk (mkForm (Some file_id) (Some chunk_id) (Some file_chunk)) σ
      = (Returned 201, σ') /\
    chunks_uploaded_of σ' file_id = Some (c + 1) /\
    total_chunks_of σ' file_id = Some t /\
    io_faults σ' = [] /\
    celery_queue σ'
      = (celery_queue σ ++ if c + 1 =? t then [file_id] else [])%list /\
    (forall field,
       field <> "chunks_uploaded" ->
       Redis.hgetall file_id σ' !! field =
         if (c + 1 =? t) && String.eqb field "status" then Some "Processing"
         else rewritten <$> Redis.hgetall file_id σ !! field) /\
    (forall key, key <> file_id -> Redis.hgetall key σ' = Redis.hgetall key σ).
Proof.
  intros Hf Hc Hn Hquiet Hcount Htotal.
  destruct (create_chunk_commit_effects file_id chunk_id file_chunk σ c t
              Hf Hc Hn Hquiet Hcount Htotal)
    as (σ' & Hrun & Hcount' & Htotal' & Hquiet' & Hqueue & Hfields & Hothers).
  exists σ'. split; [exact Hrun|]. split; [exact Hcount'|].
  split; [exact Htotal'|]. split; [exact Hquiet'|]. split; [exact Hqueue|].
  split; [exact Hfields|exact Hothers].
Qed.

(** The single chunk of a session of one chunk: the status moves from
    [Not Started] to [Processing] in the same commit, and the job is queued. *)
Lemma create_chunk_counts_and_triggers_witness :
  exists σ',
    create_chunk (chunk_of "id" "0" "a") (session_world 1) = (Returned 201, σ') /\
    chunks_uploaded_of σ' "id" = Some 1 /\
    Redis.hgetall "id" σ' !! "status" = Some "Processing" /\
    celery_queue σ' = ["id"].
Proof.
  destruct (create_chunk_counts_and_triggers "id" "0"
              (mkFile "blob" (list_byte_of_string "a")) (session_world 1) 0 1)
    as (σ' & Hrun & Hcount & _ & _ & Hqueue & Hfields & _);
    try discriminate; try reflexivity.
  exists σ'. split; [exact Hrun|]. split; [exact Hcount|].
  split; [|exact Hqueue].
  rewrite Hfields by discriminate. reflexivity.
Defined.

(** ** Uploads served one after the other *)

Lemma upload_all_cons (req : chunk_form) (reqs : list chunk_form) (σ : world) :
  upload_all (req :: reqs) σ = upload_all reqs (create_chunk req σ).2.
Proof. reflexivity. Qed.

(** The counter, the queue and the status after a series of uploads. *)
Lemma upload_all_counts
    (file_id : string) (reqs : list chunk_form) (σ : world) (c t : Z) :
  Forall (well_formed_for file_id) reqs ->
  io_faults σ = [] ->
  chunks_uploaded_of σ file_id = Some c ->
  total_chunks_of σ file_id = Some t ->
  let σ' := upload_all reqs σ in
  let uploads := Z.of_nat (length reqs) in
  chunks_uploaded_of σ' file_id = Some (c + uploads) /\
  total_chunks_of σ' file_id = Some t /\
  celery_queue σ'
    = (celery_queue σ
       ++ if (c <? t) && (t <=? c + uploads) then [file_id] else [])%list /\
  (c < t <= c + uploads ->
     Redis.hgetall file_id σ' !! "status" = Some "Processing") /\
  (t <= c -> Redis.hgetall file_id σ !! "status" = Some "Processing" ->
     Redis.hgetall file_id σ' !! "status" = Some "Processing").
Proof.
  intros Hreqs. revert σ c.
  induction Hreqs as [|req reqs Hreq _ IH]; intros σ c Hquiet Hcount Htotal.
  - cbv zeta. cbn [upload_all fold_left length]. change (Z.of_nat 0) with 0.
    rewrite Z.add_0_r.
    split; [exact Hcount|]. split; [exact Htotal|].
    split; [|split; [lia|auto]].
    destruct (Z.ltb_spec c t), (Z.leb_spec t c); cbn; try lia;
      now rewrite app_nil_r.
  - destruct Hreq as (chunk_id & file_chunk & -> & Hf & Hc & Hn).
    destruct (create_chunk_commit_effects file_id chunk_id file_chunk σ c t
                Hf Hc Hn Hquiet Hcount Htotal)
      as (σ1 & Hrun & Hcount1 & Htotal1 & Hquiet1 & Hqueue1 & Hfields1 & _).
    specialize (IH σ1 (c + 1) Hquiet1 Hcount1 Htotal1).
    cbv zeta in IH |- *. rewrite upload_all_cons, Hrun. cbn [snd].
    destruct IH as (IHcount & IHtotal & IHqueue & IHstatus & IHkept).
    replace (Z.of_nat (length (_ :: reqs)))
      with (1 + Z.of_nat (length reqs)) by (cbn [length]; lia).
    split; [rewrite IHcount; f_equal; lia|].
    split; [exact IHtotal|].
    assert (Hstatus1 : Redis.hgetall file_id σ1 !! "status" =
                       if c + 1 =? t then Some "Processing"
                       else rewritten <$> Redis.hgetall file_id σ !! "status").
    { rewrite Hfields1 by discriminate. now rewrite andb_true_r. }
    split; [|split].
    + rewrite IHqueue, Hqueue1, <- app_assoc. f_equal.
      destruct (Z.eqb_spec (c + 1) t), (Z.ltb_spec (c + 1) t),
        (Z.ltb_spec c t), (Z.leb_spec t (c + 1 + Z.of_nat (length reqs))),
        (Z.leb_spec t (c + (1 + Z.of_nat (length reqs))));
        cbn; try reflexivity; lia.
    + intros Hpass. destruct (Z.eqb_spec (c + 1) t) as [Heq|Hne].
      * apply IHkept; [lia|exact Hstatus1].
      * apply IHstatus. lia.
    + intros Hle Hstatus. apply IHkept; [lia|].
      rewrite Hstatus1. destruct (Z.eqb_spec (c + 1) t); [reflexivity|].
      now rewrite Hstatus.
Qed.

(** X4. When well-formed uploads to one session are served one after the
    other, with no I/O failure, the counter ends at its initial value plus
    the number of uploads, and the pipeline job is submitted exactly once if
    the counter passes through [total_chunks] on the way, and not at all
    otherwise; once submitted, the status reads [Processing]. *)
Theorem sequential_uploads_submit_one_job
    (file_id : string) (reqs : list chunk_form) (σ : world) (c t : Z) :
  Forall (well_formed_for file_id) reqs ->
  io_faults σ = [] ->
  chunks_uploaded_of σ file_id = Some c ->
  total_chunks_of σ file_id = Some t ->
  let σ' := upload_all reqs σ in
  let uploads := Z.of_nat (length reqs) in
  chunks_uploaded_of σ' file_id = Some (c + uploads) /\
  total_chunks_of σ' file_id = Some t /\
  celery_queue σ'
    = (celery_queue σ
       ++ if (c <? t) && (t <=? c + uploads) then [file_id] else [])%list /\
  (c < t <= c + uploads ->
     Redis.hgetall file_id σ' !! "status" = Some "Processing") /\
  (t <= c -> Redis.hgetall file_id σ !! "status" = Some "Processing" ->
     Redis.hgetall file_id σ' !! "status" = Some "Processing").
Proof. apply upload_all_counts. Qed.

(** Three uploads to a session of two chunks: one job. *)
Lemma sequential_uploads_submit_one_job_witness :
  let σ' := upload_all [chunk_of "id" "0" "a"; chunk_of "id" "1" "b";
                        chunk_of "id" "1" "c"] (session_world 2) in
  chunks_uploaded_of σ' "id" = Some 3 /\ celery_queue σ' = ["id"].
Proof.
  cbv zeta.
  destruct (sequential_uploads_submit_one_job "id"
              [chunk_of "id" "0" "a"; chunk_of "id" "1" "b"; chunk_of "id" "1" "c"]
              (session_world 2) 0 2) as (Hcount & _ & Hqueue & _).
  - repeat constructor; eexists _, _; repeat split; discriminate.
  - reflexivity.
  - reflexivity.
  - reflexivity.
  - split; [exact Hcount|exact Hqueue].
Defined.

(** The world after a well-formed upload was served alone with no failure:
    whatever the answer, the chunk is stored. *)
Lemma create_chunk_stores (file_id chunk_id : string) (file_chunk : FileStorage)
    (σ : world) :
  file_id <> "" -> chunk_id <> "" -> filename file_chunk <> "" ->
  io_faults σ = [] -> is_Some (redis_db σ !! file_id) ->
  let σ' := (create_chunk (mkForm (Some file_id) (Some chunk_id) (Some file_chunk))
                          σ).2 in
  upload_dir σ'
    = <[file_id := dir_write chunk_id (stream file_chunk)
                     (default [] (upload_dir σ !! file_id))]> (upload_dir σ) /\
  io_faults σ' = [] /\ is_Some (redis_db σ' !! file_id) /\
  merge_dir σ' = merge_dir σ /\ movies_collection σ' = movies_collection σ.
Proof.
  intros Hf Hc Hn Hquiet Hsome. cbv zeta.
  pose proof (create_chunk_alone
                (mkForm (Some file_id) (Some chunk_id) (Some file_chunk)) σ)
    as Halone.
  rewrite (receive_stores file_id chunk_id file_chunk σ Hf Hc Hn Hsome Hquiet)
    in Halone.
  set (σs := save file_id chunk_id (stream file_chunk) (makedirs file_id σ))
    in *.
  assert (Hs : upload_dir σs
               = <[file_id := dir_write chunk_id (stream file_chunk)
                                (default [] (upload_dir σ !! file_id))]>
                   (upload_dir σ) /\
               io_faults σs = [] /\ is_Some (redis_db σs !! file_id) /\
               merge_dir σs = merge_dir σ /\
               movies_collection σs = movies_collection σ).
  { unfold σs, save, makedirs.
    destruct (upload_dir σ !! file_id) as [entries|] eqn:Hdir; cbn.
    - rewrite Hdir. auto.
    - rewrite lookup_insert_eq, insert_insert_eq. auto. }
  destruct Hs as (Hup & Hq & Hdb & Hm & Hc').
  assert (Hinserted : forall mapping w,
            is_Some (redis_db (Redis.hset file_id mapping w) !! file_id)).
  { intros mapping w. unfold Redis.hset. cbn. rewrite lookup_insert_eq. eauto. }
  destruct (decide_completion file_id (Redis.version file_id σs) σs);
    rewrite Halone; cbn [snd]; auto.
Qed.

Lemma dir_write_fresh (name : string) (data : list Byte.byte)
    (entries : list (string * list Byte.byte)) :
  name ∉ entries.*1 -> dir_write name data entries = (entries ++ [(name, data)])%list.
Proof.
  intros Hfresh. unfold dir_write.
  destruct (existsb _ entries) eqn:Hex; [|reflexivity].
  exfalso. apply existsb_exists in Hex as ([n d] & Hin & Heq).
  apply String.eqb_eq in Heq. cbn in Heq. subst n.
  apply Hfresh. apply list_elem_of_fmap. exists (name, d).
  split; [reflexivity|]. now apply list_elem_of_In.
Qed.

(** The directory of a session after a series of uploads. *)
Lemma upload_all_directory
    (file_id file_name : string) (chunks : list (string * list Byte.byte))
    (σ : world) :
  file_id <> "" -> file_name <> "" ->
  Forall (fun chunk => chunk.1 <> "") chunks ->
  io_faults σ = [] -> is_Some (redis_db σ !! file_id) ->
  let σ' := upload_all (upload_form file_id file_name <$> chunks) σ in
  let before := default [] (upload_dir σ !! file_id) in
  (chunks <> [] ->
   upload_dir σ' !! file_id
     = Some (fold_left (fun entries chunk => dir_write chunk.1 chunk.2 entries)
                       chunks before)) /\
  (chunks <> [] -> NoDup chunks.*1 ->
   (forall name, name ∈ chunks.*1 -> name ∉ before.*1) ->
   upload_dir σ' !! file_id = Some (before ++ chunks)%list) /\
  io_faults σ' = [] /\ merge_dir σ' = merge_dir σ /\
  movies_collection σ' = movies_collection σ.
Proof.
  intros Hf Hn Hnames. revert σ.
  induction Hnames as [|[name data] chunks Hname _ IH]; intros σ Hquiet Hsome.
  - cbv zeta. cbn. repeat split; auto; intros; congruence.
  - cbv zeta. rewrite fmap_cons, upload_all_cons.
    destruct (create_chunk_stores file_id name (mkFile file_name data) σ
                Hf Hname Hn Hquiet Hsome) as (Hup & Hq & Hdb & Hm & Hc).
    cbv zeta in Hup, Hq, Hdb, Hm, Hc. cbn [stream] in Hup.
    change (create_chunk (upload_form file_id file_name (name, data)) σ)
      with (create_chunk
              (mkForm (Some file_id) (Some name) (Some (mkFile file_name data))) σ).
    set (σ1 := (create_chunk _ σ).2) in *.
    specialize (IH σ1 Hq Hdb). cbv zeta in IH.
    destruct IH as (IHfold & IHfresh & IHq & IHm & IHc).
    assert (Hdir1 : default [] (upload_dir σ1 !! file_id)
                    = dir_write name data (default [] (upload_dir σ !! file_id)))
      by (rewrite Hup, lookup_insert_eq; reflexivity).
    assert (Hfold : upload_dir (upload_all (upload_form file_id file_name <$> chunks) σ1)
                      !! file_id
                    = Some (fold_left
                              (fun entries chunk => dir_write chunk.1 chunk.2 entries)
                              chunks
                              (dir_write name data
                                 (default [] (upload_dir σ !! file_id))))).
    { destruct chunks as [|chunk chunks'].
      - cbn. rewrite Hup, lookup_insert_eq. reflexivity.
      - rewrite IHfold by discriminate. now rewrite Hdir1. }
    split; [intros _; exact Hfold|].
    split; [|split; [exact IHq|split; congruence]].
    intros _ Hnd Hnew. rewrite fmap_cons in Hnd.
    apply NoDup_cons in Hnd as [Hfirst Hnd].
    destruct chunks as [|chunk chunks'].
    + cbn. rewrite Hup, lookup_insert_eq. f_equal. apply dir_write_fresh.
      apply Hnew. left.
    + rewrite IHfresh; [| discriminate | exact Hnd |].
      * rewrite Hdir1, dir_write_fresh by (apply Hnew; left).
        now rewrite <- app_assoc.
      * intros n Hin. rewrite Hdir1, dir_write_fresh by (apply Hnew; left).
        rewrite fmap_app, elem_of_app. intros [Hold|Hhere].
        -- revert Hold. apply Hnew. now right.
        -- cbn in Hhere. apply list_elem_of_singleton in Hhere. subst n.
           contradiction.
Qed.

(** X5. Well-formed uploads served one after the other, with no I/O failure,
    whatever they are answered, leave in the directory of the session the
    chunks written in the order of their arrival, a later upload of a name
    overwriting the earlier one in place; when the names are new and pairwise
    distinct the directory lists the former entries followed by the
    uploaded chunks in their order of arrival. *)
Theorem sequential_uploads_fill_the_directory
    (file_id file_name : string) (chunks : list (string * list Byte.byte))
    (σ : world) :
  file_id <> "" -> file_name <> "" ->
  Forall (fun chunk => chunk.1 <> "") chunks ->
  io_faults σ = [] -> is_Some (redis_db σ !! file_id) ->
  let σ' := upload_all (upload_form file_id file_name <$> chunks) σ in
  let before := default [] (upload_dir σ !! file_id) in
  (chunks <> [] ->
   upload_dir σ' !! file_id
     = Some (fold_left (fun entries chunk => dir_write chunk.1 chunk.2 entries)
                       chunks before)) /\
  (chunks <> [] -> NoDup chunks.*1 ->
   (forall name, name ∈ chunks.*1 -> name ∉ before.*1) ->
   upload_dir σ' !! file_id = Some (before ++ chunks)%list) /\
  io_faults σ' = [] /\ merge_dir σ' = merge_dir σ /\
  movies_collection σ' = movies_collection σ.
Proof.
  intros Hf Hn Hnames Hquiet Hsome.
  destruct (upload_all_directory file_id file_name chunks σ
              Hf Hn Hnames Hquiet Hsome)
    as (Hfold & Hfresh & Hquiet' & Hmerge & Hcatalog).
  cbv zeta. split; [exact Hfold|]. split; [exact Hfresh|].
  split; [exact Hquiet'|]. split; [exact Hmerge|exact Hcatalog].
Qed.

(** The three chunks of [three_chunks], uploaded in that order. *)
Lemma sequential_uploads_fill_the_directory_witness :
  upload_dir (upload_all (upload_form "id" "part.csv" <$> three_chunks)
                         (session_world 3)) !! "id"
  = Some three_chunks.
Proof.
  destruct (sequential_uploads_fill_the_directory "id" "part.csv" three_chunks
              (session_world 3)) as (_ & Hfresh & _).
  - discriminate.
  - discriminate.
  - repeat constructor; discriminate.
  - reflexivity.
  - vm_compute. eauto.
  - apply Hfresh.
    + discriminate.
    + apply (bool_decide_unpack _). vm_compute. exact I.
    + intros name _. vm_compute. apply not_elem_of_nil.
Defined.

Lemma chunk_key_nonempty (name : string) : is_Some (chunk_key name) -> name <> "".
Proof. intros [k Hk] ->. vm_compute in Hk. discriminate. Qed.

(** The merge after a series of uploads in some order of arrival. *)
Lemma uploads_then_merge (file_id file_name : string)
    (chunks arrival : list (string * list Byte.byte)) (σ : world) :
  file_id <> "" -> file_name <> "" ->
  chunks <> [] ->
  NoDup chunks.*1 ->
  Forall (fun chunk => is_Some (chunk_key chunk.1)) chunks ->
  NoDup ((key_or_zero ∘ fst) <$> chunks) ->
  Permutation arrival chunks ->
  io_faults σ = [] -> is_Some (redis_db σ !! file_id) ->
  upload_dir σ !! file_id = None ->
  exists σ',
    merge_chunks file_id (upload_all (upload_form file_id file_name <$> arrival) σ)
      = (Some (output_file file_id), σ') /\
    merge_dir σ' !! output_file file_id
      = Some (concat (sorted (key_or_zero ∘ fst) chunks).*2) /\
    upload_dir σ' !! file_id = None /\ io_faults σ' = [] /\
    same_services (upload_all (upload_form file_id file_name <$> arrival) σ) σ'.
Proof.
  intros Hf Hn Hne Hnd Hkeys Hdistinct Hperm Hquiet Hsome Hnodir.
  assert (Hne' : arrival <> []).
  { intros ->. apply Permutation_nil in Hperm. contradiction. }
  assert (Hkeys' : Forall (fun chunk => is_Some (chunk_key chunk.1)) arrival)
    by now rewrite Hperm.
  destruct (upload_all_directory file_id file_name arrival σ Hf Hn)
    as (_ & Hlisting & Hquiet' & _); auto.
  { eapply Forall_impl; [exact Hkeys'|]. intros chunk.
    apply chunk_key_nonempty. }
  cbv zeta in Hlisting, Hquiet'. rewrite Hnodir in Hlisting. cbn in Hlisting.
  specialize (Hlisting Hne').
  destruct (merge_chunks_succeeds file_id
              (upload_all (upload_form file_id file_name <$> arrival) σ) arrival)
    as (σ' & Hrun & Hmerge & Hgone & Hsame & Hquiet''); auto.
  - apply Hlisting; [now rewrite Hperm|]. intros name _. apply not_elem_of_nil.
  - now rewrite Hperm.
  - exists σ'. split; [exact Hrun|]. split; [|auto].
    rewrite Hmerge. do 3 f_equal. now apply sorted_order_independent.
Qed.

(** X6. Chunks whose names carry pairwise distinct numeric indices, uploaded
    one after the other in any order of arrival to a session that has no
    chunk yet, and then merged, with no I/O failure: the artifact is the
    payloads in ascending order of the index, the same for every order of
    arrival, and the chunks and their directory are gone. *)
Theorem uploads_in_any_order_merge_alike
    (file_id file_name : string)
    (chunks arrival : list (string * list Byte.byte)) (σ : world) :
  file_id <> "" -> file_name <> "" ->
  chunks <> [] ->
  NoDup chunks.*1 ->
  Forall (fun chunk => is_Some (chunk_key chunk.1)) chunks ->
  NoDup ((key_or_zero ∘ fst) <$> chunks) ->
  Permutation arrival chunks ->
  io_faults σ = [] -> is_Some (redis_db σ !! file_id) ->
  upload_dir σ !! file_id = None ->
  exists σ',
    merge_chunks file_id (upload_all (upload_form file_id file_name <$> arrival) σ)
      = (Some (output_file file_id), σ') /\
    merge_dir σ' !! output_file file_id
      = Some (concat (sorted (key_or_zero ∘ fst) chunks).*2) /\
    upload_dir σ' !! file_id = None.
Proof.
  intros Hf Hn Hne Hnd Hkeys Hdistinct Hperm Hquiet Hsome Hnodir.
  destruct (uploads_then_merge file_id file_name chunks arrival σ)
    as (σ' & Hrun & Hmerge & Hgone & _); auto.
  exists σ'. split; [exact Hrun|]. split; [exact Hmerge|exact Hgone].
Qed.

Lemma uploads_in_any_order_merge_alike_witness :
  exists σ',
    merge_chunks "id" (upload_all (upload_form "id" "part.csv" <$> rotate 1 three_chunks)
                                  (session_world 3))
      = (Some "id.csv", σ') /\
    merge_dir σ' !! "id.csv" = Some (list_byte_of_string "ABC").
Proof.
  destruct (uploads_in_any_order_merge_alike "id" "part.csv" three_chunks
              (rotate 1 three_chunks) (session_world 3))
    as (σ' & Hrun & Hmerge & _).
  - discriminate.
  - discriminate.
  - discriminate.
  - apply (bool_decide_unpack _). vm_compute. exact I.
  - apply (bool_decide_unpack _). vm_compute. exact I.
  - apply (bool_decide_unpack _). vm_compute. exact I.
  - vm_compute. apply Permutation_sym, Permutation_cons_append.
  - reflexivity.
  - vm_compute. eauto.
  - reflexivity.
  - exists σ'. split; [exact Hrun|exact Hmerge].
Defined.

(** ** The numeric index of a chunk name *)

Lemma digit_not_space (a : ascii) :
  Py.is_ascii_digit a = true -> Py.is_space a = false.
Proof.
  destruct a as [[] [] [] [] [] [] [] []]; cbn; intros H;
    first [discriminate H | reflexivity].
Qed.

Lemma digit_not_underscore (a : ascii) :
  Py.is_ascii_digit a = true -> Ascii.eqb "_" a = false.
Proof.
  destruct a as [[] [] [] [] [] [] [] []]; cbn; intros H;
    first [discriminate H | reflexivity].
Qed.

Lemma digits_no_underscore (s : string) :
  Py.all_digits s = true ->
  existsb (Ascii.eqb "_") (list_ascii_of_string s) = false.
Proof.
  induction s as [|a s IH]; [reflexivity|]. cbn [Py.all_digits].
  intros [Ha Hs]%andb_true_iff. cbn [list_ascii_of_string existsb].
  now rewrite (digit_not_underscore a Ha), IH.
Qed.

Lemma split_last_digits (s : string) :
  Py.all_digits s = true -> Py.split_last "_" s = s.
Proof.
  destruct s as [|a s]; [reflexivity|]. cbn [Py.all_digits Py.split_last].
  intros [Ha Hs]%andb_true_iff.
  rewrite (digits_no_underscore s Hs).
  rewrite Ascii.eqb_sym, (digit_not_underscore a Ha). reflexivity.
Qed.

Lemma split_last_prefixed (prefix s : string) :
  Py.all_digits s = true ->
  Py.split_last "_" (prefix ++ String "_" s) = s.
Proof.
  intros Hs. induction prefix as [|a prefix IH].
  - change (Py.split_last "_" (String "_" s) = s). cbn [Py.split_last].
    rewrite (digits_no_underscore s Hs). now rewrite Ascii.eqb_refl.
  - change (Py.split_last "_" (String a (prefix ++ String "_" s)) = s).
    cbn [Py.split_last].
    assert (Hex : existsb (Ascii.eqb "_")
                    (list_ascii_of_string (prefix ++ String "_" s)) = true).
    { clear IH. induction prefix as [|b prefix IH].
      - change (existsb (Ascii.eqb "_")
                  (list_ascii_of_string (String "_" s)) = true).
        cbn [list_ascii_of_string existsb]. now rewrite Ascii.eqb_refl.
      - change (existsb (Ascii.eqb "_")
                  (list_ascii_of_string (String b (prefix ++ String "_" s)))
                = true).
        cbn [list_ascii_of_string existsb]. rewrite IH. apply orb_true_r. }
    now rewrite Hex.
Qed.

Lemma rstrip_digits (s : string) :
  Py.all_digits s = true -> Py.rstrip s = s.
Proof.
  induction s as [|a s IH]; [reflexivity|]. cbn [Py.all_digits Py.rstrip].
  intros [Ha Hs]%andb_true_iff. rewrite (IH Hs).
  destruct s; [|reflexivity]. now rewrite (digit_not_space a Ha).
Qed.

Lemma strip_digits (s : string) : Py.all_digits s = true -> Py.strip s = s.
Proof.
  intros Hs. unfold Py.strip.
  assert (Hl : Py.lstrip s = s).
  { destruct s as [|a s]; [reflexivity|]. cbn [Py.all_digits] in Hs.
    apply andb_true_iff in Hs as [Ha _]. cbn [Py.lstrip].
    now rewrite (digit_not_space a Ha). }
  rewrite Hl. now apply rstrip_digits.
Qed.

Lemma int_digits (s : string) :
  Py.isdigit s = true -> Py.int s = Some (Py.digits_value s).
Proof.
  intros Hs. unfold Py.int.
  assert (Hall : Py.all_digits s = true) by (destruct s; [discriminate|exact Hs]).
  rewrite (strip_digits s Hall).
  destruct s as [|a s]; [discriminate|].
  cbn [Py.all_digits] in Hall. apply andb_true_iff in Hall as [Ha _].
  destruct a as [[] [] [] [] [] [] [] []]; cbn in Ha; try discriminate Ha;
    now rewrite Hs.
Qed.

Lemma all_digits_isdigit (s : string) :
  Py.isdigit s = true -> Py.all_digits s = true.
Proof. destruct s; [discriminate|auto]. Qed.

(** X7. The sort key of [merge_chunks] reads back the index a client put in
    a chunk name: for every [n >= 0], the names [str(n)] and
    [<prefix>_<str(n)>] have the key [n]; a name with no digits after its
    last underscore has no key. *)
Theorem chunk_key_reads_the_index (n : Z) (prefix : string) :
  0 <= n ->
  chunk_key (Py.str n) = Some n /\
  chunk_key (prefix ++ String "_" (Py.str n)) = Some n /\
  chunk_key (prefix ++ "_") = None.
Proof.
  intros Hn.
  pose proof (PyFacts.isdigit_str n Hn) as Hdigit.
  pose proof (all_digits_isdigit _ Hdigit) as Hall.
  unfold chunk_key. split; [|split].
  - rewrite split_last_digits by exact Hall.
    rewrite int_digits by exact Hdigit.
    now rewrite PyFacts.digits_value_str.
  - rewrite split_last_prefixed by exact Hall.
    rewrite int_digits by exact Hdigit.
    now rewrite PyFacts.digits_value_str.
  - change (prefix ++ "_") with (prefix ++ String "_" "").
    rewrite split_last_prefixed by reflexivity. reflexivity.
Qed.

Lemma chunk_key_reads_the_index_witness :
  chunk_key "10" = Some 10 /\ chunk_key "chunk_10" = Some 10.
Proof.
  destruct (chunk_key_reads_the_index 10 "chunk") as (Hplain & Hprefixed & _);
    [lia|].
  split; [exact Hplain|exact Hprefixed].
Defined.

(** ** Edge cases of [merge_chunks] *)

Lemma forallb_chunk_keys_bad (names : list string) (name : string) :
  name ∈ names -> chunk_key name = None ->
  forallb (fun f => bool_decide (is_Some (chunk_key f))) names = false.
Proof.
  intros Hin Hbad. induction Hin as [name names|name other names Hin IH];
    cbn [forallb].
  - rewrite bool_decide_eq_false_2; [reflexivity|].
    rewrite Hbad. apply is_Some_None.
  - rewrite IH by exact Hbad. apply andb_false_r.
Qed.

(** X8. [merge_chunks] returns [None] and leaves the world as it was when
    the session has no directory.  When the directory is empty, or holds a
    name without a numeric index, it returns [None] having written and
    deleted nothing: the output file is not created and every chunk stays in
    place. *)
Theorem merge_chunks_refuses_unusable_directories (file_id : string) (σ : world) :
  (upload_dir σ !! file_id = None -> merge_chunks file_id σ = (None, σ)) /\
  (forall entries,
     upload_dir σ !! file_id = Some entries ->
     entries = [] \/ (exists name, name ∈ entries.*1 /\ chunk_key name = None) ->
     (merge_chunks file_id σ).1 = None /\
     upload_dir (merge_chunks file_id σ).2 = upload_dir σ /\
     merge_dir (merge_chunks file_id σ).2 = merge_dir σ /\
     same_services σ (merge_chunks file_id σ).2).
Proof.
  split.
  - intros Hdir. unfold merge_chunks. now rewrite Hdir.
  - intros entries Hdir Hbad. unfold merge_chunks. rewrite Hdir.
    destruct (io_call σ) as [raised σ1] eqn:Hio.
    pose proof (io_call_same_services _ _ _ Hio) as Hsame.
    apply io_call_frame in Hio as (_ & _ & Hup & Hmerge & _).
    destruct raised; [cbn [fst snd]; auto|].
    rewrite Hup, Hdir. cbn [default from_option id].
    destruct Hbad as [->|(name & Hin & Hkey)]; [cbn; auto|].
    destruct (entries.*1) as [|n names] eqn:Hnames;
      [now apply elem_of_nil in Hin|].
    rewrite (forallb_chunk_keys_bad (n :: names) name Hin Hkey).
    cbn [fst snd]. auto.
Qed.

Lemma merge_chunks_refuses_unusable_directories_witness :
  let σ := uploaded [("0", list_byte_of_string "A");
                     ("final", list_byte_of_string "B")] in
  (merge_chunks "id" σ).1 = None /\ merge_dir (merge_chunks "id" σ).2 = merge_dir σ.
Proof.
  cbv zeta.
  destruct (merge_chunks_refuses_unusable_directories "id"
              (uploaded [("0", list_byte_of_string "A");
                         ("final", list_byte_of_string "B")])) as [_ Hbad].
  destruct (Hbad [("0", list_byte_of_string "A");
                  ("final", list_byte_of_string "B")])
    as (Hnone & _ & Hmerge & _).
  - reflexivity.
  - right. exists "final". split; [|reflexivity].
    apply (bool_decide_unpack _). vm_compute. exact I.
  - split; [exact Hnone|exact Hmerge].
Defined.

(** X9. [merge_chunks] works once: after a run that returned the path of the
    artifact, a second run for the same session returns [None] and leaves
    the world, the artifact included, exactly as the first run left it. *)
Theorem merge_chunks_runs_once (file_id : string) (σ : world) (path : string) :
  (merge_chunks file_id σ).1 = Some path ->
  let σ' := (merge_chunks file_id σ).2 in
  merge_chunks file_id σ' = (None, σ') /\
  merge_dir σ' !! path = Some (full_artifact σ file_id).
Proof.
  intros Hpath. cbv zeta.
  pose proof (merge_chunks_merged file_id σ) as Hmerged.
  destruct (merge_chunks file_id σ) as [result σ']. cbn [fst snd] in *.
  subst result.
  inversion Hmerged as [| | |σ'' Hsame Hdir Hup Hmerge]; subst.
  split.
  - unfold merge_chunks. now rewrite Hup, lookup_delete_eq.
  - rewrite Hmerge. apply lookup_insert_eq.
Qed.

Lemma merge_chunks_runs_once_witness :
  let σ' := (merge_chunks "id" (uploaded three_chunks)).2 in
  merge_chunks "id" σ' = (None, σ') /\
  merge_dir σ' !! "id.csv" = Some (list_byte_of_string "ABC").
Proof.
  cbv zeta.
  destruct (merge_chunks_runs_once "id" (uploaded three_chunks) "id.csv")
    as [Hagain Hkept]; [reflexivity|].
  split; [exact Hagain|]. rewrite Hkept. reflexivity.
Defined.

(** ** The pipeline from end to end *)

Section PipelineRuns.

Variable parse_datetime : cell -> option Z.
Variable CHUNK_SIZE : nat.
Variable read_csv : list Byte.byte -> nat -> list DataFrame * bool.

(** An insert changes nothing but the catalog and the fault script, and the
    catalog only by appending. *)
Lemma add_movie_batch_to_mongo_frame (batch : DataFrame) (σ : world) :
  let σ' := add_movie_batch_to_mongo parse_datetime batch σ in
  redis_db σ' = redis_db σ /\ redis_ver σ' = redis_ver σ /\
  upload_dir σ' = upload_dir σ /\ merge_dir σ' = merge_dir σ /\
  celery_queue σ' = celery_queue σ /\
  movies_collection σ `prefix_of` movies_collection σ'.
Proof.
  cbv zeta. unfold add_movie_batch_to_mongo.
  destruct (prepare_mongo_records parse_datetime batch) as [[|r records]|];
    try (repeat split; reflexivity).
  destruct (io_call σ) as [raised σ1] eqn:Hio.
  apply io_call_frame in Hio as (Hdb & Hver & Hup & Hmerge & Hqueue & Hmovies).
  destruct raised; cbn.
  - rewrite Hmovies. repeat split; auto.
  - rewrite Hmovies. repeat split; auto. now apply prefix_app_r.
Qed.

Lemma insert_all_frame (batches : list DataFrame) (σ : world) :
  let σ' := insert_all parse_datetime batches σ in
  redis_db σ' = redis_db σ /\ redis_ver σ' = redis_ver σ /\
  upload_dir σ' = upload_dir σ /\ merge_dir σ' = merge_dir σ /\
  celery_queue σ' = celery_queue σ /\
  movies_collection σ `prefix_of` movies_collection σ'.
Proof.
  unfold insert_all.
  revert σ. induction batches as [|batch batches IH]; intros σ; cbn [fold_left].
  - repeat split; reflexivity.
  - destruct (IH (add_movie_batch_to_mongo parse_datetime batch σ))
      as (-> & -> & -> & -> & -> & Hprefix).
    destruct (add_movie_batch_to_mongo_frame batch σ)
      as (-> & -> & -> & -> & -> & Hprefix').
    repeat split. etransitivity; eassumption.
Qed.

(** With no failure ahead, the batches are inserted one after the other. *)
Lemma insert_all_quiet (batches : list DataFrame) (σ : world) :
  io_faults σ = [] ->
  io_faults (insert_all parse_datetime batches σ) = [] /\
  movies_collection (insert_all parse_datetime batches σ)
  = (movies_collection σ ++ concat (records_of parse_datetime <$> batches))%list.
Proof.
  unfold insert_all.
  revert σ. induction batches as [|batch batches IH]; intros σ Hquiet;
    cbn [fold_left].
  - cbn. now rewrite app_nil_r.
  - assert (Hone : io_faults (add_movie_batch_to_mongo parse_datetime batch σ) = [] /\
                   movies_collection (add_movie_batch_to_mongo parse_datetime batch σ)
                   = (movies_collection σ ++ records_of parse_datetime batch)%list).
    { unfold add_movie_batch_to_mongo, records_of.
      destruct (prepare_mongo_records parse_datetime batch) as [[|r records]|];
        cbn [default from_option id]; rewrite ?app_nil_r; auto.
      rewrite (io_call_quiet σ Hquiet). cbn. auto. }
    destruct Hone as [Hquiet1 Hmovies1].
    destruct (IH _ Hquiet1) as [Hquiet' Hmovies'].
    split; [exact Hquiet'|].
    rewrite Hmovies', Hmovies1, fmap_cons. cbn [concat].
    now rewrite app_assoc.
Qed.

Lemma update_redis_metadata_frame (file_id status : string) (σ : world) :
  let σ' := update_redis_metadata file_id status σ in
  upload_dir σ' = upload_dir σ /\ merge_dir σ' = merge_dir σ /\
  celery_queue σ' = celery_queue σ /\
  movies_collection σ' = movies_collection σ /\ io_faults σ' = io_faults σ.
Proof.
  cbv zeta.
  destruct (update_redis_metadata_cases file_id status σ)
    as [->|(_ & _ & ->)]; repeat split.
Qed.

(** A complete run of the pipeline with no failure. *)
Lemma process_chunks_succeeds (file_id : string) (σ : world)
    (entries : list (string * list Byte.byte)) (batches : list DataFrame) :
  file_id <> "" ->
  Redis.hgetall file_id σ <> ∅ ->
  upload_dir σ !! file_id = Some entries ->
  entries <> [] ->
  NoDup entries.*1 ->
  Forall (fun e => is_Some (chunk_key e.1)) entries ->
  io_faults σ = [] ->
  read_csv (concat (sorted (key_or_zero ∘ fst) entries).*2) CHUNK_SIZE
    = (batches, false) ->
  exists σ',
    process_chunks parse_datetime CHUNK_SIZE read_csv file_id σ
      = (Some 200%nat, σ') /\
    Redis.hgetall file_id σ' !! "status" = Some "Completed" /\
    (forall field, field <> "status" ->
       Redis.hgetall file_id σ' !! field = Redis.hgetall file_id σ !! field) /\
    upload_dir σ' !! file_id = None /\
    merge_dir σ' !! output_file file_id
      = Some (concat (sorted (key_or_zero ∘ fst) entries).*2) /\
    movies_collection σ'
      = (movies_collection σ ++ concat (records_of parse_datetime <$> batches))%list /\
    celery_queue σ' = celery_queue σ.
Proof.
  intros Hid Hmeta Hdir Hne Hnd Hkeys Hquiet Hread.
  destruct (merge_chunks_succeeds file_id σ entries Hdir Hne Hnd Hkeys Hquiet)
    as (σ1 & Hrun & Hmerge & Hgone & Hsame & Hquiet1).
  destruct Hsame as (Hdb1 & Hver1 & Hqueue1 & Hmovies1).
  unfold process_chunks, get_metadata.
  rewrite bool_decide_eq_false_2 by exact Hmeta.
  rewrite Hrun, Hmerge, Hread.
  fold (insert_all parse_datetime batches σ1).
  destruct (insert_all_frame batches σ1)
    as (Hdb2 & Hver2 & Hup2 & Hmerge2 & Hqueue2 & _).
  destruct (insert_all_quiet batches σ1 Hquiet1) as [_ Hmovies2].
  set (σ2 := insert_all parse_datetime batches σ1) in *.
  destruct (update_redis_metadata_frame file_id "Completed" σ2)
    as (Hup3 & Hmerge3 & Hqueue3 & Hmovies3 & _).
  assert (Hget2 : Redis.hgetall file_id σ2 = Redis.hgetall file_id σ).
  { rewrite (hgetall_same_redis σ1 σ2) by exact Hdb2.
    now apply hgetall_same_redis. }
  eexists. split; [reflexivity|].
  split.
  { destruct (update_redis_metadata_cases file_id "Completed" σ2)
      as [Hkept|(_ & _ & ->)].
    - exfalso. revert Hkept. unfold update_redis_metadata.
      destruct (String.eqb_spec file_id ""); [congruence|].
      rewrite bool_decide_eq_false_2 by (rewrite Hget2; exact Hmeta).
      intros Hkept. apply (f_equal (Redis.version file_id)) in Hkept.
      rewrite RedisFacts.version_hset in Hkept. lia.
    - rewrite RedisFacts.hgetall_hset. apply lookup_union_Some_l.
      apply lookup_insert_eq. }
  split.
  { intros field Hfield. rewrite update_redis_metadata_field by exact Hfield.
    now rewrite Hget2. }
  split; [now rewrite Hup3, Hup2|].
  split; [now rewrite Hmerge3, Hmerge2|].
  split; [now rewrite Hmovies3, Hmovies2, Hmovies1|].
  now rewrite Hqueue3, Hqueue2, Hqueue1.
Qed.

End PipelineRuns.

Lemma process_chunks_idle (parse_datetime : cell -> option Z) (CHUNK_SIZE : nat)
    (read_csv : list Byte.byte -> nat -> list DataFrame * bool)
    (file_id : string) (σ : world) :
  Redis.hgetall file_id σ = ∅ \/ upload_dir σ !! file_id = None ->
  process_chunks parse_datetime CHUNK_SIZE read_csv file_id σ = (None, σ).
Proof.
  intros Hidle. unfold process_chunks, get_metadata.
  destruct (bool_decide (Redis.hgetall file_id σ = ∅)) eqn:Hmeta;
    [reflexivity|].
  apply bool_decide_eq_false in Hmeta.
  destruct Hidle as [Hempty|Hdir]; [contradiction|].
  unfold merge_chunks. now rewrite Hdir.
Qed.

(** A run that returned a code has removed the directory of the session. *)
Lemma process_chunks_done (parse_datetime : cell -> option Z) (CHUNK_SIZE : nat)
    (read_csv : list Byte.byte -> nat -> list DataFrame * bool)
    (file_id : string) (σ : world) (code : nat) :
  (process_chunks parse_datetime CHUNK_SIZE read_csv file_id σ).1 = Some code ->
  upload_dir (process_chunks parse_datetime CHUNK_SIZE read_csv file_id σ).2
    !! file_id = None.
Proof.
  unfold process_chunks, get_metadata.
  destruct (bool_decide (Redis.hgetall file_id σ = ∅)); [discriminate|].
  pose proof (merge_chunks_merged file_id σ) as Hmerged.
  destruct (merge_chunks file_id σ) as [path σ1]. cbn [fst snd] in Hmerged.
  destruct Hmerged as [σm _ _ _|σm ? ? _ _ _ _|σm ? ? ? _ _ _ _ _
                      |σm _ _ Hup Hmerge]; try discriminate.
  rewrite Hmerge, lookup_insert_eq.
  destruct (read_csv (full_artifact σ file_id) CHUNK_SIZE) as [batches raises].
  fold (insert_all parse_datetime batches σm).
  destruct raises; [discriminate|]. intros _. cbn [snd].
  destruct (update_redis_metadata_frame file_id "Completed"
              (insert_all parse_datetime batches σm)) as (-> & _).
  destruct (insert_all_frame parse_datetime batches σm) as (_ & _ & -> & _).
  rewrite Hup. apply lookup_delete_eq.
Qed.

(** X10. A complete run of [process_chunks] with no failure, for a session
    whose chunk names all carry an index: it returns 200, sets the status to
    [Completed] and changes no other field, removes the chunks and their
    directory, leaves the merged file in place, appends to the catalog the
    records of every batch in the order of the batches, and submits no job. *)
Theorem process_chunks_completes
    (parse_datetime : cell -> option Z) (CHUNK_SIZE : nat)
    (read_csv : list Byte.byte -> nat -> list DataFrame * bool)
    (file_id : string) (σ : world)
    (entries : list (string * list Byte.byte)) (batches : list DataFrame) :
  file_id <> "" ->
  Redis.hgetall file_id σ <> ∅ ->
  upload_dir σ !! file_id = Some entries ->
  entries <> [] ->
  NoDup entries.*1 ->
  Forall (fun e => is_Some (chunk_key e.1)) entries ->
  io_faults σ = [] ->
  read_csv (concat (sorted (key_or_zero ∘ fst) entries).*2) CHUNK_SIZE
    = (batches, false) ->
  exists σ',
    process_chunks parse_datetime CHUNK_SIZE read_csv file_id σ
      = (Some 200%nat, σ') /\
    Redis.hgetall file_id σ' !! "status" = Some "Completed" /\
    (forall field, field <> "status" ->
       Redis.hgetall file_id σ' !! field = Redis.hgetall file_id σ !! field) /\
    upload_dir σ' !! file_id = None /\
    merge_dir σ' !! output_file file_id
      = Some (concat (sorted (key_or_zero ∘ fst) entries).*2) /\
    movies_collection σ'
      = (movies_collection σ ++ concat (records_of parse_datetime <$> batches))%list /\
    celery_queue σ' = celery_queue σ.
Proof.
  intros Hid Hmeta Hdir Hne Hnd Hkeys Hquiet Hread.
  destruct (process_chunks_succeeds parse_datetime CHUNK_SIZE read_csv file_id σ
              entries batches Hid Hmeta Hdir Hne Hnd Hkeys Hquiet Hread)
    as (σ' & Hrun & Hstatus & Hfields & Hgone & Hmerge & Hcatalog & Hqueue).
  exists σ'. split; [exact Hrun|]. split; [exact Hstatus|].
  split; [exact Hfields|]. split; [exact Hgone|]. split; [exact Hmerge|].
  split; [exact Hcatalog|exact Hqueue].
Qed.

(** The session of one chunk, processed. *)
Lemma process_chunks_completes_witness :
  exists σ',
    process_chunks parse_one_date 10 one_batch "id" processing_world
      = (Some 200%nat, σ') /\
    Redis.hgetall "id" σ' !! "status" = Some "Completed" /\
    movies_collection σ'
      = [[("title", Text "Heat"); ("date_added", Timestamp 819010800)]].
Proof.
  destruct (process_chunks_completes parse_one_date 10 one_batch "id"
              processing_world
              [("0", list_byte_of_string "title,date_added")]
              [mkFrame ["title"; "date_added"] [[Text "Heat"; Text "1995-12-15"]]])
    as (σ' & Hrun & Hstatus & _ & _ & _ & Hcatalog & _).
  - discriminate.
  - intros Hempty.
    apply (f_equal (fun m : gmap string string => m !! "status")) in Hempty.
    vm_compute in Hempty. discriminate.
  - reflexivity.
  - discriminate.
  - apply (bool_decide_unpack _). vm_compute. exact I.
  - apply (bool_decide_unpack _). vm_compute. exact I.
  - reflexivity.
  - reflexivity.
  - exists σ'. split; [exact Hrun|]. split; [exact Hstatus|].
    rewrite Hcatalog. reflexivity.
Defined.

(** X11. [process_chunks] returns [None] and leaves the world as it was when
    the session has no record or no chunk directory.  This is what a job
    delivered a second time meets: after a run that returned a code, a new
    run for the same session returns [None] and changes nothing. *)
Theorem process_chunks_runs_once
    (parse_datetime : cell -> option Z) (CHUNK_SIZE : nat)
    (read_csv : list Byte.byte -> nat -> list DataFrame * bool)
    (file_id : string) (σ : world) :
  (Redis.hgetall file_id σ = ∅ \/ upload_dir σ !! file_id = None ->
     process_chunks parse_datetime CHUNK_SIZE read_csv file_id σ = (None, σ)) /\
  (forall code,
     (process_chunks parse_datetime CHUNK_SIZE read_csv file_id σ).1 = Some code ->
     let σ' := (process_chunks parse_datetime CHUNK_SIZE read_csv file_id σ).2 in
     process_chunks parse_datetime CHUNK_SIZE read_csv file_id σ' = (None, σ')).
Proof.
  split; [apply process_chunks_idle|].
  intros code Hcode. cbv zeta. apply process_chunks_idle. right.
  eapply process_chunks_done, Hcode.
Qed.

Lemma process_chunks_runs_once_witness :
  let σ' := (process_chunks parse_one_date 10 one_batch "id" processing_world).2 in
  process_chunks parse_one_date 10 one_batch "id" σ' = (None, σ').
Proof.
  cbv zeta.
  destruct (process_chunks_runs_once parse_one_date 10 one_batch "id"
              processing_world) as [_ Hagain].
  apply (Hagain 200%nat). reflexivity.
Defined.

(** [merge_chunks] touches no directory and no merged file but those of its
    session. *)
Lemma merge_chunks_elsewhere (file_id : string) (σ : world) :
  (forall f, f <> file_id ->
     upload_dir (merge_chunks file_id σ).2 !! f = upload_dir σ !! f) /\
  (forall p, p <> output_file file_id ->
     merge_dir (merge_chunks file_id σ).2 !! p = merge_dir σ !! p).
Proof.
  destruct (merge_chunks_merged file_id σ)
    as [σ' _ Hup Hmerge|σ' ? ? _ _ Hup Hmerge|σ' ? ? ? _ _ _ Hup Hmerge
       |σ' _ _ Hup Hmerge]; rewrite Hup, Hmerge; split; intros x Hx;
    rewrite ?lookup_insert_ne, ?lookup_delete_ne by congruence; reflexivity.
Qed.

(** X12. Whatever fails, [process_chunks] stays within its session: it
    submits no job, leaves the records, the chunks and the merged files of
    the other sessions as they were, changes no field of its own record but
    [status], and only ever appends to the catalog. *)
Theorem process_chunks_stays_within_its_session
    (parse_datetime : cell -> option Z) (CHUNK_SIZE : nat)
    (read_csv : list Byte.byte -> nat -> list DataFrame * bool)
    (file_id : string) (σ : world) :
  let σ' := (process_chunks parse_datetime CHUNK_SIZE read_csv file_id σ).2 in
  celery_queue σ' = celery_queue σ /\
  (forall key, key <> file_id -> Redis.hgetall key σ' = Redis.hgetall key σ) /\
  (forall field, field <> "status" ->
     Redis.hgetall file_id σ' !! field = Redis.hgetall file_id σ !! field) /\
  (forall f, f <> file_id -> upload_dir σ' !! f = upload_dir σ !! f) /\
  (forall p, p <> output_file file_id -> merge_dir σ' !! p = merge_dir σ !! p) /\
  movies_collection σ `prefix_of` movies_collection σ'.
Proof.
  cbv zeta. unfold process_chunks, get_metadata.
  destruct (bool_decide (Redis.hgetall file_id σ = ∅));
    [cbn [snd]; repeat split; reflexivity|].
  pose proof (merge_chunks_elsewhere file_id σ) as [Hdirs Hfiles].
  pose proof (merge_chunks_merged file_id σ) as Hmerged.
  assert (Hsame : same_services σ (merge_chunks file_id σ).2)
    by (destruct Hmerged; assumption).
  clear Hmerged.
  destruct (merge_chunks file_id σ) as [path σ1]. cbn [fst snd] in *.
  destruct Hsame as (Hdb1 & Hver1 & Hqueue1 & Hmovies1).
  assert (Hmerge_only : celery_queue σ1 = celery_queue σ /\
            (forall key, key <> file_id ->
               Redis.hgetall key σ1 = Redis.hgetall key σ) /\
            (forall field, field <> "status" ->
               Redis.hgetall file_id σ1 !! field
               = Redis.hgetall file_id σ !! field) /\
            (forall f, f <> file_id -> upload_dir σ1 !! f = upload_dir σ !! f) /\
            (forall p, p <> output_file file_id ->
               merge_dir σ1 !! p = merge_dir σ !! p) /\
            movies_collection σ `prefix_of` movies_collection σ1).
  { split; [exact Hqueue1|].
    split; [intros key _; now apply hgetall_same_redis|].
    split; [intros field _; now rewrite (hgetall_same_redis σ σ1)|].
    split; [exact Hdirs|]. split; [exact Hfiles|]. now rewrite Hmovies1. }
  destruct path as [path|]; [|exact Hmerge_only].
  destruct (merge_dir σ1 !! path) as [content|]; [|exact Hmerge_only].
  destruct (read_csv content CHUNK_SIZE) as [batches raises].
  fold (insert_all parse_datetime batches σ1).
  destruct (insert_all_frame parse_datetime batches σ1)
    as (Hdb2 & Hver2 & Hup2 & Hmerge2 & Hqueue2 & Hprefix2).
  set (σ2 := insert_all parse_datetime batches σ1) in *.
  assert (Hinserted : celery_queue σ2 = celery_queue σ /\
            (forall key, Redis.hgetall key σ2 = Redis.hgetall key σ) /\
            (forall f, f <> file_id -> upload_dir σ2 !! f = upload_dir σ !! f) /\
            (forall p, p <> output_file file_id ->
               merge_dir σ2 !! p = merge_dir σ !! p) /\
            movies_collection σ `prefix_of` movies_collection σ2).
  { split; [congruence|].
    split.
    { intros key. rewrite (hgetall_same_redis σ1 σ2) by exact Hdb2.
      now apply hgetall_same_redis. }
    split; [intros f Hf; rewrite Hup2; now apply Hdirs|].
    split; [intros p Hp; rewrite Hmerge2; now apply Hfiles|].
    rewrite Hmovies1 in Hprefix2. exact Hprefix2. }
  destruct Hinserted as (Hq & Hget & Hd & Hf & Hp).
  destruct raises; cbn [snd].
  - split; [exact Hq|]. split; [intros key _; apply Hget|].
    split; [intros field _; now rewrite Hget|]. auto.
  - destruct (update_redis_metadata_frame file_id "Completed" σ2)
      as (Hup3 & Hmerge3 & Hqueue3 & Hmovies3 & _).
    split; [congruence|].
    split.
    { intros key Hkey. rewrite update_redis_metadata_other by exact Hkey.
      apply Hget. }
    split.
    { intros field Hfield.
      rewrite update_redis_metadata_field by exact Hfield. now rewrite Hget. }
    split; [intros f Hne; rewrite Hup3; now apply Hd|].
    split; [intros p Hne; rewrite Hmerge3; now apply Hf|].
    now rewrite Hmovies3.
Qed.

Lemma process_chunks_stays_within_its_session_witness :
  Redis.hgetall "id"
    (process_chunks parse_one_date 10 one_batch "id" processing_world).2
    !! "chunks_uploaded" = Some "1".
Proof.
  destruct (process_chunks_stays_within_its_session parse_one_date 10 one_batch
              "id" processing_world) as (_ & _ & Hfields & _).
  rewrite Hfields by discriminate. reflexivity.
Defined.

(** ** No lost update *)

Lemma filter_insert_count {A : Type} (f : A -> bool) (l : list A) (i : nat)
    (x y : A) :
  l !! i = Some x -> f x = false ->
  length (List.filter f (<[i := y]> l))
  = (length (List.filter f l) + if f y then 1 else 0)%nat.
Proof.
  revert i. induction l as [|a l IH]; intros [|i] Hi Hx; try discriminate.
  - cbn in Hi. inversion Hi; subst a. cbn. rewrite Hx.
    destruct (f y); cbn; lia.
  - cbn in Hi. specialize (IH i Hi Hx).
    change (<[S i := y]> (a :: l)) with (a :: <[i := y]> l).
    cbn [List.filter]. destruct (f a); cbn [length]; rewrite IH; lia.
Qed.

Lemma request_step_on_its_session (r : request) (σ : world) :
  on_its_session r -> on_its_session (request_step r σ).1.
Proof.
  intros Hr. unfold request_step.
  destruct (at_point r) as [|f|f w|f w md|f w md|code] eqn:Hat.
  - pose proof (receive_received (form r) σ) as Hrec.
    destruct (receive (form r) σ) as [p σ']. cbn [fst snd] in *.
    unfold on_its_session. cbn [at_point form].
    destruct Hrec as [ | | | |file_id ? ? ? ? Heq]; try exact I.
    now rewrite Heq.
  - unfold on_its_session in *. rewrite Hat in Hr. exact Hr.
  - unfold on_its_session in *. rewrite Hat in Hr. cbn [fst at_point form].
    pose proof (decide_completion_inv f w σ) as Hinv.
    destruct (decide_completion f w σ); try exact I; try contradiction;
      destruct Hinv as (-> & _); exact Hr.
  - unfold on_its_session in *. rewrite Hat in Hr. exact Hr.
  - unfold on_its_session in *. rewrite Hat in Hr.
    destruct (Nat.eqb (Redis.version f σ) w); [exact I|exact Hr].
  - unfold on_its_session. cbn [fst]. now rewrite Hat.
Qed.

(** A command that is not a commit changes neither Redis nor the number of
    accepted requests; a commit on [f] adds one accepted request for [f]. *)
Lemma request_step_accepts (r : request) (σ : world) (file_id : string) :
  on_its_session r ->
  (redis_db (request_step r σ).2 = redis_db σ /\
   accepted_by file_id (request_step r σ).1 = accepted_by file_id r) \/
  (exists md,
     accepted_by file_id r = false /\
     accepted_by file_id (request_step r σ).1 = true /\
     at_point r = AtExecute file_id (Redis.version file_id σ) md /\
     (request_step r σ).2 = Redis.hset file_id (Py.str_value <$> md) σ) \/
  (exists f md,
     f <> file_id /\
     accepted_by file_id r = false /\
     accepted_by file_id (request_step r σ).1 = false /\
     (request_step r σ).2 = Redis.hset f (Py.str_value <$> md) σ).
Proof.
  intros Hr. unfold request_step, accepted_by.
  destruct (at_point r) as [|f|f w|f w md|f w md|code] eqn:Hat.
  - left. pose proof (receive_received (form r) σ) as Hrec.
    pose proof (receive_redis (form r) σ) as [Hdb _].
    destruct (receive (form r) σ) as [p σ']. cbn [fst snd at_point form] in *.
    split; [exact Hdb|]. now destruct Hrec.
  - left. cbn [fst snd at_point]. auto.
  - left. cbn [fst snd at_point form]. split; [reflexivity|].
    pose proof (decide_completion_inv f w σ) as Hinv.
    destruct (decide_completion f w σ) as [| | | | |code]; try reflexivity.
    do 201 (destruct code as [|code]; [reflexivity|]).
    do 299 (destruct code as [|code]; [contradiction|]).
    destruct code; [|contradiction].
    reflexivity.
  - left. cbn [fst snd at_point form]. auto.
  - unfold on_its_session in Hr. rewrite Hat in Hr.
    destruct (Nat.eqb_spec (Redis.version f σ) w) as [<-|Hne];
      cbn [fst snd at_point form]; [|left; auto].
    rewrite Hr. destruct (String.eqb_spec f file_id) as [->|Hf].
    + right. left. exists md. auto.
    + right. right. exists f, md. auto.
  - left. cbn [fst snd]. rewrite Hat. auto.
Qed.

Lemma filter_insert_same {A : Type} (f : A -> bool) (l : list A) (i : nat)
    (x y : A) :
  l !! i = Some x -> f y = f x ->
  length (List.filter f (<[i := y]> l)) = length (List.filter f l).
Proof.
  revert i. induction l as [|a l IH]; intros [|i] Hi Hxy; try discriminate.
  - cbn in Hi. inversion Hi; subst x.
    change (<[0%nat := y]> (a :: l)) with (y :: l).
    cbn [List.filter]. rewrite Hxy. now destruct (f a).
  - cbn in Hi. specialize (IH i Hi Hxy).
    change (<[S i := y]> (a :: l)) with (a :: <[i := y]> l).
    cbn [List.filter]. destruct (f a); cbn [length]; now rewrite IH.
Qed.

Lemma system_step_counts (s : system) (i : nat) (file_id : string) (c0 : Z) :
  invariant s -> Forall on_its_session (pool s) ->
  chunks_uploaded_of (env s) file_id = Some (c0 + Z.of_nat (accepted s file_id)) ->
  Forall on_its_session (pool (system_step s i)) /\
  chunks_uploaded_of (env (system_step s i)) file_id
  = Some (c0 + Z.of_nat (accepted (system_step s i) file_id)).
Proof.
  intros Hinv Hon Hcount. unfold system_step.
  destruct (pool s !! i) as [r|] eqn:Hi; [|split; [exact Hon|exact Hcount]].
  assert (Hr : on_its_session r) by (rewrite Forall_lookup in Hon; eauto).
  assert (Hcons : consistent (env s) r)
    by (unfold invariant in Hinv; rewrite Forall_lookup in Hinv; eauto).
  pose proof (request_step_on_its_session r (env s) Hr) as Hr'.
  pose proof (request_step_accepts r (env s) file_id Hr) as Hcases.
  destruct (request_step r (env s)) as [r' σ']. cbn [fst snd env pool] in *.
  split; [now apply Forall_insert|].
  unfold accepted in *. cbn [pool].
  destruct Hcases as [[Hdb Hsame]
                     |[(md & Hbefore & Hafter & Hat & ->)
                      |(f & md & Hf & Hbefore & Hafter & ->)]].
  - rewrite (filter_insert_same _ _ _ r r' Hi Hsame).
    now rewrite (chunks_uploaded_of_ext _ _ _ Hdb).
  - rewrite (filter_insert_count _ _ _ r r' Hi Hbefore), Hafter.
    unfold consistent in Hcons. rewrite Hat in Hcons.
    destruct Hcons as [_ Hcons]. destruct (Hcons eq_refl) as (c & Hc & Hmd).
    assert (c = c0 + Z.of_nat (length (List.filter (accepted_by file_id) (pool s))))
      as Hceq by congruence.
    rewrite (chunks_uploaded_of_commit file_id md (env s) c);
      [f_equal; lia|eapply chunks_uploaded_of_nonneg, Hc|exact Hmd].
  - rewrite (filter_insert_count _ _ _ r r' Hi Hbefore), Hafter, Nat.add_0_r.
    now rewrite chunks_uploaded_of_hset_ne.
Qed.

(** X13. No update is lost: under every interleaving of any number of
    concurrent uploads, the counter of a session equals its initial value
    plus the number of uploads answered 201 for that session so far. *)
Theorem counter_counts_accepted_uploads
    (σ : world) (reqs : list chunk_form) (schedule : list nat)
    (file_id : string) (c0 : Z) :
  chunks_uploaded_of σ file_id = Some c0 ->
  let s := run schedule (mkSystem σ (fresh <$> reqs)) in
  chunks_uploaded_of (env s) file_id
  = Some (c0 + Z.of_nat (accepted s file_id)).
Proof.
  intros Hc0. cbv zeta.
  assert (Hstart : invariant (mkSystem σ (fresh <$> reqs)) /\
                   Forall on_its_session (pool (mkSystem σ (fresh <$> reqs))) /\
                   chunks_uploaded_of (env (mkSystem σ (fresh <$> reqs))) file_id
                   = Some (c0 + Z.of_nat (accepted (mkSystem σ (fresh <$> reqs))
                                                   file_id))).
  { split; [apply fresh_invariant|]. split.
    - cbn [pool]. apply Forall_fmap, Forall_true. intros req. exact I.
    - cbn [env]. rewrite Hc0. f_equal.
      assert (Hnone : accepted (mkSystem σ (fresh <$> reqs)) file_id = 0%nat).
      { unfold accepted. cbn [pool]. induction reqs as [|req reqs IH];
          [reflexivity|exact IH]. }
      rewrite Hnone. lia. }
  generalize dependent (mkSystem σ (fresh <$> reqs)).
  induction schedule as [|i schedule IH]; intros s (Hinv & Hon & Hcount);
    [exact Hcount|].
  cbn [run fold_left]. apply IH.
  split; [now apply system_step_invariant|].
  now apply system_step_counts.
Qed.

(** The race of two uploads on a session of one chunk: both are accepted,
    the counter reads 2. *)
Lemma counter_counts_accepted_uploads_witness :
  chunks_uploaded_of (env (run race_schedule race)) "id" = Some 2.
Proof.
  pose proof (counter_counts_accepted_uploads (session_world 1)
                [chunk_of "id" "0" "a"; chunk_of "id" "0" "a"]
                race_schedule "id" 0 eq_refl) as Hcount.
  cbv zeta in Hcount. exact Hcount.
Defined.

(** * The client script *)

Lemma string_append_assoc (a b c : string) :
  String.append (String.append a b) c = String.append a (String.append b c).
Proof.
  induction a as [|x a IH]; [reflexivity|].
  change (String x (String.append (String.append a b) c)
          = String x (String.append a (String.append b c))).
  now rewrite IH.
Qed.

Lemma list_byte_of_string_append (a b : string) :
  list_byte_of_string (String.append a b)
  = (list_byte_of_string a ++ list_byte_of_string b)%list.
Proof.
  induction a as [|x a IH]; [reflexivity|].
  change (byte_of_ascii x :: list_byte_of_string (String.append a b)
          = byte_of_ascii x :: (list_byte_of_string a ++ list_byte_of_string b)%list).
  now rewrite IH.
Qed.

Section SplitCsvFacts.

Variable writerow : list string -> string.

Lemma create_chunk_app (a b : list (list string)) :
  Script.create_chunk writerow (a ++ b)%list
  = String.append (Script.create_chunk writerow a) (Script.create_chunk writerow b).
Proof.
  unfold Script.create_chunk. induction a as [|x a IH]; [reflexivity|].
  change ((x :: a) ++ b)%list with (x :: (a ++ b)%list).
  rewrite !fmap_cons. cbn [foldr]. rewrite IH. now rewrite string_append_assoc.
Qed.

Lemma join_create_chunk (groups : list (list (list string))) :
  foldr String.append "" (Script.create_chunk writerow <$> groups)
  = Script.create_chunk writerow (concat groups).
Proof.
  induction groups as [|g groups IH]; [reflexivity|].
  rewrite fmap_cons. cbn [foldr concat]. now rewrite IH, create_chunk_app.
Qed.

Lemma split_rows_spec (chunk_size : Z) (reader : list (list string))
    (chunks : list string) (chunk_rows : list (list string)) :
  Z.of_nat (length chunk_rows) < chunk_size ->
  exists groups rest,
    Script.split_rows writerow chunk_size reader chunks chunk_rows
      = ((chunks ++ (Script.create_chunk writerow <$> groups))%list, rest) /\
    (concat groups ++ rest)%list = (chunk_rows ++ reader)%list /\
    Forall (fun g => Z.of_nat (length g) = chunk_size) groups /\
    Z.of_nat (length rest) < chunk_size.
Proof.
  revert chunks chunk_rows.
  induction reader as [|row reader IH]; intros chunks chunk_rows Hlt.
  - exists [], chunk_rows. cbn. rewrite !app_nil_r. auto.
  - cbn [Script.split_rows].
    destruct (Z.leb_spec chunk_size (Z.of_nat (length (chunk_rows ++ [row])%list)))
      as [Hfull|Hroom].
    + destruct (IH (chunks ++ [Script.create_chunk writerow
                                 (chunk_rows ++ [row])%list])%list [])
        as (groups & rest & Hrun & Hall & Hsize & Hrest).
      { cbn. rewrite length_app in Hfull. cbn in Hfull. lia. }
      exists ((chunk_rows ++ [row])%list :: groups), rest.
      split; [|split; [|split]].
      * rewrite Hrun, fmap_cons. now rewrite <- app_assoc.
      * cbn [concat]. rewrite <- !app_assoc. cbn [app] in *. now rewrite Hall.
      * constructor; [|exact Hsize].
        rewrite length_app in *. cbn [length] in *. lia.
      * exact Hrest.
    + destruct (IH chunks (chunk_rows ++ [row])%list Hroom)
        as (groups & rest & Hrun & Hall & Hsize & Hrest).
      exists groups, rest. split; [exact Hrun|]. split; [|auto].
      rewrite Hall, <- app_assoc. reflexivity.
Qed.

Lemma split_csv_spec (headers : list string) (rows : list (list string))
    (chunk_size : Z) :
  2 <= chunk_size ->
  exists groups rest,
    Script.split_csv writerow (headers :: rows) chunk_size
      = Some (Script.create_chunk writerow
                <$> (groups ++ if (1 <? length rest)%nat then [rest] else [])%list) /\
    (concat groups ++ rest)%list = headers :: rows /\
    Forall (fun g => Z.of_nat (length g) = chunk_size) groups /\
    Z.of_nat (length rest) < chunk_size.
Proof.
  intros Hsize.
  destruct (split_rows_spec chunk_size rows [] [headers])
    as (groups & rest & Hrun & Hall & Hgroups & Hrest); [cbn; lia|].
  exists groups, rest. split; [|auto].
  unfold Script.split_csv. rewrite Hrun. cbn [app].
  destruct (1 <? length rest)%nat.
  - now rewrite fmap_app.
  - now rewrite app_nil_r.
Qed.

Lemma length_concat_groups {A : Type} (groups : list (list A)) (chunk_size : Z) :
  Forall (fun g => Z.of_nat (length g) = chunk_size) groups ->
  Z.of_nat (length (concat groups)) = Z.of_nat (length groups) * chunk_size.
Proof.
  induction 1 as [|g groups Hg _ IH]; [reflexivity|].
  cbn [concat length]. rewrite length_app. lia.
Qed.

Lemma split_csv_text (headers : list string) (rows : list (list string))
    (chunk_size : Z) (chunks : list string) :
  2 <= chunk_size ->
  Script.split_csv writerow (headers :: rows) chunk_size = Some chunks ->
  foldr String.append "" chunks
  = Script.create_chunk writerow (Script.kept (headers :: rows) chunk_size) /\
  Z.of_nat (length chunks)
  = Z.of_nat (length (headers :: rows)) / chunk_size
    + (if 1 <? Z.of_nat (length (headers :: rows)) mod chunk_size then 1 else 0).
Proof.
  intros Hsize Hrun.
  destruct (split_csv_spec headers rows chunk_size Hsize)
    as (groups & rest & Hrun' & Hall & Hgroups & Hrest).
  rewrite Hrun in Hrun'. injection Hrun' as ->.
  pose proof (length_concat_groups groups chunk_size Hgroups) as Hlen.
  assert (Hfile : Z.of_nat (length (headers :: rows))
                  = Z.of_nat (length groups) * chunk_size + Z.of_nat (length rest)).
  { rewrite <- Hall, length_app. lia. }
  assert (Hmod : Z.of_nat (length (headers :: rows)) mod chunk_size
                 = Z.of_nat (length rest)).
  { rewrite Hfile, Z.add_comm, Z_mod_plus_full. apply Z.mod_small. lia. }
  assert (Hdiv : Z.of_nat (length (headers :: rows)) / chunk_size
                 = Z.of_nat (length groups)).
  { rewrite Hfile, Z.add_comm, Z_div_plus_full by lia.
    rewrite Z.div_small by lia. lia. }
  unfold Script.kept. rewrite Hmod, Hdiv, length_fmap, length_app.
  rewrite join_create_chunk, concat_app, <- Hall.
  destruct rest as [|r1 [|r2 rest]].
  - cbn [length Nat.ltb Nat.leb concat]. rewrite !app_nil_r.
    split; [reflexivity|].
    destruct (Z.ltb_spec 1 (Z.of_nat 0)); lia.
  - cbn [length Nat.ltb Nat.leb concat]. rewrite !app_nil_r.
    split; [|destruct (Z.ltb_spec 1 (Z.of_nat 1)); lia].
    change (Z.of_nat 1 =? 1) with true. cbv iota.
    now rewrite removelast_last.
  - cbn [length Nat.ltb Nat.leb concat]. rewrite app_nil_r. split.
    + destruct (Z.eqb_spec (Z.of_nat (S (S (length rest)))) 1); [lia|reflexivity].
    + destruct (Z.ltb_spec 1 (Z.of_nat (S (S (length rest))))); cbn [length]; lia.
Qed.

End SplitCsvFacts.

(** X14. For a chunk size of two or more, [split_csv] cuts the rows of the
    file, header first, in their order into chunks of exactly [chunk_size]
    rows, followed by one shorter chunk of the rows left over when there are
    at least two of them; the header is in the first chunk only. *)
Theorem split_csv_cuts_in_order
    (writerow : list string -> string) (headers : list string)
    (rows : list (list string)) (chunk_size : Z) :
  2 <= chunk_size ->
  exists groups rest,
    Script.split_csv writerow (headers :: rows) chunk_size
      = Some (Script.create_chunk writerow
                <$> (groups ++ if (1 <? length rest)%nat then [rest] else [])%list) /\
    (concat groups ++ rest)%list = headers :: rows /\
    Forall (fun g => Z.of_nat (length g) = chunk_size) groups /\
    Z.of_nat (length rest) < chunk_size.
Proof. apply split_csv_spec. Qed.

Lemma split_csv_cuts_in_order_witness :
  exists groups rest,
    Script.split_csv (fun row => String.concat "," row)
      [["h"]; ["a"]; ["b"]; ["c"]; ["d"]] 2
      = Some (Script.create_chunk (fun row => String.concat "," row)
                <$> (groups ++ if (1 <? length rest)%nat then [rest] else [])%list) /\
    (concat groups ++ rest)%list = [["h"]; ["a"]; ["b"]; ["c"]; ["d"]] /\
    length groups = 2%nat /\ length rest = 1%nat.
Proof.
  destruct (split_csv_cuts_in_order (fun row => String.concat "," row)
              ["h"] [["a"]; ["b"]; ["c"]; ["d"]] 2)
    as (groups & rest & Hrun & Hall & Hgroups & Hrest); [lia|].
  exists groups, rest. split; [exact Hrun|]. split; [exact Hall|].
  destruct groups as [|g1 [|g2 [|g3 groups]]];
    repeat match goal with
           | H : Forall _ (_ :: _) |- _ => apply Forall_cons in H as [? H]
           end;
    apply (f_equal (@length _)) in Hall;
    rewrite length_app in Hall; cbn [concat] in Hall;
    rewrite ?length_app in Hall; cbn [length] in Hall; split; try lia.
  reflexivity.
Defined.

(** X15. For a chunk size of two or more, the chunks of [split_csv] put end
    to end are the rendering of the rows of the file, except that the last
    row is missing when the number of rows, header included, leaves the
    remainder one; and there are as many chunks as full groups of
    [chunk_size] rows, plus one when two or more rows are left over. *)
Theorem split_csv_drops_a_lone_last_row
    (writerow : list string -> string) (headers : list string)
    (rows : list (list string)) (chunk_size : Z) (chunks : list string) :
  2 <= chunk_size ->
  Script.split_csv writerow (headers :: rows) chunk_size = Some chunks ->
  foldr String.append "" chunks
  = Script.create_chunk writerow (Script.kept (headers :: rows) chunk_size) /\
  Z.of_nat (length chunks)
  = Z.of_nat (length (headers :: rows)) / chunk_size
    + (if 1 <? Z.of_nat (length (headers :: rows)) mod chunk_size then 1 else 0).
Proof. apply split_csv_text. Qed.

Lemma split_csv_drops_a_lone_last_row_witness :
  foldr String.append ""
    (default [] (Script.split_csv (fun row => String.concat "," row)
                   [["h"]; ["a"]; ["b"]; ["c"]; ["d"]] 2))
  = "habc".
Proof.
  destruct (split_csv_drops_a_lone_last_row (fun row => String.concat "," row)
              ["h"] [["a"]; ["b"]; ["c"]; ["d"]] 2
              (default [] (Script.split_csv (fun row => String.concat "," row)
                             [["h"]; ["a"]; ["b"]; ["c"]; ["d"]] 2)))
    as [Htext _]; [lia|reflexivity|].
  exact Htext.
Defined.

(** ** From the client's file to the artifact *)

Lemma receive_filename (file_id chunk_id : option string) (n1 n2 : string)
    (data : list Byte.byte) (σ : world) :
  n1 <> "" -> n2 <> "" ->
  receive (mkForm file_id chunk_id (Some (mkFile n1 data))) σ
  = receive (mkForm file_id chunk_id (Some (mkFile n2 data))) σ.
Proof.
  intros H1 H2. apply String.eqb_neq in H1, H2. unfold receive.
  cbn [form_file_id form_chunk_id files_file filename stream].
  now rewrite H1, H2.
Qed.

Lemma create_chunk_filename (file_id chunk_id : option string) (n1 n2 : string)
    (data : list Byte.byte) (σ : world) :
  n1 <> "" -> n2 <> "" ->
  create_chunk (mkForm file_id chunk_id (Some (mkFile n1 data))) σ
  = create_chunk (mkForm file_id chunk_id (Some (mkFile n2 data))) σ.
Proof.
  intros H1 H2.
  pose proof (create_chunk_alone
                (mkForm file_id chunk_id (Some (mkFile n1 data))) σ) as Ha.
  pose proof (create_chunk_alone
                (mkForm file_id chunk_id (Some (mkFile n2 data))) σ) as Hb.
  rewrite (receive_filename file_id chunk_id n1 n2 data σ H1 H2) in Ha.
  destruct (receive _ σ) as [[| f | | | |] σ1]; try congruence.
  destruct (decide_completion f (Redis.version f σ1) σ1); congruence.
Qed.

Lemma upload_all_send_chunk (file_id : string) (arrival : list (nat * string))
    (σ : world) :
  upload_all (Script.send_chunk file_id <$> arrival) σ
  = upload_all (upload_form file_id "chunk.csv" <$> (Script.entry_of <$> arrival)) σ.
Proof.
  revert σ. induction arrival as [|task arrival IH]; intros σ; [reflexivity|].
  rewrite !fmap_cons, !upload_all_cons.
  assert (Hstep : create_chunk (Script.send_chunk file_id task) σ
                  = create_chunk
                      (upload_form file_id "chunk.csv" (Script.entry_of task)) σ).
  { apply create_chunk_filename; discriminate. }
  rewrite Hstep. apply IH.
Qed.

Lemma chunk_key_str (n : Z) : 0 <= n -> chunk_key (Py.str n) = Some n.
Proof.
  intros Hn.
  pose proof (PyFacts.isdigit_str n Hn) as Hdigit.
  pose proof (all_digits_isdigit _ Hdigit) as Hall.
  unfold chunk_key.
  rewrite split_last_digits by exact Hall.
  rewrite int_digits by exact Hdigit.
  now rewrite PyFacts.digits_value_str.
Qed.

Lemma entry_key (task : nat * string) :
  key_or_zero (Script.entry_of task).1 = Z.of_nat task.1.
Proof.
  unfold key_or_zero, Script.entry_of. cbn [fst].
  now rewrite chunk_key_str by lia.
Qed.

Lemma enumerate_from_keys (start : nat) (chunks : list string) :
  (key_or_zero ∘ fst) <$> (Script.entry_of <$> Script.enumerate_from start chunks)
  = Z.of_nat <$> seq start (length chunks).
Proof.
  revert start. induction chunks as [|c chunks IH]; intros start; [reflexivity|].
  cbn [Script.enumerate_from length seq]. rewrite !fmap_cons, IH.
  f_equal. apply entry_key.
Qed.

Lemma enumerate_from_payloads (start : nat) (chunks : list string) :
  concat (Script.entry_of <$> Script.enumerate_from start chunks).*2
  = list_byte_of_string (foldr String.append "" chunks).
Proof.
  revert start. induction chunks as [|c chunks IH]; intros start; [reflexivity|].
  cbn [Script.enumerate_from foldr]. rewrite !fmap_cons. cbn [concat].
  now rewrite IH, list_byte_of_string_append.
Qed.

Lemma enumerate_from_ascending (start : nat) (chunks : list string) :
  StronglySorted (ascending (key_or_zero ∘ fst))
    (Script.entry_of <$> Script.enumerate_from start chunks).
Proof.
  revert start. induction chunks as [|c chunks IH]; intros start; [constructor|].
  cbn [Script.enumerate_from]. rewrite fmap_cons. constructor; [apply IH|].
  assert (Hkeys : Forall (fun k => Z.of_nat start <= k)
                    ((key_or_zero ∘ fst)
                       <$> (Script.entry_of <$> Script.enumerate_from (S start) chunks))).
  { rewrite enumerate_from_keys. apply Forall_fmap, Forall_forall.
    intros i Hi. apply elem_of_seq in Hi. cbn. lia. }
  rewrite Forall_fmap in Hkeys. eapply Forall_impl; [exact Hkeys|].
  intros e He. unfold ascending, compose in *.
  rewrite (entry_key (start, c)). exact He.
Qed.

Lemma sorted_of_ascending {A : Type} (key : A -> Z) (l : list A) :
  StronglySorted (ascending key) l -> sorted key l = l.
Proof.
  induction 1 as [|x l Hl IH Hx]; [reflexivity|].
  unfold sorted in *. cbn [foldr]. rewrite IH.
  destruct l as [|y l]; [reflexivity|]. cbn [insert_by].
  apply Forall_cons in Hx as [Hxy _]. unfold ascending in Hxy.
  now destruct (Z.leb_spec (key x) (key y)); [|lia].
Qed.

Lemma split_csv_nonempty (writerow : list string -> string)
    (headers : list string) (rows : list (list string)) (chunk_size : Z)
    (chunks : list string) :
  2 <= chunk_size -> rows <> [] ->
  Script.split_csv writerow (headers :: rows) chunk_size = Some chunks ->
  chunks <> [].
Proof.
  intros Hsize Hrows Hrun.
  destruct (split_csv_text writerow headers rows chunk_size chunks Hsize Hrun)
    as [_ Hcount].
  intros ->. cbn [length] in Hcount.
  destruct rows as [|row rows]; [congruence|]. cbn [length] in Hcount.
  set (n := Z.of_nat (S (S (length rows)))) in *.
  assert (Hn : 2 <= n) by (unfold n; lia).
  pose proof (Z.div_mod n chunk_size ltac:(lia)) as Hdm.
  pose proof (Z.mod_pos_bound n chunk_size ltac:(lia)) as Hb.
  pose proof (Z.div_pos n chunk_size ltac:(lia) ltac:(lia)) as Hd.
  destruct (Z.ltb_spec 1 (n mod chunk_size)); nia.
Qed.

Lemma script_upload_merge
    (writerow : list string -> string) (headers : list string)
    (rows : list (list string)) (chunk_size : Z) (chunks : list string)
    (arrival : list (nat * string)) (file_id : string) (σ : world) :
  2 <= chunk_size -> rows <> [] ->
  Script.split_csv writerow (headers :: rows) chunk_size = Some chunks ->
  Permutation arrival (Script.enumerate chunks) ->
  file_id <> "" ->
  io_faults σ = [] -> is_Some (redis_db σ !! file_id) ->
  upload_dir σ !! file_id = None ->
  exists σ',
    merge_chunks file_id (upload_all (Script.send_chunk file_id <$> arrival) σ)
      = (Some (output_file file_id), σ') /\
    merge_dir σ' !! output_file file_id
      = Some (list_byte_of_string
                (Script.create_chunk writerow
                   (Script.kept (headers :: rows) chunk_size))).
Proof.
  intros Hsize Hrows Hrun Hperm Hf Hquiet Hsome Hnodir.
  pose proof (split_csv_nonempty writerow headers rows chunk_size chunks
                Hsize Hrows Hrun) as Hne.
  destruct (split_csv_text writerow headers rows chunk_size chunks Hsize Hrun)
    as [Htext _].
  unfold Script.enumerate in Hperm.
  set (entries := Script.entry_of <$> Script.enumerate_from 0 chunks).
  assert (Hkeys : NoDup ((key_or_zero ∘ fst) <$> entries)).
  { unfold entries. rewrite enumerate_from_keys.
    apply (NoDup_fmap_2 _), NoDup_seq. }
  destruct (uploads_then_merge file_id "chunk.csv" entries
              (Script.entry_of <$> arrival) σ)
    as (σ' & Hmerge & Hartifact & _); auto.
  - unfold entries. destruct chunks; [congruence|discriminate].
  - rewrite list_fmap_compose in Hkeys. now apply NoDup_fmap_1 in Hkeys.
  - unfold entries. apply Forall_fmap, Forall_forall. intros task _.
    unfold Script.entry_of. cbn. rewrite chunk_key_str by lia. eauto.
  - unfold entries. now rewrite Hperm.
  - exists σ'. rewrite upload_all_send_chunk. split; [exact Hmerge|].
    rewrite Hartifact, sorted_of_ascending by apply enumerate_from_ascending.
    unfold entries. now rewrite enumerate_from_payloads, Htext.
Qed.

(** X16. From the client's file to the artifact: for a chunk size of two or
    more and a file with at least one data row, when the chunks [split_csv]
    produces are posted by [send_chunk] and served one after the other in any
    order of arrival, with no I/O failure, to a session that has no chunk
    yet, [merge_chunks] rebuilds the rendering of the rows of the file in
    their order, less the last row when the number of rows, header included,
    leaves the remainder one. *)
Theorem upload_script_round_trip
    (writerow : list string -> string) (headers : list string)
    (rows : list (list string)) (chunk_size : Z) (chunks : list string)
    (arrival : list (nat * string)) (file_id : string) (σ : world) :
  2 <= chunk_size -> rows <> [] ->
  Script.split_csv writerow (headers :: rows) chunk_size = Some chunks ->
  Permutation arrival (Script.enumerate chunks) ->
  file_id <> "" ->
  io_faults σ = [] -> is_Some (redis_db σ !! file_id) ->
  upload_dir σ !! file_id = None ->
  exists σ',
    merge_chunks file_id (upload_all (Script.send_chunk file_id <$> arrival) σ)
      = (Some (output_file file_id), σ') /\
    merge_dir σ' !! output_file file_id
      = Some (list_byte_of_string
                (Script.create_chunk writerow
                   (Script.kept (headers :: rows) chunk_size))).
Proof. apply script_upload_merge. Qed.

Lemma upload_script_round_trip_witness :
  exists σ',
    merge_chunks "id"
      (upload_all (Script.send_chunk "id" <$> [(1%nat, "bc"); (0%nat, "ha")])
                  (session_world 2))
      = (Some "id.csv", σ') /\
    merge_dir σ' !! "id.csv" = Some (list_byte_of_string "habc").
Proof.
  destruct (upload_script_round_trip (fun row => String.concat "," row)
              ["h"] [["a"]; ["b"]; ["c"]; ["d"]] 2 ["ha"; "bc"]
              [(1%nat, "bc"); (0%nat, "ha")] "id" (session_world 2))
    as (σ' & Hrun & Hartifact).
  - lia.
  - discriminate.
  - reflexivity.
  - apply perm_swap.
  - discriminate.
  - reflexivity.
  - vm_compute. eauto.
  - reflexivity.
  - exists σ'. split; [exact Hrun|exact Hartifact].
Defined.

(** ** No missed trigger *)

Lemma total_chunks_of_ext (σ σ' : world) (file_id : string) :
  redis_db σ' = redis_db σ ->
  total_chunks_of σ' file_id = total_chunks_of σ file_id.
Proof.
  intros Hdb. unfold total_chunks_of, Redis.hgetall. now rewrite Hdb.
Qed.

Lemma total_chunks_of_commit (file_id : string) (md : gmap string Py.value)
    (σ : world) (t : Z) :
  0 <= t ->
  md !! "total_chunks" = Some (Py.VInt t) ->
  total_chunks_of (Redis.hset file_id (Py.str_value <$> md) σ) file_id = Some t.
Proof.
  intros Ht Hmd. unfold total_chunks_of.
  rewrite RedisFacts.hgetall_hset.
  erewrite lookup_union_Some_l by (rewrite lookup_fmap, Hmd; reflexivity).
  simpl. rewrite PyFacts.isdigit_str, PyFacts.digits_value_str by lia.
  reflexivity.
Qed.

Lemma total_chunks_of_hset_ne (key file_id : string)
    (mapping : gmap string string) (σ : world) :
  key <> file_id ->
  total_chunks_of (Redis.hset key mapping σ) file_id = total_chunks_of σ file_id.
Proof.
  intros Hne. unfold total_chunks_of.
  now rewrite RedisFacts.hgetall_hset_ne.
Qed.

(** A command that leaves Redis as it is and removes no job keeps what the
    transactions in flight hold. *)
Lemma announced_ext (file_id : string) (t : Z) (σ σ' : world) (q : request) :
  redis_ver σ' = redis_ver σ ->
  (file_id ∈ celery_queue σ -> file_id ∈ celery_queue σ') ->
  announced file_id t σ q -> announced file_id t σ' q.
Proof.
  intros Hver Hqueue. unfold announced, Redis.version. rewrite Hver.
  destruct (at_point q); auto.
  intros Hq Hf Hw. destruct (Hq Hf Hw) as [Htotal Hjob]. auto.
Qed.

(** A commit invalidates the other transactions on its key. *)
Lemma announced_commit (file_id : string) (t : Z) (σ : world) (f : string)
    (mapping : gmap string string) (q : request) :
  consistent σ q -> announced file_id t σ q ->
  announced file_id t (Redis.hset f mapping σ) q.
Proof.
  unfold consistent, announced.
  destruct (at_point q) as [|f'|f' w|f' w md|f' w md|code]; auto;
    intros [Hle _] Hq Hf Hw; subst f';
    (destruct (decide (f = file_id)) as [->|Hne];
     [rewrite RedisFacts.version_hset in Hw; lia
     |rewrite RedisFacts.version_hset_ne in Hw by exact Hne]);
    specialize (Hq eq_refl Hw); exact Hq.
Qed.

Lemma decide_completion_announced (file_id f : string) (w : nat) (σ : world)
    (t : Z) :
  total_chunks_of σ file_id = Some t ->
  announced file_id t σ (mkRequest (mkForm None None None)
                                    (decide_completion f w σ) 0).
Proof.
  intros Htotal. unfold announced. cbn [at_point].
  pose proof (decide_completion_inv f w σ) as Hinv.
  destruct (decide_completion f w σ) as [| | |f' w' md|f' w' md|code] eqn:Hd;
    try exact I.
  - destruct Hinv as (-> & -> & c & Hc & _). intros -> _.
    rewrite (decide_completion_spec file_id w σ c Hc) in Hd. cbv zeta in Hd.
    destruct (total_chunks_of_inv σ file_id t Htotal)
      as (total & Hlookup & Hcoerce & _).
    rewrite Hlookup, Hcoerce in Hd.
    destruct (Py.value_eqb (Py.VInt (c + 1)) (Py.VInt t)); [|discriminate].
    inversion Hd; subst md.
    rewrite lookup_insert_ne by discriminate.
    rewrite lookup_insert_ne by discriminate.
    now rewrite lookup_fmap, Hlookup, <- Hcoerce.
  - destruct Hinv as (-> & -> & c & Hc & _). intros -> _.
    rewrite (decide_completion_spec file_id w σ c Hc) in Hd. cbv zeta in Hd.
    destruct (total_chunks_of_inv σ file_id t Htotal)
      as (total & Hlookup & Hcoerce & _).
    rewrite Hlookup, Hcoerce in Hd.
    destruct (Py.value_eqb (Py.VInt (c + 1)) (Py.VInt t)) eqn:Heq;
      [discriminate|].
    inversion Hd; subst md. split.
    + rewrite lookup_insert_ne by discriminate.
      now rewrite lookup_fmap, Hlookup, <- Hcoerce.
    + rewrite lookup_insert_eq. intros Hsame. inversion Hsame as [Hct].
      cbn [Py.value_eqb] in Heq. rewrite Hct, Z.eqb_refl in Heq. discriminate.
Qed.

Lemma request_step_triggered (r : request) (σ : world) (file_id : string)
    (t : Z) :
  consistent σ r -> announced file_id t σ r ->
  total_chunks_of σ file_id = Some t ->
  (exists c, chunks_uploaded_of σ file_id = Some c /\
             (t <= c -> file_id ∈ celery_queue σ)) ->
  let r' := (request_step r σ).1 in
  let σ' := (request_step r σ).2 in
  total_chunks_of σ' file_id = Some t /\
  (exists c, chunks_uploaded_of σ' file_id = Some c /\
             (t <= c -> file_id ∈ celery_queue σ')) /\
  announced file_id t σ' r' /\
  (forall q, consistent σ q -> announced file_id t σ q ->
             announced file_id t σ' q).
Proof.
  intros Hcons Hann Htotal (c & Hc & Hjob). cbv zeta.
  unfold request_step.
  destruct (at_point r) as [|f|f w|f w md|f w md|code] eqn:Hat.
  - pose proof (receive_received (form r) σ) as Hrec.
    pose proof (receive_same_services (form r) σ) as (Hdb & Hver & Hq & _).
    destruct (receive (form r) σ) as [p σ']. cbn [fst snd] in *.
    split; [now rewrite (total_chunks_of_ext _ _ _ Hdb)|].
    split; [exists c; rewrite (chunks_uploaded_of_ext _ _ _ Hdb), Hq; auto|].
    split.
    + unfold announced. cbn [at_point]. now destruct Hrec.
    + intros q _. apply announced_ext; [exact Hver|now rewrite Hq].
  - cbn [fst snd]. split; [exact Htotal|]. split; [eauto|].
    split; [exact I|auto].
  - cbn [fst snd]. split; [exact Htotal|]. split; [eauto|].
    split; [|auto].
    pose proof (decide_completion_announced file_id f w σ t Htotal) as Hnew.
    unfold announced in *. cbn [at_point] in *. exact Hnew.
  - cbn [fst snd]. split; [exact Htotal|].
    split; [exists c; split; [exact Hc|]; cbn; intros Hle;
            apply elem_of_app; left; auto|].
    split.
    + unfold announced in *. rewrite Hat in Hann. cbn [at_point].
      intros Hf Hw. split; [now apply Hann|]. intros _. subst f. cbn.
      apply elem_of_app. right. apply list_elem_of_singleton. reflexivity.
    + intros q _. apply announced_ext; [reflexivity|].
      cbn. intros Hin. apply elem_of_app. now left.
  - destruct (Nat.eqb_spec (Redis.version f σ) w) as [Hw|Hw]; cbn [fst snd].
    + unfold consistent in Hcons. rewrite Hat in Hcons.
      destruct Hcons as [_ Hcons]. destruct (Hcons Hw) as (c' & Hc' & Hmd).
      destruct (decide (f = file_id)) as [->|Hne].
      * unfold announced in Hann. rewrite Hat in Hann.
        destruct (Hann eq_refl Hw) as [Hmdtotal Hmdjob].
        assert (c' = c) by congruence. subst c'.
        destruct (total_chunks_of_inv σ file_id t Htotal) as (_ & _ & _ & Ht & _).
        pose proof (chunks_uploaded_of_nonneg _ _ _ Hc) as Hc0.
        split; [now apply total_chunks_of_commit|].
        split.
        -- exists (c + 1).
           split; [now apply chunks_uploaded_of_commit|].
           intros Hle. cbn.
           destruct (Z.eq_dec (c + 1) t) as [Heq|Hneq].
           ++ apply Hmdjob. now rewrite Hmd, Heq.
           ++ apply Hjob. lia.
        -- split; [exact I|]. intros q. apply announced_commit.
      * split; [now rewrite total_chunks_of_hset_ne|].
        split; [exists c; now rewrite chunks_uploaded_of_hset_ne|].
        split; [exact I|]. intros q. apply announced_commit.
    + split; [exact Htotal|]. split; [eauto|]. split; [exact I|auto].
  - cbn [fst snd]. split; [exact Htotal|]. split; [eauto|].
    split; [|auto]. exact Hann.
Qed.

Lemma system_step_triggered (s : system) (i : nat) (file_id : string) (t : Z) :
  invariant s -> triggered file_id t s -> triggered file_id t (system_step s i).
Proof.
  intros Hinv (Htotal & Hcount & Hpool). unfold system_step.
  destruct (pool s !! i) as [r|] eqn:Hi; [|repeat split; assumption].
  assert (Hcons : consistent (env s) r)
    by (unfold invariant in Hinv; rewrite Forall_lookup in Hinv; eauto).
  assert (Hann : announced file_id t (env s) r)
    by (rewrite Forall_lookup in Hpool; eauto).
  destruct (request_step_triggered r (env s) file_id t Hcons Hann Htotal Hcount)
    as (Htotal' & Hcount' & Hann' & Hothers).
  destruct (request_step r (env s)) as [r' σ']. cbn [fst snd] in *.
  split; [exact Htotal'|]. split; [exact Hcount'|]. cbn [env pool].
  apply Forall_insert; [|exact Hann'].
  unfold invariant in Hinv. rewrite Forall_lookup in Hinv, Hpool.
  apply Forall_lookup. intros j q Hj. apply Hothers; eauto.
Qed.

Lemma run_triggered (schedule : list nat) (s : system) (file_id : string)
    (t : Z) :
  invariant s -> triggered file_id t s -> triggered file_id t (run schedule s).
Proof.
  revert s. induction schedule as [|i schedule IH]; intros s Hinv Htrig;
    [exact Htrig|].
  cbn [run fold_left]. apply IH.
  - now apply system_step_invariant.
  - now apply system_step_triggered.
Qed.

(** X17. No missed trigger: under every interleaving of any number of
    uploads, for a session of [t] chunks whose counter is below [t], the
    total of the session stays [t], and as soon as the counter has reached
    [t] a job for the session is in the queue. *)
Theorem counter_at_total_has_a_job
    (σ : world) (reqs : list chunk_form) (schedule : list nat)
    (file_id : string) (t c0 : Z) :
  total_chunks_of σ file_id = Some t ->
  chunks_uploaded_of σ file_id = Some c0 ->
  c0 < t ->
  let s := run schedule (mkSystem σ (fresh <$> reqs)) in
  total_chunks_of (env s) file_id = Some t /\
  exists c, chunks_uploaded_of (env s) file_id = Some c /\
            (t <= c -> file_id ∈ celery_queue (env s)).
Proof.
  intros Htotal Hc0 Hlt. cbv zeta.
  destruct (run_triggered schedule (mkSystem σ (fresh <$> reqs)) file_id t)
    as (Htotal' & Hcount' & _).
  - apply fresh_invariant.
  - split; [exact Htotal|]. split; [exists c0; split; [exact Hc0|lia]|].
    cbn [pool env]. apply Forall_fmap, Forall_true. intros req. exact I.
  - split; [exact Htotal'|exact Hcount'].
Qed.

Lemma counter_at_total_has_a_job_witness :
  chunks_uploaded_of (env (run race_schedule race)) "id" = Some 2 /\
  "id" ∈ celery_queue (env (run race_schedule race)).
Proof.
  destruct (counter_at_total_has_a_job (env race) (form <$> pool race)
              race_schedule "id" 1 0)
    as (_ & c & Hc & Hjob); [reflexivity|reflexivity|lia|].
  assert (Hrace : mkSystem (env race) (fresh <$> (form <$> pool race)) = race)
    by reflexivity.
  rewrite Hrace in Hc, Hjob.
  assert (Hcount : chunks_uploaded_of (env (run race_schedule race)) "id" = Some 2)
    by (vm_compute; reflexivity).
  split; [exact Hcount|]. apply Hjob.
  rewrite Hcount in Hc. inversion Hc. lia.
Defined.
